(** * keyboard-maestro-mcp: the machine registry, the catalog reader, the
      trigger invoker, the fan-out and the clipboard handoff of [src/index.ts]

    The development is a shallow embedding of [src/index.ts].  Pure
    functions of the source are Rocq functions; the [async] functions are
    computations in a small state-and-exception monad over an explicit
    [World] (the network, the file system, the clock, the random source).

    Conventions.
    - A JavaScript string is a Rocq [string] holding its UTF-8 bytes; a
      surrogate without its partner, which UTF-8 has no form for, is held
      as the three bytes ED, A0..BF, 80..BF of its code point.  All the
      delimiters the source looks for are ASCII, and a UTF-8 sequence of a
      non-ASCII character contains no ASCII byte, so matching on bytes and
      matching on UTF-16 code units select the same text.
    - A JavaScript number that the program uses as a port, a status or a
      code point is a [Z]; [NaN] is a separate value.
    - A [Buffer] is a [list byte].
    - A thrown value is data: an evaluation returns a [completion], either
      [Ok] with its value or [Throw] with what was thrown, and [try]/[catch]
      is a case analysis on it.  That a function never raises is the
      statement that its completion is always an [Ok].
    - Time is a clock in the state, in milliseconds.  Only timers move
      it, each by exactly its delay: the sleep between two polls and the
      wait of [trigger_and_capture]; requests and file operations take no
      time.
    - [JSON.parse], [path.join], [os.homedir] and [crypto.randomUUID]
      belong to the platform and are parameters. *)

From Stdlib Require Import ZArith NArith List String Ascii Bool Lia.
From Stdlib Require Import DecimalString Strings.Byte.
Import ListNotations.

Local Open Scope string_scope.
Local Open Scope Z_scope.

(** ** Thrown values and completions *)

(** What a JavaScript [throw] carries: an instance of [Error] (with its
    [name] and [message]) or any other value. *)
Inductive thrown : Type :=
| ErrorObj (name message : string)
| NonError.

(** How an evaluation completes: normally with a value, or abruptly with
    a thrown value. *)
Inductive completion (A : Type) : Type :=
| Ok (a : A)
| Throw (e : thrown).
Arguments Ok {A} a.
Arguments Throw {A} e.

Definition rbind {A B} (r : completion A) (k : A -> completion B) : completion B :=
  match r with
  | Ok a => k a
  | Throw e => Throw e
  end.

Declare Scope completion_scope.
Delimit Scope completion_scope with completion.
Notation "x <-? r ;; k" := (rbind r (fun x => k))
  (at level 61, r at next level, right associativity) : completion_scope.

(** ** The JavaScript platform functions the program calls *)
Module Js.

(** The double quote, written apart so that no literal doubles it. *)
Definition dq : string := String (ascii_of_nat 34) "".

(** [`${n}`] for an integer number. *)
Definition show (n : Z) : string := NilZero.string_of_int (Z.to_int n).

Definition code (a : ascii) : Z := Z.of_nat (nat_of_ascii a).
Definition chr (n : Z) : ascii := ascii_of_nat (Z.to_nat n).

(** Truthiness of a string: [""] is falsy. *)
Definition nonempty (s : string) : bool :=
  match s with
  | EmptyString => false
  | String _ _ => true
  end.

(** [x || d] and [if (x)] on an optional string: [undefined] and [""] are
    falsy. *)
Definition truthy (x : option string) : option string :=
  match x with
  | Some s => if nonempty s then Some s else None
  | None => None
  end.

(** [s.slice(0, n)]. *)
Fixpoint slice0 (n : nat) (s : string) : string :=
  match n, s with
  | S n', String a s' => String a (slice0 n' s')
  | _, _ => ""
  end.

Fixpoint rev_string (s acc : string) : string :=
  match s with
  | EmptyString => acc
  | String a s' => rev_string s' (String a acc)
  end.

(** *** [String.prototype.trim]

    White space and line terminators of ECMAScript, in UTF-8: the ASCII
    ones (TAB, LF, VT, FF, CR, SP) and U+00A0, U+1680, U+2000..U+200A,
    U+2028, U+2029, U+202F, U+205F, U+3000, U+FEFF. *)
Definition ascii_space (a : ascii) : bool :=
  let n := code a in ((9 <=? n) && (n <=? 13)) || (n =? 32).

(** [space_len s] is the byte length of the white space character [s]
    starts with, [0] when it starts with none. *)
Definition space_len (s : string) : nat :=
  match s with
  | String a r =>
      if ascii_space a then 1%nat
      else match r with
      | String b r' =>
          if (code a =? 194) && (code b =? 160) then 2%nat
          else match r' with
          | String c _ =>
              let '(x, y, z) := (code a, code b, code c) in
              if ((x =? 225) && (y =? 154) && (z =? 128))
              || ((x =? 226) && (y =? 128)
                  && (((128 <=? z) && (z <=? 138)) || (z =? 168) || (z =? 169)
                      || (z =? 175)))
              || ((x =? 226) && (y =? 129) && (z =? 159))
              || ((x =? 227) && (y =? 128) && (z =? 128))
              || ((x =? 239) && (y =? 187) && (z =? 191))
              then 3%nat else 0%nat
          | EmptyString => 0%nat
          end
      | EmptyString => 0%nat
      end
  | EmptyString => 0%nat
  end.

Fixpoint trimStart_from (skip : nat) (s : string) : string :=
  match skip, s with
  | S n, String _ s' => trimStart_from n s'
  | S _, EmptyString => ""
  | O, String _ s' =>
      match space_len s with
      | O => s
      | S n => trimStart_from n s'
      end
  | O, EmptyString => ""
  end.

Definition trimStart (s : string) : string := trimStart_from 0 s.

(** The same characters, read from the end of the string. *)
Definition space_len_rev (s : string) : nat :=
  match s with
  | String a r =>
      if ascii_space a then 1%nat
      else match r with
      | String b r' =>
          if (code b =? 194) && (code a =? 160) then 2%nat
          else match r' with
          | String c _ =>
              match space_len (String c (String b (String a ""))) with
              | 3%nat => 3%nat
              | _ => 0%nat
              end
          | EmptyString => 0%nat
          end
      | EmptyString => 0%nat
      end
  | EmptyString => 0%nat
  end.

Fixpoint trimEnd_from (skip : nat) (s : string) : string :=
  match skip, s with
  | S n, String _ s' => trimEnd_from n s'
  | S _, EmptyString => ""
  | O, String _ s' =>
      match space_len_rev s with
      | O => s
      | S n => trimEnd_from n s'
      end
  | O, EmptyString => ""
  end.

Definition trim (s : string) : string :=
  rev_string (trimEnd_from 0 (rev_string (trimStart s) "")) "".

(** *** Numbers in strings *)

Definition is_digit (a : ascii) : bool := (48 <=? code a) && (code a <=? 57).

Definition is_hex_digit (a : ascii) : bool :=
  is_digit a
  || ((65 <=? code a) && (code a <=? 70))
  || ((97 <=? code a) && (code a <=? 102)).

Definition digit_value (a : ascii) : Z :=
  let n := code a in
  if n <=? 57 then n - 48 else if n <=? 70 then n - 55 else n - 87.

(** [parseInt(s, radix)] on a string of digits of that radix. *)
Fixpoint parse_digits (radix : Z) (s : string) (acc : Z) : Z :=
  match s with
  | EmptyString => acc
  | String a s' => parse_digits radix s' (acc * radix + digit_value a)
  end.

(** A JavaScript number: an integer or [NaN]. *)
Inductive number : Type :=
| Num (n : Z)
| NaN.

Fixpoint take_digits (s : string) : string :=
  match s with
  | String a s' => if is_digit a then String a (take_digits s') else ""
  | EmptyString => ""
  end.

(** [parseInt(s, 10)] on any string: leading white space, a sign, then the
    longest run of decimal digits; [NaN] when there is none. *)
Definition parseInt10 (s : string) : number :=
  let t := trimStart s in
  let '(neg, u) :=
    match t with
    | String a t' =>
        if code a =? 45 then (true, t')
        else if code a =? 43 then (false, t') else (false, t)
    | EmptyString => (false, t)
    end in
  match take_digits u with
  | EmptyString => NaN
  | ds => let n := parse_digits 10 ds 0 in Num (if neg then - n else n)
  end.

(** *** [String.fromCodePoint] *)

Definition utf8 (n : Z) : string :=
  if n <? 128 then String (chr n) ""
  else if n <? 2048 then
    String (chr (192 + n / 64)) (String (chr (128 + n mod 64)) "")
  else if n <? 65536 then
    String (chr (224 + n / 4096))
      (String (chr (128 + (n / 64) mod 64)) (String (chr (128 + n mod 64)) ""))
  else
    String (chr (240 + n / 262144))
      (String (chr (128 + (n / 4096) mod 64))
         (String (chr (128 + (n / 64) mod 64))
            (String (chr (128 + n mod 64)) ""))).

(** A code point above U+10FFFF makes [String.fromCodePoint] throw a
    [RangeError]. *)
Definition fromCodePoint (n : Z) : completion string :=
  if n <=? 1114111 then Ok (utf8 n)
  else Throw (ErrorObj "RangeError" ("Invalid code point " ++ show n)).

(** *** Regular expressions

    The patterns of the source are sequences of literals and of quantified
    character classes, some of them captured; [run] is the backtracking
    matcher of ECMAScript restricted to those. *)
Inductive cclass : Type :=
| AnyChar                 (* [\s\S] *)
| Digit                   (* \d *)
| HexDigit                (* [0-9a-fA-F] *)
| Not (a : ascii).        (* [^a] *)

Inductive quant : Type :=
| Star        (* c*  *)
| Plus        (* c+  *)
| LazyStar.   (* c*? *)

Inductive item : Type :=
| Lit (s : string)
| Rep (q : quant) (c : cclass) (captured : bool).

Record regex : Type := {
  items : list item;
  ignoreCase : bool
}.

(** The classes of the source hold no letter, so the [i] flag does not
    change them. *)
Definition in_class (c : cclass) (a : ascii) : bool :=
  match c with
  | AnyChar => true
  | Digit => is_digit a
  | HexDigit => is_hex_digit a
  | Not b => negb (Ascii.eqb a b)
  end.

(** Canonicalisation of the [i] flag on ASCII. *)
Definition upper (a : ascii) : ascii :=
  let n := code a in
  if (97 <=? n) && (n <=? 122) then chr (n - 32) else a.

Definition char_eq (ci : bool) (a b : ascii) : bool :=
  if ci then Ascii.eqb (upper a) (upper b) else Ascii.eqb a b.

(** [strip ci l s]: what is left of [s] after the literal [l]. *)
Fixpoint strip (ci : bool) (l s : string) : option string :=
  match l, s with
  | EmptyString, _ => Some s
  | String a l', String b s' => if char_eq ci a b then strip ci l' s' else None
  | String _ _, EmptyString => None
  end.

Section Quantifiers.
Context {R : Type}.
Variable c : cclass.
(** The continuation receives the text the quantifier consumed and the
    rest of the input. *)
Variable k : string -> string -> option R.

Fixpoint greedy (acc s : string) : option R :=
  match s with
  | String a s' =>
      if in_class c a then
        match greedy (acc ++ String a "") s' with
        | Some r => Some r
        | None => k acc s
        end
      else k acc s
  | EmptyString => k acc s
  end.

Fixpoint lazy (acc s : string) : option R :=
  match k acc s with
  | Some r => Some r
  | None =>
      match s with
      | String a s' =>
          if in_class c a then lazy (acc ++ String a "") s' else None
      | EmptyString => None
      end
  end.
End Quantifiers.

(** [run ci p caps s]: match the items [p] at the start of [s]; the result
    is the captures (in order) and the input left after the match. *)
Fixpoint run (ci : bool) (p : list item) (caps : list string) (s : string)
  : option (list string * string) :=
  match p with
  | [] => Some (caps, s)
  | Lit l :: p' =>
      match strip ci l s with
      | Some s' => run ci p' caps s'
      | None => None
      end
  | Rep q c cap :: p' =>
      let k := fun t s' => run ci p' (if cap then (caps ++ [t])%list else caps) s' in
      match q with
      | Star => greedy c k "" s
      | LazyStar => lazy c k "" s
      | Plus =>
          match s with
          | String a s' =>
              if in_class c a then greedy c k (String a "") s' else None
          | EmptyString => None
          end
      end
  end.

(** One match: the captures and the number of characters matched. *)
Definition match_here (re : regex) (s : string) : option (list string * nat) :=
  match run (ignoreCase re) (items re) [] s with
  | Some (caps, rest) => Some (caps, (String.length s - String.length rest)%nat)
  | None => None
  end.

(** [s.match(re)] for a pattern without the [g] flag: the text of the
    leftmost match. *)
Fixpoint first_match (re : regex) (s : string) : option string :=
  match match_here re s with
  | Some (_, n) => Some (slice0 n s)
  | None =>
      match s with
      | String _ s' => first_match re s'
      | EmptyString => None
      end
  end.

(** The values that [while ((m = re.exec(s)) !== null)] iterates over for
    a pattern with the [g] flag, [lastIndex] starting at 0: the captures of
    the successive leftmost matches, each search starting where the match
    before ended.  [skip] counts the characters of the current match still
    to step over.  (A pattern whose match is empty would leave [lastIndex]
    in place; the patterns of the source start with a literal.) *)
Fixpoint exec_all_from (re : regex) (skip : nat) (s : string)
  : list (list string) :=
  match skip, s with
  | S n, String _ s' => exec_all_from re n s'
  | S _, EmptyString => []
  | O, String _ s' =>
      match match_here re s with
      | Some (caps, n) => caps :: exec_all_from re (Nat.pred n) s'
      | None => exec_all_from re 0 s'
      end
  | O, EmptyString => []
  end.

Definition exec_all (re : regex) (s : string) : list (list string) :=
  exec_all_from re 0 s.

(** [s.replace(re, f)] for a pattern with the [g] flag and a replacer
    function that may throw; the replacer receives the captures. *)
Fixpoint replace_from (re : regex) (f : list string -> completion string)
    (skip : nat) (s : string) : completion string :=
  match skip, s with
  | S n, String _ s' => replace_from re f n s'
  | S _, EmptyString => Ok ""
  | O, String a s' =>
      match match_here re s with
      | Some (caps, n) =>
          (r <-? f caps ;;
           t <-? replace_from re f (Nat.pred n) s' ;;
           Ok (r ++ match n with O => String a t | S _ => t end))%completion
      | None =>
          (t <-? replace_from re f 0 s' ;;
           Ok (String a t))%completion
      end
  | O, EmptyString =>
      match match_here re s with
      | Some (caps, _) => f caps
      | None => Ok ""
      end
  end.

Definition replace (re : regex) (f : list string -> completion string)
    (s : string) : completion string :=
  replace_from re f 0 s.

(** [s.replace(/lit/g, by)]. *)
Definition replace_lit (lit by_ : string) (s : string) : completion string :=
  replace {| items := [Lit lit]; ignoreCase := false |} (fun _ => Ok by_) s.

(** *** [Buffer] and base64 *)

Definition b64_alphabet : string :=
  "ABCDEFGHIJKLMNOPQRSTUVWXYZabcdefghijklmnopqrstuvwxyz0123456789+/".

Definition b64_digit (n : N) : ascii :=
  match String.get (N.to_nat n) b64_alphabet with
  | Some a => a
  | None => "="%char
  end.

(** [buf.toString("base64")]: the standard alphabet, padded with [=]. *)
Fixpoint base64 (buf : list byte) : string :=
  match buf with
  | a :: b :: c :: buf' =>
      let n := (Byte.to_N a * 65536 + Byte.to_N b * 256 + Byte.to_N c)%N in
      String (b64_digit (n / 262144))
        (String (b64_digit ((n / 4096) mod 64))
           (String (b64_digit ((n / 64) mod 64))
              (String (b64_digit (n mod 64)) (base64 buf'))))
  | [a; b] =>
      let n := ((Byte.to_N a * 256 + Byte.to_N b) * 4)%N in
      String (b64_digit (n / 4096))
        (String (b64_digit ((n / 64) mod 64))
           (String (b64_digit (n mod 64)) "="))
  | [a] =>
      let n := (Byte.to_N a * 16)%N in
      String (b64_digit (n / 64)) (String (b64_digit (n mod 64)) "==")
  | [] => ""
  end.

(** [Buffer.from(s)]: the UTF-8 bytes of the string. *)
Definition Buffer_from (s : string) : list byte := list_byte_of_string s.

(** [buf.toString("utf-8")] on well-formed UTF-8. *)
Definition Buffer_toString (buf : list byte) : string := string_of_list_byte buf.

(** *** [URLSearchParams]

    A name or a value given to [URLSearchParams] is first made a string of
    scalar values: every surrogate without its partner becomes U+FFFD,
    whose bytes are EF BF BD. *)
Definition is_lone_surrogate (a b c : ascii) : bool :=
  (code a =? 237) && (160 <=? code b) && (code b <=? 191)
  && (128 <=? code c) && (code c <=? 191).

Definition replacement_character : string :=
  String (chr 239) (String (chr 191) (String (chr 189) "")).

Fixpoint to_usv (s : string) : string :=
  match s with
  | EmptyString => ""
  | String a t =>
      match t with
      | String b (String c s') =>
          if is_lone_surrogate a b c then replacement_character ++ to_usv s'
          else String a (to_usv t)
      | _ => String a (to_usv t)
      end
  end.

(** The application/x-www-form-urlencoded serialiser: letters, digits and
    [*-._] stay, a space becomes [+], any other byte becomes [%HH]. *)
Definition hex_digit (n : Z) : ascii :=
  if n <? 10 then chr (48 + n) else chr (55 + n).

Definition urlencode_byte (a : ascii) : string :=
  let n := code a in
  if is_digit a
     || ((65 <=? n) && (n <=? 90)) || ((97 <=? n) && (n <=? 122))
     || (n =? 42) || (n =? 45) || (n =? 46) || (n =? 95)
  then String a ""
  else if n =? 32 then "+"
  else String "%"%char (String (hex_digit (n / 16)) (String (hex_digit (n mod 16)) "")).

Fixpoint percent_encode (s : string) : string :=
  match s with
  | EmptyString => ""
  | String a s' => urlencode_byte a ++ percent_encode s'
  end.

Definition urlencode (s : string) : string := percent_encode (to_usv s).

End Js.

(** ** [decodeHtmlEntities] (src/index.ts, lines 106-115) *)

(** [/&#(\d+);/g] *)
Definition re_decimal_entity : Js.regex :=
  {| Js.items := [Js.Lit "&#"; Js.Rep Js.Plus Js.Digit true; Js.Lit ";"];
     Js.ignoreCase := false |}.

(** [/&#x([0-9a-fA-F]+);/g] *)
Definition re_hex_entity : Js.regex :=
  {| Js.items := [Js.Lit "&#x"; Js.Rep Js.Plus Js.HexDigit true; Js.Lit ";"];
     Js.ignoreCase := false |}.

(** The replacer [(_, code) => String.fromCodePoint(parseInt(code, radix))]. *)
Definition entity_replacer (radix : Z) (caps : list string) : completion string :=
  Js.fromCodePoint (Js.parse_digits radix (nth 0 caps "") 0).

(** The seven [.replace] calls of the source, chained in its order. *)
Definition decodeHtmlEntities (text : string) : completion string :=
  (t1 <-? Js.replace re_decimal_entity (entity_replacer 10) text ;;
   t2 <-? Js.replace re_hex_entity (entity_replacer 16) t1 ;;
   t3 <-? Js.replace_lit "&amp;" "&" t2 ;;
   t4 <-? Js.replace_lit "&lt;" "<" t3 ;;
   t5 <-? Js.replace_lit "&gt;" ">" t4 ;;
   t6 <-? Js.replace_lit "&quot;" Js.dq t5 ;;
   Js.replace_lit "&apos;" "'" t6)%completion.


(** ** The data model (src/index.ts, lines 18-28 and the result types of
    the exported functions) *)

Record MachineConfig : Type := {
  name : string;
  host : string;
  port : Z;
  username : string;
  password : string;
  secure : option bool;
  outputDir : option string;
  saveClipboardMacroUid : option string
}.

(** One entry of [listMacros]: [{ name, uid, group }]. *)
Module Macro.
Record t : Type := {
  name : string;
  uid : option string;
  group : option string
}.
End Macro.

(** The result of [listMacros]. *)
Module Listing.
Record t : Type := {
  success : bool;
  macros : option (list Macro.t);
  message : option string
}.
End Listing.

(** The result of [triggerMacro]. *)
Module Outcome.
Record t : Type := {
  success : bool;
  message : string;
  result : option string
}.
End Outcome.

Inductive clip_type : Type := text | image.

(** The result of [getClipboardResult]. *)
Module Clipboard.
Record t : Type := {
  success : bool;
  message : string;
  type : option clip_type;
  content : option string;
  filePath : option string
}.
End Clipboard.

(** What the [trigger_macro_on_all] handler returns: one text item and
    [isError]. *)
Module Tool.
Record t : Type := {
  text : string;
  isError : bool
}.
End Tool.

(** The identifier of the Save Clipboard to File macro that line 16
    declares; no function of the file reads it. *)
Definition SAVE_CLIPBOARD_MACRO_UID : string :=
  "D03AC8C4-56B0-4903-9682-8B2EC10576FC".

(** ** [getBaseUrl] and [getAuthHeader] (lines 80-92) *)

Definition is_true (b : option bool) : bool :=
  match b with
  | Some true => true
  | _ => false
  end.

Definition getBaseUrl (machine : MachineConfig) : string :=
  let protocol := if is_true (secure machine) then "https" else "http" in
  let port := if is_true (secure machine) then port machine + 1 else port machine in
  protocol ++ "://" ++ host machine ++ ":" ++ Js.show port.

Definition getAuthHeader (machine : MachineConfig) : string :=
  let credentials :=
    Js.base64 (Js.Buffer_from (username machine ++ ":" ++ password machine)) in
  "Basic " ++ credentials.

(** ** The catalog parser (lines 153-178) *)

Definition gt : ascii := ">"%char.
Definition dquote : ascii := ascii_of_nat 34.

(** The patterns below are written in the comments with [Q] for the double
    quote and with blanks between their parts.

    [/ <form  [^>]*  action=Q authenticatedaction\.html Q  [^>]*  >  [\s\S]*?  <\/form> /i] *)
Definition re_protected_form : Js.regex :=
  {| Js.items :=
       [Js.Lit "<form"; Js.Rep Js.Star (Js.Not gt) false;
        Js.Lit ("action=" ++ Js.dq ++ "authenticatedaction.html" ++ Js.dq);
        Js.Rep Js.Star (Js.Not gt) false; Js.Lit ">";
        Js.Rep Js.LazyStar Js.AnyChar false; Js.Lit "</form>"];
     Js.ignoreCase := true |}.

(** [/ <optgroup  [^>]*  label=Q  ( [^Q]* )  Q  [^>]*  >  ( [\s\S]*? )  <\/optgroup> /gi] *)
Definition optgroupRegex : Js.regex :=
  {| Js.items :=
       [Js.Lit "<optgroup"; Js.Rep Js.Star (Js.Not gt) false;
        Js.Lit ("label=" ++ Js.dq); Js.Rep Js.Star (Js.Not dquote) true;
        Js.Lit Js.dq; Js.Rep Js.Star (Js.Not gt) false; Js.Lit ">";
        Js.Rep Js.LazyStar Js.AnyChar true; Js.Lit "</optgroup>"];
     Js.ignoreCase := true |}.

(** [/ <option  [^>]*  label=Q  ( [^Q]* )  Q  [^>]*  value=Q  ( [^Q]* )  Q  [^>]*  > /gi] *)
Definition optionRegex : Js.regex :=
  {| Js.items :=
       [Js.Lit "<option"; Js.Rep Js.Star (Js.Not gt) false;
        Js.Lit ("label=" ++ Js.dq); Js.Rep Js.Star (Js.Not dquote) true;
        Js.Lit Js.dq; Js.Rep Js.Star (Js.Not gt) false;
        Js.Lit ("value=" ++ Js.dq); Js.Rep Js.Star (Js.Not dquote) true;
        Js.Lit Js.dq; Js.Rep Js.Star (Js.Not gt) false; Js.Lit ">"];
     Js.ignoreCase := true |}.

(** A loop [while ((m = re.exec(s)) !== null) body] over the matches [ms],
    the loop state threaded through; a throw in the body leaves the loop. *)
Fixpoint for_each_match {A S : Type} (body : S -> A -> completion S)
    (ms : list A) (s : S) : completion S :=
  match ms with
  | [] => Ok s
  | m :: ms' => (s' <-? body s m ;; for_each_match body ms' s')%completion
  end.

(** The body of the inner loop (lines 172-176): [macros.push] when both the
    decoded name and the uid are truthy. *)
Definition option_body (groupName : string) (macros : list Macro.t)
    (optionMatch : list string) : completion (list Macro.t) :=
  (name <-? decodeHtmlEntities (Js.trim (nth 0 optionMatch "")) ;;
   let uid := nth 1 optionMatch "" in
   if Js.nonempty name && Js.nonempty uid then
     Ok (macros ++ [{| Macro.name := name; Macro.uid := Some uid;
                       Macro.group := Some groupName |}])%list
   else Ok macros)%completion.

(** The body of the outer loop (lines 165-177). *)
Definition optgroup_body (macros : list Macro.t) (groupMatch : list string)
  : completion (list Macro.t) :=
  (groupName <-? decodeHtmlEntities (Js.trim (nth 0 groupMatch "")) ;;
   let groupContent := nth 1 groupMatch "" in
   for_each_match (option_body groupName)
     (Js.exec_all optionRegex groupContent) macros)%completion.

Definition parse_macros (html : string) : completion (list Macro.t) :=
  let protectedSection := Js.first_match re_protected_form html in
  let htmlToParse :=
    match protectedSection with
    | Some section => section
    | None => html
    end in
  for_each_match optgroup_body (Js.exec_all optgroupRegex htmlToParse) [].

(** ** The world the process runs in, and the monad of [async] functions *)

(** A [fetch(url, { method, headers: { Authorization } })] call. *)
Record Request : Type := {
  url : string;
  method : string;
  authorization : string
}.

(** What [fetch] resolves to; [response.text()] may itself reject. *)
Record Response : Type := {
  status : Z;
  body : completion string
}.

(** [response.ok]: the status is in the range 200-299. *)
Definition ok (response : Response) : bool :=
  (200 <=? status response) && (status response <=? 299).

(** Everything outside the process.  The reply of the network may depend
    on how many requests the process made before ([nth_request]); the file
    system is observed at the instant (in ms) of the call. *)
Record World : Type := {
  network : forall (nth_request : nat), Request -> completion Response;
  readable : string -> Z -> bool;
  file : string -> Z -> completion (list byte);
  homedir : string;
  join : string -> string -> string;
  randomUUID : nat -> string
}.

(** What the process has done so far: the clock ([Date.now()]), the
    requests sent, the files read, and the number of UUIDs drawn. *)
Record State : Type := {
  now : Z;
  requests : list Request;
  reads : list string;
  uuids : nat
}.

Definition M (A : Type) : Type := State -> completion A * State.

Definition ret {A} (a : A) : M A := fun st => (Ok a, st).

Definition throw {A} (e : thrown) : M A := fun st => (Throw e, st).

Definition bind {A B} (c : M A) (k : A -> M B) : M B :=
  fun st =>
    match c st with
    | (Ok a, st') => k a st'
    | (Throw e, st') => (Throw e, st')
    end.

Declare Scope async_scope.
Delimit Scope async_scope with async.
Notation "x <- c ;; k" := (bind c (fun x => k))
  (at level 61, c at next level, right associativity) : async_scope.
Notation "c ;; k" := (bind c (fun _ => k))
  (at level 61, right associativity) : async_scope.

(** [try { body } catch (error) { handler }]: the effects of the body up
    to the throw stay. *)
Definition try_catch {A} (body : M A) (handler : thrown -> M A) : M A :=
  fun st =>
    match body st with
    | (Ok a, st') => (Ok a, st')
    | (Throw e, st') => handler e st'
    end.

Definition lift {A} (r : completion A) : M A := fun st => (r, st).

Definition set_now (t : Z) (st : State) : State :=
  {| now := t; requests := requests st; reads := reads st; uuids := uuids st |}.

(** [Promise.all(tasks)]: the tasks start at the same instant, in the
    order of the array; the promise settles when the last one has, with the
    results in the order of the array, or rejects with a rejection of one
    of them (here the first in array order). *)
Fixpoint Promise_all {A} (tasks : list (M A)) : M (list A) :=
  fun st =>
    match tasks with
    | [] => (Ok [], st)
    | task :: tasks' =>
        let '(r, st1) := task st in
        let '(rs, st2) := Promise_all tasks' (set_now (now st) st1) in
        let st' := set_now (Z.max (now st1) (now st2)) st2 in
        match r, rs with
        | Ok a, Ok l => (Ok (a :: l), st')
        | Throw e, _ => (Throw e, st')
        | Ok _, Throw e => (Throw e, st')
        end
    end.

(** [error instanceof Error ? error.message : fallback]. *)
Definition error_message (error : thrown) (fallback : string) : string :=
  match error with
  | ErrorObj _ message => message
  | NonError => fallback
  end.

Section Process.
Variable w : World.

(** [await fetch(...)]: the request is recorded, the world replies. *)
Definition fetch (req : Request) : M Response :=
  fun st =>
    (network w (List.length (requests st)) req,
     {| now := now st; requests := (requests st ++ [req])%list;
        reads := reads st; uuids := uuids st |}).

(** [await response.text()]. *)
Definition response_text (response : Response) : M string :=
  lift (body response).

(** [await readFile(path)]. *)
Definition readFile (path : string) : M (list byte) :=
  fun st =>
    (file w path (now st),
     {| now := now st; requests := requests st;
        reads := (reads st ++ [path])%list; uuids := uuids st |}).

(** [await access(path, constants.R_OK)] resolves or rejects. *)
Definition access (path : string) : M unit :=
  fun st =>
    (if readable w path (now st) then Ok tt
     else Throw (ErrorObj "Error" "EACCES"), st).

(** [await new Promise((resolve) => setTimeout(resolve, ms))]. *)
Definition sleep (ms : Z) : M unit :=
  fun st => (Ok tt, set_now (now st + ms) st).

Definition Date_now : M Z := fun st => (Ok (now st), st).

Definition crypto_randomUUID : M string :=
  fun st =>
    (Ok (randomUUID w (uuids st)),
     {| now := now st; requests := requests st; reads := reads st;
        uuids := S (uuids st) |}).

(** ** [listMacros] (lines 118-192) *)

Definition listMacros (machine : MachineConfig) : M Listing.t :=
  let httpsPort := port machine + 1 in
  let url := "https://" ++ host machine ++ ":" ++ Js.show httpsPort
             ++ "/authenticated.html" in
  try_catch
    (response <- fetch {| url := url; method := "GET";
                          authorization := getAuthHeader machine |} ;;
     if negb (ok response) then
       if status response =? 401 then
         ret {| Listing.success := false; Listing.macros := None;
                Listing.message :=
                  Some ("Authentication failed for " ++ name machine
                        ++ ". Check username/password.") |}
       else
         ret {| Listing.success := false; Listing.macros := None;
                Listing.message :=
                  Some ("Failed to fetch macros from " ++ name machine
                        ++ ": HTTP " ++ Js.show (status response)) |}
     else
       html <- response_text response ;;
       macros <- lift (parse_macros html) ;;
       ret {| Listing.success := true; Listing.macros := Some macros;
              Listing.message := None |})%async
    (fun error =>
       let message := error_message error "Unknown error occurred" in
       ret {| Listing.success := false; Listing.macros := None;
              Listing.message :=
                Some ("Failed to connect to " ++ name machine ++ " ("
                      ++ host machine ++ ":" ++ Js.show (port machine)
                      ++ "): " ++ message) |}).

(** ** [triggerMacro] (lines 195-248) *)

(** [new URLSearchParams({ macro })], [params.set("value", value)] when
    [value] is truthy, then [params.toString()]. *)
Definition search_params (macro : string) (value : option string) : string :=
  "macro=" ++ Js.urlencode macro
  ++ match Js.truthy value with
     | Some v => "&value=" ++ Js.urlencode v
     | None => ""
     end.

Definition triggerMacro (machine : MachineConfig) (macro : string)
    (value : option string) : M Outcome.t :=
  let httpsPort := port machine + 1 in
  let params := search_params macro value in
  let url := "https://" ++ host machine ++ ":" ++ Js.show httpsPort
             ++ "/authenticatedaction.html?" ++ params in
  try_catch
    (response <- fetch {| url := url; method := "GET";
                          authorization := getAuthHeader machine |} ;;
     if ok response then
       responseBody <- response_text response ;;
       ret {| Outcome.success := true;
              Outcome.message :=
                "Macro " ++ Js.dq ++ macro ++ Js.dq
                ++ " triggered successfully on " ++ name machine;
              Outcome.result := Js.truthy (Some responseBody) |}
     else if status response =? 401 then
       ret {| Outcome.success := false;
              Outcome.message :=
                "Authentication failed for " ++ name machine
                ++ ". Check username/password.";
              Outcome.result := None |}
     else if status response =? 403 then
       ret {| Outcome.success := false;
              Outcome.message :=
                "Access denied for " ++ name machine
                ++ ". The macro may not exist or may not be enabled.";
              Outcome.result := None |}
     else
       ret {| Outcome.success := false;
              Outcome.message :=
                "Failed to trigger macro on " ++ name machine ++ ": HTTP "
                ++ Js.show (status response);
              Outcome.result := None |})%async
    (fun error =>
       let message := error_message error "Unknown error occurred" in
       ret {| Outcome.success := false;
              Outcome.message :=
                "Failed to connect to " ++ name machine ++ " ("
                ++ host machine ++ ":" ++ Js.show (port machine)
                ++ "): " ++ message;
              Outcome.result := None |}).

(** ** The [trigger_macro_on_all] tool (lines 576-608) *)

(** [Promise.all(machines.map((m) => triggerMacro(m, macro, value)))]. *)
Definition triggerOnAll (machines : list MachineConfig) (macro : string)
    (value : option string) : M (list Outcome.t) :=
  Promise_all (map (fun m => triggerMacro m macro value) machines).

(** [results.map((r, i) => `${machines[i].name}: ${r.message}`)]; reading
    [.name] of a missing [machines[i]] would throw a [TypeError]. *)
Fixpoint summary_lines (machines : list MachineConfig) (i : nat)
    (results : list Outcome.t) : completion (list string) :=
  match results with
  | [] => Ok []
  | r :: results' =>
      match nth_error machines i with
      | Some m =>
          (ls <-? summary_lines machines (S i) results' ;;
           Ok ((name m ++ ": " ++ Outcome.message r) :: ls))%completion
      | None =>
          Throw (ErrorObj "TypeError"
                   "Cannot read properties of undefined (reading 'name')")
      end
  end.

Definition LF : string := String (ascii_of_nat 10) "".

Definition trigger_macro_on_all (machines : list MachineConfig)
    (macro : string) (value : option string) : M Tool.t :=
  if (List.length machines =? 0)%nat then
    ret {| Tool.text := "No machines configured."; Tool.isError := true |}
  else
    (results <- triggerOnAll machines macro value ;;
     lines <- lift (summary_lines machines 0 results) ;;
     let summary := String.concat LF lines in
     let allSuccess := forallb Outcome.success results in
     ret {| Tool.text := summary; Tool.isError := negb allSuccess |})%async.

(** ** [getOutputDir] and [waitForFile] (lines 278-296) *)

Definition getOutputDir (machine : MachineConfig) : string :=
  match Js.truthy (outputDir machine) with
  | Some dir => dir
  | None => join w (homedir w) "Downloads"
  end.

Definition pollInterval : Z := 100.

(** The [while] loop of [waitForFile], entered at most [fuel] times;
    [None] when the fuel is spent before the loop ends. *)
Fixpoint waitForFile_loop (fuel : nat) (filePath : string)
    (timeoutMs startTime : Z) : M (option bool) :=
  match fuel with
  | O => ret None
  | S fuel' =>
      (t <- Date_now ;;
       if t - startTime <? timeoutMs then
         found <- try_catch (access filePath ;; ret true)
                    (fun _ => sleep pollInterval ;; ret false) ;;
         if found : bool then ret (Some true)
         else waitForFile_loop fuel' filePath timeoutMs startTime
       else ret (Some false))%async
  end.

(** Every turn of the loop that does not return moves the clock by
    [pollInterval], so the loop is entered at most [timeoutMs / 100 + 1]
    times; [waitForFile_fuel] is never spent ([waitForFile_loop_ends]). *)
Definition waitForFile_fuel (timeoutMs : Z) : nat := S (Z.to_nat timeoutMs).

(** [waitForFile(filePath, timeoutMs)]; the source's default of 5000 for
    [timeoutMs] is not used by any caller. *)
Definition waitForFile (filePath : string) (timeoutMs : Z) : M bool :=
  (startTime <- Date_now ;;
   r <- waitForFile_loop (waitForFile_fuel timeoutMs) filePath timeoutMs
          startTime ;;
   ret match r with
       | Some found => found
       | None => false
       end)%async.

(** [Promise.all([a, b])] on two tasks: both start at the same instant,
    the join settles when both have. *)
Definition Promise_all2 {A B} (a : M A) (b : M B) : M (A * B) :=
  fun st =>
    let '(ra, st1) := a st in
    let '(rb, st2) := b (set_now (now st) st1) in
    let st' := set_now (Z.max (now st1) (now st2)) st2 in
    match ra, rb with
    | Ok x, Ok y => (Ok (x, y), st')
    | Throw e, _ => (Throw e, st')
    | Ok _, Throw e => (Throw e, st')
    end.

(** ** [getClipboardResult] (lines 299-395) *)

Definition quoted (s : string) : string := Js.dq ++ s ++ Js.dq.

Definition not_configured_message (machine : MachineConfig) : string :=
  "Clipboard capture not configured for machine " ++ quoted (name machine)
  ++ ".

To enable clipboard capture:
1. Import the " ++ quoted "Save Clipboard to File"
  ++ " macro from the keyboard-maestro-mcp package:
   - Find 'save-clipboard-to-file.kmmacros' in the package directory
   - Double-click to import into Keyboard Maestro on the target machine

2. Get the macro's UUID:
   - Use list_macros to find " ++ quoted "Save Clipboard to File"
  ++ " in the " ++ quoted "Keyboard Maestro MCP" ++ " group
   - Copy its 'uid' value

3. Add to your machine config:
   " ++ quoted "saveClipboardMacroUid" ++ ": " ++ quoted "<the-uuid-you-copied>"
  ++ "

4. Also configure outputDir (path where clipboard files are saved):
   " ++ quoted "outputDir" ++ ": " ++ quoted "/path/to/shared/folder" ++ "
   (Use a folder accessible from where this MCP server runs, e.g., iCloud Drive for cross-machine access)".

Definition clip_failure (message : string) : Clipboard.t :=
  {| Clipboard.success := false; Clipboard.message := message;
     Clipboard.type := None; Clipboard.content := None;
     Clipboard.filePath := None |}.

Definition getClipboardResult (machine : MachineConfig) : M Clipboard.t :=
  match Js.truthy (saveClipboardMacroUid machine) with
  | None => ret (clip_failure (not_configured_message machine))
  | Some macroUid =>
      (uuid <- crypto_randomUUID ;;
       let requestId := Js.slice0 8 uuid in
       let outputDir := getOutputDir machine in
       triggerResult <- triggerMacro machine macroUid (Some requestId) ;;
       if negb (Outcome.success triggerResult) then
         ret (clip_failure ("Failed to trigger Save Clipboard macro: "
                            ++ Outcome.message triggerResult))
       else
         let textPath := join w outputDir ("clipsav_" ++ requestId ++ ".txt") in
         let imagePath := join w outputDir ("clipsav_" ++ requestId ++ ".png") in
         exist <- Promise_all2 (waitForFile textPath 3000)
                    (waitForFile imagePath 3000) ;;
         let '(textExists, imageExists) := exist in
         if imageExists : bool then
           try_catch
             (imageData <- readFile imagePath ;;
              ret {| Clipboard.success := true;
                     Clipboard.message := "Clipboard image retrieved successfully";
                     Clipboard.type := Some image;
                     Clipboard.content := Some (Js.base64 imageData);
                     Clipboard.filePath := Some imagePath |})
             (fun error =>
                ret (clip_failure ("Failed to read image file: "
                                   ++ error_message error "Unknown error")))
         else if textExists : bool then
           try_catch
             (textData <- readFile textPath ;;
              ret {| Clipboard.success := true;
                     Clipboard.message := "Clipboard text retrieved successfully";
                     Clipboard.type := Some text;
                     Clipboard.content := Some (Js.Buffer_toString textData);
                     Clipboard.filePath := Some textPath |})
             (fun error =>
                ret (clip_failure ("Failed to read text file: "
                                   ++ error_message error "Unknown error")))
         else
           ret (clip_failure
                  ("Clipboard save file not found. Expected: " ++ textPath
                   ++ " or " ++ imagePath ++ ". Make sure the "
                   ++ quoted "Save Clipboard to File"
                   ++ " macro is installed and the outputDir is configured correctly.")))%async
  end.

End Process.

(** ** The machine registry: [getMachines] (lines 31-77) *)

(** A JavaScript value as [JSON.parse] and the environment produce them.
    Numbers are the integers (ports) and [NaN]. *)
#[local] Set Warnings "-register-all".
Inductive jsval : Type :=
| Undefined
| Null
| Bool (b : bool)
| Number (n : Js.number)
| Str (s : string)
| Arr (elements : list jsval)
| Obj (properties : list (string * jsval)).

Definition truthy_val (v : jsval) : bool :=
  match v with
  | Undefined | Null => false
  | Bool b => b
  | Number (Js.Num n) => negb (n =? 0)
  | Number Js.NaN => false
  | Str s => Js.nonempty s
  | Arr _ | Obj _ => true
  end.

(** [v || d] *)
Definition or_else (v d : jsval) : jsval := if truthy_val v then v else d.

(** [v ?? d] *)
Definition nullish (v d : jsval) : jsval :=
  match v with
  | Undefined | Null => d
  | _ => v
  end.

Fixpoint lookup (key : string) (properties : list (string * jsval)) : jsval :=
  match properties with
  | [] => Undefined
  | (k, v) :: rest => if String.eqb k key then v else lookup key rest
  end.

(** [m.key] for the keys [getMachines] reads, none of which is a property
    of a prototype: a [TypeError] on [null] and [undefined], the own
    property on an object, [undefined] on any other value. *)
Definition prop (m : jsval) (key : string) : completion jsval :=
  match m with
  | Undefined | Null =>
      Throw (ErrorObj "TypeError"
               ("Cannot read properties of null (reading '" ++ key ++ "')"))
  | Obj properties => Ok (lookup key properties)
  | _ => Ok Undefined
  end.

(** A machine as [getMachines] builds it.  The annotation [MachineConfig]
    of the source is not checked at run time: each field holds whatever
    value the input had. *)
Module Raw.
Record t : Type := {
  name : jsval;
  host : jsval;
  port : jsval;
  username : jsval;
  password : jsval;
  secure : jsval;
  outputDir : jsval;
  saveClipboardMacroUid : jsval
}.
End Raw.

(** [process.env], the variables [getMachines] reads. *)
Record ProcessEnv : Type := {
  KM_MACHINES : option string;
  KM_HOST : option string;
  KM_PORT : option string;
  KM_USERNAME : option string;
  KM_PASSWORD : option string;
  KM_SECURE : option string
}.

(** A line of [console.error]: the text and the error printed after it. *)
Definition diagnostic : Type := (string * option thrown)%type.

(** The arrow function of [parsed.map] (lines 63-72). *)
Definition machine_of (m : jsval) : completion Raw.t :=
  (name <-? prop m "name" ;;
   host <-? prop m "host" ;;
   port <-? prop m "port" ;;
   username <-? prop m "username" ;;
   password <-? prop m "password" ;;
   secure <-? prop m "secure" ;;
   outputDir <-? prop m "outputDir" ;;
   saveClipboardMacroUid <-? prop m "saveClipboardMacroUid" ;;
   Ok {| Raw.name := or_else name (Str "unnamed");
         Raw.host := host;
         Raw.port := or_else port (Number (Js.Num 4490));
         Raw.username := username;
         Raw.password := password;
         Raw.secure := nullish secure (Bool false);
         Raw.outputDir := outputDir;
         Raw.saveClipboardMacroUid := saveClipboardMacroUid |})%completion.

(** [array.map(f)] with a callback that may throw. *)
Fixpoint map_throwing {A B} (f : A -> completion B) (l : list A)
  : completion (list B) :=
  match l with
  | [] => Ok []
  | a :: l' =>
      (b <-? f a ;; bs <-? map_throwing f l' ;; Ok (b :: bs))%completion
  end.

Section Registry.
(** [JSON.parse]: the value, or the [SyntaxError] it throws. *)
Variable JSON_parse : string -> completion jsval.

(** The result is the returned array and what was written with
    [console.error]. *)
Definition getMachines (env : ProcessEnv) : list Raw.t * list diagnostic :=
  match Js.truthy (KM_MACHINES env) with
  | None =>
      match Js.truthy (KM_HOST env), Js.truthy (KM_USERNAME env),
            Js.truthy (KM_PASSWORD env) with
      | Some host, Some username, Some password =>
          ([{| Raw.name := Str "default";
               Raw.host := Str host;
               Raw.port :=
                 match Js.truthy (KM_PORT env) with
                 | Some port => Number (Js.parseInt10 port)
                 | None => Number (Js.Num 4490)
                 end;
               Raw.username := Str username;
               Raw.password := Str password;
               Raw.secure :=
                 Bool match KM_SECURE env with
                      | Some s => String.eqb s "true"
                      | None => false
                      end;
               Raw.outputDir := Undefined;
               Raw.saveClipboardMacroUid := Undefined |}], [])
      | _, _, _ => ([], [])
      end
  | Some machinesEnv =>
      match JSON_parse machinesEnv with
      | Throw e => ([], [("Failed to parse KM_MACHINES:", Some e)])
      | Ok (Arr parsed) =>
          match map_throwing machine_of parsed with
          | Ok machines => (machines, [])
          | Throw e => ([], [("Failed to parse KM_MACHINES:", Some e)])
          end
      | Ok _ => ([], [("KM_MACHINES must be a JSON array", None)])
      end
  end.
End Registry.

(** ** [findMachine], [fetchUrl] and the tool handlers of [main]
    (src/index.ts, lines 95-103, 251-275, 503-561, 612-798) *)

(** One item of the [content] array of a tool result.  The fields that the
    source fills with [result.content!] hold whatever [content] held. *)
Inductive content_item : Type :=
| TextContent (text : option string)
| ImageContent (data : option string) (mimeType : string).

(** What [get_clipboard_result] and [trigger_and_capture] return;
    [isError] is absent from their successful results. *)
Module ToolResult.
Record t : Type := {
  content : list content_item;
  isError : option bool
}.
End ToolResult.

(** What [fetchUrl] returns. *)
Module Fetched.
Record t : Type := {
  status : Z;
  headers : list (string * string);
  body : string
}.
End Fetched.

Definition tool_error (message : string) : ToolResult.t :=
  {| ToolResult.content := [TextContent (Some message)];
     ToolResult.isError := Some true |}.

(** The text of a handler that found no machine (lines 455-463 and its
    three copies). *)
Definition not_found_text (machines : list MachineConfig)
    (machineName : option string) : string :=
  let availableMachines := String.concat ", " (map name machines) in
  match Js.truthy machineName with
  | Some n =>
      "Machine " ++ quoted n ++ " not found. Available machines: "
      ++ (if Js.nonempty availableMachines then availableMachines
          else "none configured")
  | None => "No machines configured. Set KM_MACHINES environment variable."
  end.

Section Tools.
Variable w : World.
(** [String.prototype.toLowerCase]. *)
Variable toLowerCase : string -> string.
(** The entries of [response.headers], which [fetchUrl] copies. *)
Variable headers_of : Response -> list (string * string).

Definition findMachine (machines : list MachineConfig)
    (machineName : option string) : option MachineConfig :=
  match Js.truthy machineName with
  | None => nth_error machines 0
  | Some n =>
      find (fun m => String.eqb (toLowerCase (name m)) (toLowerCase n)) machines
  end.

(** [fetchUrl] has no [try]: what [fetch] or [response.text()] throw
    leaves the function. *)
Definition fetchUrl (machine : MachineConfig) (path : string) : M Fetched.t :=
  let baseUrl := getBaseUrl machine in
  let url := if String.prefix "http" path then path else baseUrl ++ path in
  (response <- fetch w {| url := url; method := "GET";
                          authorization := getAuthHeader machine |} ;;
   let headers := headers_of response in
   body <- response_text response ;;
   ret {| Fetched.status := status response; Fetched.headers := headers;
          Fetched.body := body |})%async.

(** The [trigger_macro] tool (lines 527-560). *)
Definition trigger_macro (machines : list MachineConfig) (macro : string)
    (value machineName : option string) : M Tool.t :=
  match findMachine machines machineName with
  | None =>
      ret {| Tool.text := not_found_text machines machineName;
             Tool.isError := true |}
  | Some machine =>
      (result <- triggerMacro w machine macro value ;;
       let responseText :=
         match Js.truthy (Outcome.result result) with
         | Some r => Outcome.message result ++ LF ++ LF ++ "Result:" ++ LF ++ r
         | None => Outcome.message result
         end in
       ret {| Tool.text := responseText;
              Tool.isError := negb (Outcome.success result) |})%async
  end.

Definition is_image (t : option clip_type) : bool :=
  match t with
  | Some image => true
  | _ => false
  end.

(** [`${x}`] for a string that may be [undefined]. *)
Definition show_optional (x : option string) : string :=
  match x with
  | Some s => s
  | None => "undefined"
  end.

(** The [get_clipboard_result] tool (lines 630-690). *)
Definition get_clipboard_result (machines : list MachineConfig)
    (machineName : option string) : M ToolResult.t :=
  match findMachine machines machineName with
  | None => ret (tool_error (not_found_text machines machineName))
  | Some machine =>
      (result <- getClipboardResult w machine ;;
       if negb (Clipboard.success result) then
         ret (tool_error (Clipboard.message result))
       else if is_image (Clipboard.type result) then
         ret {| ToolResult.content :=
                  [ImageContent (Clipboard.content result) "image/png";
                   TextContent
                     (Some ("Image saved to: "
                            ++ show_optional (Clipboard.filePath result)))];
                ToolResult.isError := None |}
       else
         ret {| ToolResult.content :=
                  [TextContent (Clipboard.content result);
                   TextContent
                     (Some (LF ++ "---" ++ LF ++ "Saved to: "
                            ++ show_optional (Clipboard.filePath result)))];
                ToolResult.isError := None |})%async
  end.

(** [new Promise((resolve) => setTimeout(resolve, ms))], awaited.  The
    timer of Node takes a delay below 1 or above 2147483647 for 1. *)
Definition TIMEOUT_MAX : Z := 2147483647.

Definition timer_delay (ms : Z) : Z :=
  if (1 <=? ms) && (ms <=? TIMEOUT_MAX) then ms else 1.

Definition setTimeout (ms : Z) : M unit := sleep (timer_delay ms).

(** The [trigger_and_capture] tool (lines 721-797). *)
Definition trigger_and_capture (machines : list MachineConfig)
    (macro : string) (value machineName : option string) (delay : option Z)
  : M ToolResult.t :=
  match findMachine machines machineName with
  | None => ret (tool_error (not_found_text machines machineName))
  | Some machine =>
      (triggerResult <- triggerMacro w machine macro value ;;
       if negb (Outcome.success triggerResult) then
         ret (tool_error ("Failed to trigger macro: "
                          ++ Outcome.message triggerResult))
       else
         let waitTime := match delay with Some d => d | None => 500 end in
         setTimeout waitTime ;;
         clipResult <- getClipboardResult w machine ;;
         if negb (Clipboard.success clipResult) then
           ret (tool_error
                  ("Macro triggered successfully, but clipboard capture failed: "
                   ++ Clipboard.message clipResult))
         else if is_image (Clipboard.type clipResult) then
           ret {| ToolResult.content :=
                    [TextContent
                       (Some ("Macro " ++ quoted macro
                              ++ " executed. Clipboard contained an image:"));
                     ImageContent (Clipboard.content clipResult) "image/png"];
                  ToolResult.isError := None |}
         else
           ret {| ToolResult.content :=
                    [TextContent
                       (Some ("Macro " ++ quoted macro
                              ++ " executed. Clipboard contents:" ++ LF ++ LF
                              ++ show_optional (Clipboard.content clipResult)))];
                  ToolResult.isError := None |})%async
  end.

End Tools.

(** ** The connection test of the configuration manager
    (config-manager, lines 27-110), which calls [listMacros] *)

(** What [checkMacroGroupExists] returns; [exists_] is the field [exists]
    of the source. *)
Module GroupCheck.
Record t : Type := {
  exists_ : bool;
  hasClipboardMacro : bool;
  clipboardMacroUid : option string
}.
End GroupCheck.

(** The argument of [testMachineConnection]. *)
Module Connection.
Record t : Type := {
  host : string;
  port : Z;
  username : string;
  password : string;
  secure : option bool
}.
End Connection.

(** What [testMachineConnection] returns. *)
Module TestResult.
Record t : Type := {
  success : bool;
  message : string;
  macroCount : option nat;
  hasMacroGroup : option bool
}.
End TestResult.

Definition no_group : GroupCheck.t :=
  {| GroupCheck.exists_ := false; GroupCheck.hasClipboardMacro := false;
     GroupCheck.clipboardMacroUid := None |}.

(** [m.group === s] for a group that may be [undefined]. *)
Definition group_is (s : string) (m : Macro.t) : bool :=
  match Macro.group m with
  | Some g => String.eqb g s
  | None => false
  end.

Definition is_some {A} (x : option A) : bool :=
  match x with
  | Some _ => true
  | None => false
  end.

(** [result.macros?.length || 0]. *)
Definition macro_count (macros : option (list Macro.t)) : nat :=
  match macros with
  | Some l => List.length l
  | None => 0%nat
  end.

Section ConfigManager.
Variable w : World.

Definition checkMacroGroupExists (machine : MachineConfig) : M GroupCheck.t :=
  try_catch
    (result <- listMacros w machine ;;
     match Listing.macros result with
     | Some macros =>
         if negb (Listing.success result) then ret no_group
         else
           let mcpMacros := filter (group_is "Keyboard Maestro MCP") macros in
           let clipboardMacro :=
             find (fun m => String.eqb (Macro.name m) "Save Clipboard to File")
               mcpMacros in
           ret {| GroupCheck.exists_ := (0 <? List.length mcpMacros)%nat;
                  GroupCheck.hasClipboardMacro := is_some clipboardMacro;
                  GroupCheck.clipboardMacroUid :=
                    match clipboardMacro with
                    | Some m => Macro.uid m
                    | None => None
                    end |}
     | None => ret no_group
     end)%async
    (fun _ => ret no_group).

Definition testMachineConnection (config : Connection.t) : M TestResult.t :=
  let machine :=
    {| name := "test";
       host := Connection.host config;
       port := Connection.port config;
       username := Connection.username config;
       password := Connection.password config;
       secure := Some match Connection.secure config with
                      | Some b => b
                      | None => false
                      end;
       outputDir := None;
       saveClipboardMacroUid := None |} in
  try_catch
    (result <- listMacros w machine ;;
     if Listing.success result then
       macroGroupCheck <- checkMacroGroupExists machine ;;
       ret {| TestResult.success := true;
              TestResult.message :=
                "Connected successfully! Found "
                ++ Js.show (Z.of_nat (macro_count (Listing.macros result)))
                ++ " macros.";
              TestResult.macroCount :=
                Some (macro_count (Listing.macros result));
              TestResult.hasMacroGroup :=
                Some (GroupCheck.exists_ macroGroupCheck
                      && GroupCheck.hasClipboardMacro macroGroupCheck) |}
     else
       ret {| TestResult.success := false;
              TestResult.message :=
                match Js.truthy (Listing.message result) with
                | Some m => m
                | None => "Connection failed"
                end;
              TestResult.macroCount := None;
              TestResult.hasMacroGroup := None |})%async
    (fun error =>
       ret {| TestResult.success := false;
              TestResult.message := error_message error "Unknown error";
              TestResult.macroCount := None;
              TestResult.hasMacroGroup := None |}).

End ConfigManager.


(** ** The macro file of the setup wizard (src/macros-template.ts) *)

(** [GetSubstitution] of ECMAScript for a pattern without capture groups:
    in the replacement text, [$$] stands for a dollar, [$&] for the
    matched text, [$`] for the text before the match and [$'] for the text
    after it; any other dollar stands for itself. *)
Fixpoint GetSubstitution (matched before after template : string) : string :=
  match template with
  | EmptyString => ""
  | String a t =>
      if Ascii.eqb a "$" then
        match t with
        | String c t' =>
            if Ascii.eqb c "$" then
              String "$" (GetSubstitution matched before after t')
            else if Ascii.eqb c "&" then
              matched ++ GetSubstitution matched before after t'
            else if Ascii.eqb c "`" then
              before ++ GetSubstitution matched before after t'
            else if Ascii.eqb c "'" then
              after ++ GetSubstitution matched before after t'
            else String a (GetSubstitution matched before after t)
        | EmptyString => String a ""
        end
      else String a (GetSubstitution matched before after t)
  end.

(** [s.slice(n)]. *)
Fixpoint slice_from (n : nat) (s : string) : string :=
  match n, s with
  | S n', String _ s' => slice_from n' s'
  | _, _ => s
  end.

(** [s.replace(re, template)] for a pattern with the [g] flag and a
    replacement text; [before] is the text that precedes [s] in the
    string, [skip] counts the characters of the current match still to
    step over. *)
Fixpoint replace_template_from (re : Js.regex) (template before : string)
    (skip : nat) (s : string) : string :=
  match skip, s with
  | S n, String a s' =>
      replace_template_from re template (before ++ String a "") n s'
  | S _, EmptyString => ""
  | O, String a s' =>
      match Js.match_here re s with
      | Some (_, n) =>
          GetSubstitution (Js.slice0 n s) before (slice_from n s) template
          ++ match n with
             | O => String a (replace_template_from re template
                                (before ++ String a "") 0 s')
             | S n' => replace_template_from re template
                         (before ++ String a "") n' s'
             end
      | None =>
          String a (replace_template_from re template (before ++ String a "")
                      0 s')
      end
  | O, EmptyString =>
      match Js.match_here re s with
      | Some _ => GetSubstitution "" before "" template
      | None => ""
      end
  end.

Definition replace_template (re : Js.regex) (template s : string) : string :=
  replace_template_from re template "" 0 s.

(** [/lit/g] *)
Definition re_literal (lit : string) : Js.regex :=
  {| Js.items := [Js.Lit lit]; Js.ignoreCase := false |}.

(** [s.replace(pattern, template)] for a pattern that is a string: the
    first occurrence only. *)
Fixpoint replace_first_from (pattern template before s : string) : string :=
  match Js.strip false pattern s with
  | Some rest => GetSubstitution pattern before rest template ++ rest
  | None =>
      match s with
      | String a s' =>
          String a (replace_first_from pattern template
                      (before ++ String a "") s')
      | EmptyString => ""
      end
  end.

Definition replace_first (pattern template s : string) : string :=
  replace_first_from pattern template "" s.

(** [s.includes(sub)]. *)
Fixpoint includes (sub s : string) : bool :=
  String.prefix sub s
  || match s with
     | String _ s' => includes sub s'
     | EmptyString => false
     end.

(** [MACROS_TEMPLATE] (lines 12-211). *)
Definition MACROS_TEMPLATE : string :=
  "<?xml version=" ++ Js.dq ++ "1.0" ++ Js.dq ++ " encoding=" ++ Js.dq ++ "UTF-8" ++ Js.dq ++ "?>
<!DOCTYPE plist PUBLIC " ++ Js.dq ++ "-//Apple//DTD PLIST 1.0//EN" ++ Js.dq ++ " " ++ Js.dq ++ "http://www.apple.com/DTDs/PropertyList-1.0.dtd" ++ Js.dq ++ ">
<plist version=" ++ Js.dq ++ "1.0" ++ Js.dq ++ ">
<array>
	<dict>
		<key>Activate</key>
		<string>Normal</string>
		<key>CreationDate</key>
		<real>791771012.08661604</real>
		<key>Macros</key>
		<array>
			<dict>
				<key>Actions</key>
				<array>
					<dict>
						<key>ActionUID</key>
						<integer>448</integer>
						<key>MacroActionType</key>
						<string>SetVariableToText</string>
						<key>Text</key>
						<string>{{MCP_FILE_PATH}}</string>
						<key>Variable</key>
						<string>KeyboardMaestroMcpPath</string>
					</dict>
				</array>
				<key>CreationDate</key>
				<real>791779850.15110004</real>
				<key>ModificationDate</key>
				<real>791780718.13920605</real>
				<key>Name</key>
				<string>Set Keyboard Maestro MCP File Path</string>
				<key>Triggers</key>
				<array/>
				<key>UID</key>
				<string>885462FF-0DAB-4D81-9967-893F758FEEE0</string>
			</dict>
		</array>
		<key>Name</key>
		<string>Keyboard Maestro MCP</string>
		<key>ToggleMacroUID</key>
		<string>53F4CABE-48F0-44BE-B5B0-810C3A3053B5</string>
		<key>UID</key>
		<string>3D4CF916-0F87-4FA6-AA91-844156A8EACD</string>
	</dict>
	<dict>
		<key>Activate</key>
		<string>Normal</string>
		<key>CreationDate</key>
		<real>791771012.08661604</real>
		<key>Macros</key>
		<array>
			<dict>
				<key>Actions</key>
				<array>
					<dict>
						<key>ActionUID</key>
						<integer>449</integer>
						<key>Asynchronously</key>
						<false/>
						<key>MacroActionType</key>
						<string>ExecuteMacro</string>
						<key>MacroUID</key>
						<string>885462FF-0DAB-4D81-9967-893F758FEEE0</string>
						<key>TimeOutAbortsMacro</key>
						<true/>
						<key>UseParameter</key>
						<false/>
					</dict>
					<dict>
						<key>ActionUID</key>
						<integer>450</integer>
						<key>Conditions</key>
						<dict>
							<key>ConditionList</key>
							<array>
								<dict>
									<key>ConditionType</key>
									<string>Script</string>
									<key>IncludedVariables</key>
									<array/>
									<key>Path</key>
									<string></string>
									<key>ScriptConditionSourceType</key>
									<string>AppleScriptText</string>
									<key>ScriptConditionType</key>
									<string>ReturnsSuccess</string>
									<key>ScriptResult</key>
									<string></string>
									<key>ScriptTerminationStatus</key>
									<integer>0</integer>
									<key>ScriptText</key>
									<string>tell application " ++ Js.dq ++ "Keyboard Maestro Engine" ++ Js.dq ++ "
	set thePath to getvariable " ++ Js.dq ++ "KeyboardMaestroMcpPath" ++ Js.dq ++ "
end tell

tell application " ++ Js.dq ++ "System Events" ++ Js.dq ++ "
	if exists folder thePath then
		return " ++ Js.dq ++ "true" ++ Js.dq ++ "
	else
		return " ++ Js.dq ++ "false" ++ Js.dq ++ "
	end if
end tell</string>
									<key>UseModernSyntax</key>
									<false/>
								</dict>
							</array>
							<key>ConditionListMatch</key>
							<string>All</string>
						</dict>
						<key>MacroActionType</key>
						<string>Assert</string>
					</dict>
					<dict>
						<key>ActionUID</key>
						<integer>439</integer>
						<key>Conditions</key>
						<dict>
							<key>ConditionList</key>
							<array>
								<dict>
									<key>ClipboardConditionType</key>
									<string>HasImage</string>
									<key>ClipboardText</key>
									<string></string>
									<key>ConditionType</key>
									<string>Clipboard</string>
								</dict>
							</array>
							<key>ConditionListMatch</key>
							<string>All</string>
						</dict>
						<key>ElseActions</key>
						<array>
							<dict>
								<key>ActionUID</key>
								<integer>441</integer>
								<key>Append</key>
								<false/>
								<key>Destination</key>
								<string>%Variable%KeyboardMaestroMcpPath%/clipsav_%TriggerValue%.txt</string>
								<key>Encoding</key>
								<string>UTF8</string>
								<key>Format</key>
								<string>PlainText</string>
								<key>Format2</key>
								<string>PlainText</string>
								<key>MacroActionType</key>
								<string>WriteFile</string>
								<key>Source</key>
								<string>Clipboard</string>
							</dict>
						</array>
						<key>MacroActionType</key>
						<string>IfThenElse</string>
						<key>ThenActions</key>
						<array>
							<dict>
								<key>ActionUID</key>
								<integer>440</integer>
								<key>Append</key>
								<false/>
								<key>Destination</key>
								<string>%Variable%KeyboardMaestroMcpPath%/clipsav_%TriggerValue%.png</string>
								<key>Encoding</key>
								<string>UTF8</string>
								<key>Format</key>
								<string>PNG</string>
								<key>Format2</key>
								<string>PNG</string>
								<key>MacroActionType</key>
								<string>WriteFile</string>
								<key>Source</key>
								<string>Clipboard</string>
							</dict>
						</array>
						<key>TimeOutAbortsMacro</key>
						<true/>
					</dict>
				</array>
				<key>CreationDate</key>
				<real>791771031.114398</real>
				<key>ModificationDate</key>
				<real>791781451.12100995</real>
				<key>Name</key>
				<string>Save Clipboard to File</string>
				<key>Triggers</key>
				<array/>
				<key>UID</key>
				<string>37EE527B-036A-42FC-B341-DFFF8D5AAA8A</string>
			</dict>
		</array>
		<key>Name</key>
		<string>Keyboard Maestro MCP</string>
		<key>ToggleMacroUID</key>
		<string>53F4CABE-48F0-44BE-B5B0-810C3A3053B5</string>
		<key>UID</key>
		<string>3D4CF916-0F87-4FA6-AA91-844156A8EACD</string>
	</dict>
</array>
</plist>".

(** [/\{\{MCP_FILE_PATH\}\}/g] *)
Definition re_placeholder : Js.regex := re_literal "{{MCP_FILE_PATH}}".

(** [generateMacrosFile] (lines 222-231). *)
Definition generateMacrosFile (filePath : string) : string :=
  let escapedPath :=
    replace_template (re_literal Js.dq) "&quot;"
      (replace_template (re_literal ">") "&gt;"
         (replace_template (re_literal "<") "&lt;"
            (replace_template (re_literal "&") "&amp;" filePath))) in
  replace_template re_placeholder escapedPath MACROS_TEMPLATE.

(** [expandPath] (lines 245-251); [HOME] is [process.env.HOME]. *)
Definition expandPath (HOME : option string) (path : string)
    (homeDir : option string) : string :=
  let home :=
    match Js.truthy homeDir with
    | Some h => h
    | None =>
        match Js.truthy HOME with
        | Some h => h
        | None => "/Users/unknown"
        end
    end in
  if String.prefix "~/" path then replace_first "~" home path else path.

(** What [validatePath] returns. *)
Module Validation.
Record t : Type := {
  valid : bool;
  error : option string
}.
End Validation.

Definition CR : string := String (ascii_of_nat 13) "".

(** [validatePath] (lines 256-272). *)
Definition validatePath (path : string) : Validation.t :=
  if negb (Js.nonempty path) || String.eqb (Js.trim path) "" then
    {| Validation.valid := false;
       Validation.error := Some "Path cannot be empty" |}
  else if negb (String.prefix "/" path) && negb (String.prefix "~" path) then
    {| Validation.valid := false;
       Validation.error := Some "Path must be absolute (start with / or ~)" |}
  else if includes LF path || includes CR path then
    {| Validation.valid := false;
       Validation.error := Some "Path cannot contain newlines" |}
  else {| Validation.valid := true; Validation.error := None |}.

(** * Specification vocabulary

    The definitions from here to the theorems are not part of the program:
    they name what the statements below talk about. *)

(** The state after one more request. *)
Definition sent (req : Request) (st : State) : State :=
  {| now := now st; requests := (requests st ++ [req])%list;
     reads := reads st; uuids := uuids st |}.

(** The endpoint the remote engine serves with encryption and
    authentication: scheme https, port [port + 1]. *)
Definition encrypted_endpoint (machine : MachineConfig) : string :=
  "https://" ++ host machine ++ ":" ++ Js.show (port machine + 1).

Definition catalog_request (machine : MachineConfig) : Request :=
  {| url := encrypted_endpoint machine ++ "/authenticated.html";
     method := "GET";
     authorization := getAuthHeader machine |}.

Definition trigger_request (machine : MachineConfig) (macro : string)
    (value : option string) : Request :=
  {| url := encrypted_endpoint machine ++ "/authenticatedaction.html?"
            ++ search_params macro value;
     method := "GET";
     authorization := getAuthHeader machine |}.

(** The kinds of outcome of a trigger call. *)
Definition triggered (machine : MachineConfig) (macro : string)
    (result : option string) : Outcome.t :=
  {| Outcome.success := true;
     Outcome.message := "Macro " ++ Js.dq ++ macro ++ Js.dq
                        ++ " triggered successfully on " ++ name machine;
     Outcome.result := result |}.

Definition failed (message : string) : Outcome.t :=
  {| Outcome.success := false; Outcome.message := message;
     Outcome.result := None |}.

Definition authentication_failed (machine : MachineConfig) : Outcome.t :=
  failed ("Authentication failed for " ++ name machine
          ++ ". Check username/password.").

Definition access_denied (machine : MachineConfig) : Outcome.t :=
  failed ("Access denied for " ++ name machine
          ++ ". The macro may not exist or may not be enabled.").

Definition http_status (machine : MachineConfig) (status : Z) : Outcome.t :=
  failed ("Failed to trigger macro on " ++ name machine ++ ": HTTP "
          ++ Js.show status).

Definition connectivity (machine : MachineConfig) (error : thrown) : Outcome.t :=
  failed ("Failed to connect to " ++ name machine ++ " (" ++ host machine
          ++ ":" ++ Js.show (port machine) ++ "): "
          ++ error_message error "Unknown error occurred").

(** The outcome of a trigger call as a function of what the network
    answered. *)
Definition outcome_of_reply (machine : MachineConfig) (macro : string)
    (reply : completion Response) : Outcome.t :=
  match reply with
  | Throw e => connectivity machine e
  | Ok response =>
      if ok response then
        match body response with
        | Ok b => triggered machine macro (Js.truthy (Some b))
        | Throw e => connectivity machine e
        end
      else if status response =? 401 then authentication_failed machine
      else if status response =? 403 then access_denied machine
      else http_status machine (status response)
  end.

(** The same machine with another [secure] flag. *)
Definition with_secure (flag : option bool) (machine : MachineConfig)
  : MachineConfig :=
  {| name := name machine; host := host machine; port := port machine;
     username := username machine; password := password machine;
     secure := flag; outputDir := outputDir machine;
     saveClipboardMacroUid := saveClipboardMacroUid machine |}.

(** The outcomes of a fan-out whose first request is the [n]-th of the
    run: machine [i] of the registry gets the outcome that the reply to
    its own request (number [n + i]) decides. *)
Fixpoint outcomes_from (w : World) (macro : string) (value : option string)
    (n : nat) (machines : list MachineConfig) : list Outcome.t :=
  match machines with
  | [] => []
  | m :: machines' =>
      outcome_of_reply m macro (network w n (trigger_request m macro value))
      :: outcomes_from w macro value (S n) machines'
  end.

(** A line of the report of the fan-out. *)
Definition report_line (m : MachineConfig) (r : Outcome.t) : string :=
  name m ++ ": " ++ Outcome.message r.

(** A registry of three machines and a network on which the second
    request of a run fails at the transport level and every other one is
    answered 200 with the body 42. *)
Definition machine_named (n h : string) : MachineConfig :=
  {| name := n; host := h; port := 4490; username := "km";
     password := "secret"; secure := None; outputDir := None;
     saveClipboardMacroUid := None |}.

Definition three_machines : list MachineConfig :=
  [machine_named "Studio" "10.0.0.1"; machine_named "Laptop" "10.0.0.2";
   machine_named "Mini" "10.0.0.3"].

Definition no_files_world (net : nat -> Request -> completion Response)
  : World :=
  {| network := net;
     readable := fun _ _ => false;
     file := fun _ _ => Throw (ErrorObj "Error" "ENOENT");
     homedir := "/Users/me";
     join := fun a b => a ++ "/" ++ b;
     randomUUID := fun _ => "0f3a9c1e-7b2d-4e5f-8a6b-1c2d3e4f5a6b" |}.

Definition second_call_fails : World :=
  no_files_world
    (fun n _ =>
       match n with
       | 1%nat => Throw (ErrorObj "TypeError" "fetch failed")
       | _ => Ok {| status := 200; body := Ok "42" |}
       end).

Definition initial_state : State :=
  {| now := 0; requests := []; reads := []; uuids := 0 |}.

(** The polls of [waitForFile] as a function of the file system: [n]
    polls from the instant [t], one every [pollInterval]; the result is
    whether one of them found the path readable and the instant at which
    the polling stopped. *)
Fixpoint poll_result (w : World) (path : string) (t : Z) (n : nat) : bool * Z :=
  match n with
  | O => (false, t)
  | S n' =>
      if readable w path t then (true, t)
      else poll_result w path (t + pollInterval) n'
  end.

(** The number of instants [0, 100, 200, ...] before [timeoutMs]. *)
Definition polls (timeoutMs : Z) : nat := Z.to_nat ((timeoutMs + 99) / 100).

(** The state after one more UUID was drawn, and after one more file was
    read. *)
Definition drew (st : State) : State :=
  {| now := now st; requests := requests st; reads := reads st;
     uuids := S (uuids st) |}.

Definition read (path : string) (st : State) : State :=
  {| now := now st; requests := requests st;
     reads := (reads st ++ [path])%list; uuids := uuids st |}.

(** The correlation token of a capture started in the state [st], and
    the two candidate paths. *)
Definition requestId_of (w : World) (st : State) : string :=
  Js.slice0 8 (randomUUID w (uuids st)).

Definition textPath_of (w : World) (machine : MachineConfig) (st : State)
  : string :=
  join w (getOutputDir w machine) ("clipsav_" ++ requestId_of w st ++ ".txt").

Definition imagePath_of (w : World) (machine : MachineConfig) (st : State)
  : string :=
  join w (getOutputDir w machine) ("clipsav_" ++ requestId_of w st ++ ".png").

(** The result built from the image file, and from the text file. *)
Definition image_result (path : string) (bytes : list byte) : Clipboard.t :=
  {| Clipboard.success := true;
     Clipboard.message := "Clipboard image retrieved successfully";
     Clipboard.type := Some image;
     Clipboard.content := Some (Js.base64 bytes);
     Clipboard.filePath := Some path |}.

Definition text_result (path : string) (bytes : list byte) : Clipboard.t :=
  {| Clipboard.success := true;
     Clipboard.message := "Clipboard text retrieved successfully";
     Clipboard.type := Some text;
     Clipboard.content := Some (Js.Buffer_toString bytes);
     Clipboard.filePath := Some path |}.

(** Machines and worlds for the clipboard handoff.  [studio] names its
    Save Clipboard macro and has no [outputDir]; [shared_only] has an
    [outputDir] and names no macro. *)
Definition studio : MachineConfig :=
  {| name := "Studio"; host := "10.0.0.1"; port := 4490; username := "km";
     password := "secret"; secure := None; outputDir := None;
     saveClipboardMacroUid := Some "37EE527B-036A-42FC-B341-DFFF8D5AAA8A" |}.

Definition shared_only : MachineConfig :=
  {| name := "Laptop"; host := "10.0.0.2"; port := 4490; username := "km";
     password := "secret"; secure := None; outputDir := Some "/shared";
     saveClipboardMacroUid := None |}.

(** A world whose network answers 200 with an empty body and whose
    files hold three bytes; [ready] says which paths are readable when. *)
Definition files_world (ready : string -> Z -> bool) : World :=
  {| network := fun _ _ => Ok {| status := 200; body := Ok "" |};
     readable := ready;
     file := fun _ _ => Ok [x50; x4e; x47]%byte;
     homedir := "/Users/me";
     join := fun a b => a ++ "/" ++ b;
     randomUUID := fun _ => "0f3a9c1e-7b2d-4e5f-8a6b-1c2d3e4f5a6b" |}.

Definition studio_text : string := "/Users/me/Downloads/clipsav_0f3a9c1e.txt".
Definition studio_image : string := "/Users/me/Downloads/clipsav_0f3a9c1e.png".

(** Both candidate files are there from the start. *)
Definition both_files_world : World := files_world (fun _ _ => true).

(** The text file is there from the start, the image file never comes. *)
Definition text_ready_world : World :=
  files_world (fun path _ => String.eqb path studio_text).

(** Machine-list input that is not a list: [JSON.parse] throws on it, or
    returns a value that is not an array. *)
Definition malformed (JSON_parse : string -> completion jsval) (s : string)
  : Prop :=
  (exists e, JSON_parse s = Throw e)
  \/ (exists v, JSON_parse s = Ok v /\ forall l, v <> Arr l).

(** A well-formed machine object, after the table of the README: the
    strings [name], [host], [username] and [password]; optionally a
    number [port], a boolean [secure], and the strings [outputDir] and
    [saveClipboardMacroUid]. *)
Definition is_string (v : jsval) : bool :=
  match v with
  | Str _ => true
  | _ => false
  end.

Definition is_integer (v : jsval) : bool :=
  match v with
  | Number (Js.Num _) => true
  | _ => false
  end.

Definition is_boolean (v : jsval) : bool :=
  match v with
  | Bool _ => true
  | _ => false
  end.

Definition optional (p : jsval -> bool) (v : jsval) : bool :=
  match v with
  | Undefined => true
  | _ => p v
  end.

Definition well_formed (m : jsval) : bool :=
  match m with
  | Obj props =>
      is_string (lookup "name" props)
      && is_string (lookup "host" props)
      && optional is_integer (lookup "port" props)
      && is_string (lookup "username" props)
      && is_string (lookup "password" props)
      && optional is_boolean (lookup "secure" props)
      && optional is_string (lookup "outputDir" props)
      && optional is_string (lookup "saveClipboardMacroUid" props)
  | _ => false
  end.

(** What [getMachines] makes of one object of the list. *)
Definition built_from (props : list (string * jsval)) (r : Raw.t) : Prop :=
  Raw.host r = lookup "host" props
  /\ Raw.username r = lookup "username" props
  /\ Raw.password r = lookup "password" props
  /\ Raw.outputDir r = lookup "outputDir" props
  /\ Raw.saveClipboardMacroUid r = lookup "saveClipboardMacroUid" props
  /\ (lookup "port" props = Undefined -> Raw.port r = Number (Js.Num 4490))
  /\ (forall p, lookup "port" props = Number (Js.Num p) -> p <> 0 ->
                Raw.port r = Number (Js.Num p))
  /\ (lookup "secure" props = Undefined -> Raw.secure r = Bool false)
  /\ (forall b, lookup "secure" props = Bool b -> Raw.secure r = Bool b)
  /\ (forall n, lookup "name" props = Str n -> n <> "" -> Raw.name r = Str n).

(** A list of two machines, the first one without [port] and [secure],
    and a stand-in for [JSON.parse] that knows this document, the document
    of an empty object and the document of an array holding [null], and
    rejects every other string. *)
Definition field (k v : string) : string :=
  Js.dq ++ k ++ Js.dq ++ ":" ++ Js.dq ++ v ++ Js.dq.

Definition two_machines_json : string :=
  "[{" ++ field "name" "Studio" ++ "," ++ field "host" "192.168.1.100" ++ ","
  ++ field "username" "km" ++ "," ++ field "password" "secret" ++ "},{"
  ++ field "name" "Laptop" ++ "," ++ field "host" "192.168.1.101" ++ ","
  ++ Js.dq ++ "port" ++ Js.dq ++ ":4492,"
  ++ field "username" "km" ++ "," ++ field "password" "secret" ++ ","
  ++ Js.dq ++ "secure" ++ Js.dq ++ ":true}]".

Definition two_machines : list jsval :=
  [Obj [("name", Str "Studio"); ("host", Str "192.168.1.100");
        ("username", Str "km"); ("password", Str "secret")];
   Obj [("name", Str "Laptop"); ("host", Str "192.168.1.101");
        ("port", Number (Js.Num 4492)); ("username", Str "km");
        ("password", Str "secret"); ("secure", Bool true)]].

Definition sample_parse (s : string) : completion jsval :=
  if String.eqb s two_machines_json then Ok (Arr two_machines)
  else if String.eqb s "{}" then Ok (Obj [])
  else if String.eqb s "[null]" then Ok (Arr [Null])
  else Throw (ErrorObj "SyntaxError" "Unexpected token").

Definition list_env (s : string) : ProcessEnv :=
  {| KM_MACHINES := Some s; KM_HOST := Some "10.0.0.9"; KM_PORT := None;
     KM_USERNAME := Some "km"; KM_PASSWORD := Some "secret";
     KM_SECURE := None |}.

(** The catalog as the specification words it.  The part of the document
    that is read is the first form whose action is
    authenticatedaction.html, the whole document when there is none. *)
Definition scanned_region (html : string) : string :=
  match Js.first_match re_protected_form html with
  | Some section => section
  | None => html
  end.

(** An option tag that carries a label and a value, read as the pair of
    its decoded, trimmed label and its value. *)
Definition decode_option (optionMatch : list string)
  : completion (string * string) :=
  (name <-? decodeHtmlEntities (Js.trim (nth 0 optionMatch "")) ;;
   Ok (name, nth 1 optionMatch ""))%completion.

(** A group tag, read as its decoded, trimmed label and its options in
    document order. *)
Definition decode_group (groupMatch : list string)
  : completion (string * list (string * string)) :=
  (groupName <-? decodeHtmlEntities (Js.trim (nth 0 groupMatch "")) ;;
   options <-? map_throwing decode_option
                 (Js.exec_all optionRegex (nth 1 groupMatch "")) ;;
   Ok (groupName, options))%completion.

Definition decoded_groups (html : string)
  : completion (list (string * list (string * string))) :=
  map_throwing decode_group (Js.exec_all optgroupRegex (scanned_region html)).

(** An option is kept when its name and its id are both non-empty. *)
Definition kept (option : string * string) : bool :=
  Js.nonempty (fst option) && Js.nonempty (snd option).

Definition entry (groupName : string) (option : string * string) : Macro.t :=
  {| Macro.name := fst option; Macro.uid := Some (snd option);
     Macro.group := Some groupName |}.

Definition group_entries (g : string * list (string * string)) : list Macro.t :=
  map (entry (fst g)) (filter kept (snd g)).

Definition catalog_entries (groups : list (string * list (string * string)))
  : list Macro.t :=
  flat_map group_entries groups.

(** A world whose network answers every request 200 with the document
    [html]. *)
Definition serving (html : string) : World :=
  no_files_world (fun _ _ => Ok {| status := 200; body := Ok html |}).

Definition option_tag (label value : string) : string :=
  "<option label=" ++ Js.dq ++ label ++ Js.dq ++ " value=" ++ Js.dq ++ value
  ++ Js.dq ++ ">" ++ label ++ "</option>".

Definition optgroup_tag (label content : string) : string :=
  "<optgroup label=" ++ Js.dq ++ label ++ Js.dq ++ ">" ++ content
  ++ "</optgroup>".

(** Two groups of two options each; one more option without a value. *)
Definition two_by_two_catalog : string :=
  "<html><body><form action=" ++ Js.dq ++ "authenticatedaction.html" ++ Js.dq
  ++ " method=" ++ Js.dq ++ "get" ++ Js.dq ++ "><select name=macro>"
  ++ optgroup_tag "Tools &amp; Toys"
       (option_tag "Fish &amp; Chips" "U1" ++ option_tag "Lock Screen" "U2"
        ++ "<option label=" ++ Js.dq ++ "No Value" ++ Js.dq ++ ">No Value</option>")
  ++ optgroup_tag "Global"
       (option_tag "Caf&#233; &lt;1&gt;" "U3" ++ option_tag "&#x4f;CR" "U4")
  ++ "</select></form></body></html>".

(** A catalog with one good option and one whose label holds a decimal
    reference to 1114112, one above the last code point. *)
Definition out_of_range_catalog : string :=
  optgroup_tag "Global"
    (option_tag "Lock Screen" "U1" ++ option_tag "&#1114112;" "U2").

(** The result of a catalog read as a function of what the network
    answered. *)
Definition listing_failed (message : string) : Listing.t :=
  {| Listing.success := false; Listing.macros := None;
     Listing.message := Some message |}.

Definition listing_connectivity (machine : MachineConfig) (error : thrown)
  : Listing.t :=
  listing_failed ("Failed to connect to " ++ name machine ++ " ("
                  ++ host machine ++ ":" ++ Js.show (port machine) ++ "): "
                  ++ error_message error "Unknown error occurred").

Definition listing_of_reply (machine : MachineConfig)
    (reply : completion Response) : Listing.t :=
  match reply with
  | Throw e => listing_connectivity machine e
  | Ok response =>
      if ok response then
        match body response with
        | Ok html =>
            match parse_macros html with
            | Ok macros =>
                {| Listing.success := true; Listing.macros := Some macros;
                   Listing.message := None |}
            | Throw e => listing_connectivity machine e
            end
        | Throw e => listing_connectivity machine e
        end
      else if status response =? 401 then
        listing_failed ("Authentication failed for " ++ name machine
                        ++ ". Check username/password.")
      else
        listing_failed ("Failed to fetch macros from " ++ name machine
                        ++ ": HTTP " ++ Js.show (status response))
  end.

(** A world whose network answers every request with the status [code]
    and the body [text]. *)
Definition replying (code : Z) (text : string) : World :=
  no_files_world (fun _ _ => Ok {| status := code; body := Ok text |}).

(** No candidate file ever comes. *)
Definition no_file_world : World := files_world (fun _ _ => false).

(** The network refuses the credentials. *)
Definition unauthorized_world : World := replying 401 "".

(** A stand-in for [toLowerCase] that is right on ASCII text, and a
    registry whose second and third names differ by case only. *)
Definition ascii_lower_char (a : ascii) : ascii :=
  let n := Js.code a in
  if (65 <=? n) && (n <=? 90) then Js.chr (n + 32) else a.

Fixpoint ascii_lower (s : string) : string :=
  match s with
  | EmptyString => ""
  | String a s' => String (ascii_lower_char a) (ascii_lower s')
  end.

Definition mixed_case_registry : list MachineConfig :=
  [machine_named "Studio" "10.0.0.1"; machine_named "Laptop" "10.0.0.2";
   machine_named "LAPTOP" "10.0.0.3"].

(** The request of [fetchUrl]. *)
Definition fetch_request (machine : MachineConfig) (path : string) : Request :=
  {| url := if String.prefix "http" path then path
            else getBaseUrl machine ++ path;
     method := "GET";
     authorization := getAuthHeader machine |}.

(** The time [trigger_and_capture] waits between the trigger and the
    capture: the delay of the timer set for [delay ?? 500]. *)
Definition settle_delay (delay : option Z) : Z :=
  timer_delay match delay with
              | Some d => d
              | None => 500
              end.

(** A value of an optional field of [MachineConfig]. *)
Definition optional_string (v : jsval) : option (option string) :=
  match v with
  | Undefined => Some None
  | Str s => Some (Some s)
  | _ => None
  end.

Definition optional_boolean (v : jsval) : option (option bool) :=
  match v with
  | Undefined => Some None
  | Bool b => Some (Some b)
  | _ => None
  end.

(** A record of [getMachines] whose fields hold values of the types that
    [MachineConfig] declares, read as a [MachineConfig]. *)
Definition typed (r : Raw.t) : option MachineConfig :=
  match Raw.name r, Raw.host r, Raw.port r, Raw.username r, Raw.password r,
        optional_boolean (Raw.secure r), optional_string (Raw.outputDir r),
        optional_string (Raw.saveClipboardMacroUid r) with
  | Str n, Str h, Number (Js.Num p), Str u, Str pw, Some s, Some o, Some c =>
      Some {| name := n; host := h; port := p; username := u; password := pw;
              secure := s; outputDir := o; saveClipboardMacroUid := c |}
  | _, _, _, _, _, _, _, _ => None
  end.

(** The record that [getMachines] makes of a list element that has none
    of the properties it reads. *)
Definition blank_machine : Raw.t :=
  {| Raw.name := Str "unnamed"; Raw.host := Undefined;
     Raw.port := Number (Js.Num 4490); Raw.username := Undefined;
     Raw.password := Undefined; Raw.secure := Bool false;
     Raw.outputDir := Undefined; Raw.saveClipboardMacroUid := Undefined |}.

(** The flat variables of one machine, without [KM_MACHINES]. *)
Definition flat_env : ProcessEnv :=
  {| KM_MACHINES := None; KM_HOST := Some "10.0.0.9"; KM_PORT := Some "4490";
     KM_USERNAME := Some "km"; KM_PASSWORD := Some "secret";
     KM_SECURE := Some "true" |}.

(** A stand-in for [JSON.parse] that knows one document, an array of a
    number and an empty object. *)
Definition scalars_parse (s : string) : completion jsval :=
  if String.eqb s "[7,{}]"
  then Ok (Arr [Number (Js.Num 7); Obj []])
  else Throw (ErrorObj "SyntaxError" "Unexpected token").

(** What every record of the list form satisfies. *)
Definition defaults_applied (r : Raw.t) : Prop :=
  truthy_val (Raw.name r) = true
  /\ truthy_val (Raw.port r) = true
  /\ Raw.secure r <> Undefined /\ Raw.secure r <> Null.

(** Whether the character [a] occurs in [s]. *)
Fixpoint occurs (a : ascii) (s : string) : bool :=
  match s with
  | EmptyString => false
  | String b s' => Ascii.eqb a b || occurs a s'
  end.

(** A catalog of one group whose labels hold named entities only. *)
Definition named_entities_catalog : string :=
  optgroup_tag "Tools &amp; Toys"
    (option_tag "Fish &amp; Chips" "U1" ++ option_tag "Lock Screen" "U2").

(** The machine [testMachineConnection] builds from its argument. *)
Definition test_machine (config : Connection.t) : MachineConfig :=
  {| name := "test";
     host := Connection.host config;
     port := Connection.port config;
     username := Connection.username config;
     password := Connection.password config;
     secure := Some match Connection.secure config with
                    | Some b => b
                    | None => false
                    end;
     outputDir := None;
     saveClipboardMacroUid := None |}.

(** An entry named Save Clipboard to File in the group Keyboard Maestro
    MCP, and whether a listing succeeded and holds one. *)
Definition is_clipboard_macro (m : Macro.t) : bool :=
  group_is "Keyboard Maestro MCP" m
  && String.eqb (Macro.name m) "Save Clipboard to File".

Definition has_clipboard_macro (listing : Listing.t) : bool :=
  Listing.success listing
  && match Listing.macros listing with
     | Some macros => existsb is_clipboard_macro macros
     | None => false
     end.

Definition has_group (listing : Listing.t) : bool :=
  Listing.success listing
  && match Listing.macros listing with
     | Some macros => existsb (group_is "Keyboard Maestro MCP") macros
     | None => false
     end.

(** A catalog that holds the capture macro, and a network that serves it
    once and is unreachable afterwards. *)
Definition capture_catalog : string :=
  optgroup_tag "Keyboard Maestro MCP"
    (option_tag "Save Clipboard to File" "37EE527B").

Definition reachable_once : World :=
  no_files_world
    (fun n _ =>
       match n with
       | O => Ok {| status := 200; body := Ok capture_catalog |}
       | _ => Throw (ErrorObj "TypeError" "fetch failed")
       end).

Definition local_connection : Connection.t :=
  {| Connection.host := "10.0.0.1"; Connection.port := 4490;
     Connection.username := "km"; Connection.password := "secret";
     Connection.secure := None |}.

(** The decoder of application/x-www-form-urlencoded text, which the
    receiving side applies to a parameter. *)
Fixpoint urldecode (s : string) : string :=
  match s with
  | EmptyString => ""
  | String a s' =>
      if Ascii.eqb a "+" then String " " (urldecode s')
      else if Ascii.eqb a "%" then
        match s' with
        | String x (String y s'') =>
            String (Js.chr (16 * Js.digit_value x + Js.digit_value y))
              (urldecode s'')
        | _ => String a (urldecode s')
        end
      else String a (urldecode s')
  end.

(** The characters of a serialised query: letters, digits, and those of
    [*-._+%&=]. *)
Definition query_char (a : ascii) : bool :=
  let n := Js.code a in
  ((48 <=? n) && (n <=? 57)) || ((65 <=? n) && (n <=? 90))
  || ((97 <=? n) && (n <=? 122))
  || occurs a "*-._+%&=".

(** One pass over a text that writes each of the four characters [&], [<],
    [>] and the double quote as its entity. *)
Definition xml_escape_char (a : ascii) : string :=
  if Ascii.eqb a "&" then "&amp;"
  else if Ascii.eqb a "<" then "&lt;"
  else if Ascii.eqb a ">" then "&gt;"
  else if Ascii.eqb a dquote then "&quot;"
  else String a "".

Fixpoint xml_escape (s : string) : string :=
  match s with
  | EmptyString => ""
  | String a s' => xml_escape_char a ++ xml_escape s'
  end.

(** [s] with [t] written for every [c]. *)
Fixpoint subst_char (c : ascii) (t s : string) : string :=
  match s with
  | EmptyString => ""
  | String a s' =>
      (if Ascii.eqb c a then t else String a "") ++ subst_char c t s'
  end.

(** The text of [s] before its first [a]. *)
Fixpoint take_until (a : ascii) (s : string) : string :=
  match s with
  | EmptyString => ""
  | String b s' => if Ascii.eqb a b then "" else String b (take_until a s')
  end.

Definition placeholder : string := "{{MCP_FILE_PATH}}".

(** The template before and after its placeholder. *)
Definition template_before : string := take_until "{" MACROS_TEMPLATE.

Definition template_after : string :=
  slice_from (String.length template_before + String.length placeholder)
    MACROS_TEMPLATE.

(** [homeDir || process.env.HOME || Q/Users/unknownQ]. *)
Definition home_of (HOME homeDir : option string) : string :=
  match Js.truthy homeDir with
  | Some h => h
  | None =>
      match Js.truthy HOME with
      | Some h => h
      | None => "/Users/unknown"
      end
  end.

(** * Theorems *)

(** ** The trigger invoker *)

Lemma append_assoc (a b c : string) : (a ++ b) ++ c = a ++ (b ++ c).
Proof.
  induction a as [|x a IH]; simpl; [reflexivity | now rewrite IH].
Qed.

(** One call of [triggerMacro] sends one request, to the encrypted
    endpoint, and completes normally with the outcome the reply decides. *)
Lemma triggerMacro_run (w : World) (machine : MachineConfig) (macro : string)
    (value : option string) (st : State) :
  triggerMacro w machine macro value st =
    (Ok (outcome_of_reply machine macro
           (network w (List.length (requests st))
              (trigger_request machine macro value))),
     sent (trigger_request machine macro value) st).
Proof.
  unfold triggerMacro, try_catch, bind, fetch, response_text, lift, ret.
  unfold trigger_request, encrypted_endpoint, sent.
  rewrite !append_assoc.
  destruct (network w _ _) as [response | e]; simpl; [| reflexivity].
  destruct (ok response); simpl.
  - destruct (body response); reflexivity.
  - destruct (status response =? 401); [reflexivity |].
    destruct (status response =? 403); reflexivity.
Qed.

Lemma authentication_failed_not_access_denied (machine : MachineConfig) :
  authentication_failed machine <> access_denied machine.
Proof.
  unfold authentication_failed, access_denied, failed.
  intros H. injection H as H. discriminate H.
Qed.

Lemma ok_range (response : Response) :
  ok response = true <-> 200 <= status response <= 299.
Proof.
  unfold ok. rewrite andb_true_iff, !Z.leb_le. reflexivity.
Qed.

(** C3.  Whatever the network answers to the request of a trigger call,
    the call completes normally (it never raises).  A response with a
    status from 200 to 299 whose body was read gives the success outcome,
    whose [result] is the body when it is not empty and is absent when it
    is empty; a 401 gives the authentication-failed outcome; a 403 gives
    the access-denied outcome, which differs from the former; any other
    status outside 200-299 gives the HTTP-status outcome; a failure of the
    transport, be it that no response came or that the body of a 2xx
    response could not be read, gives the connectivity outcome, whose
    message names the machine, its host and its port.  The cases cover
    every answer of the network. *)
Theorem triggerMacro_outcomes (w : World) (machine : MachineConfig)
    (macro : string) (value : option string) (st : State) :
  let reply :=
    network w (List.length (requests st)) (trigger_request machine macro value) in
  let run := triggerMacro w machine macro value st in
  (exists outcome, fst run = Ok outcome)
  /\ (forall response b,
        reply = Ok response -> 200 <= status response <= 299 ->
        body response = Ok b ->
        fst run
          = Ok {| Outcome.success := true;
                  Outcome.message :=
                    "Macro " ++ Js.dq ++ macro ++ Js.dq
                    ++ " triggered successfully on " ++ name machine;
                  Outcome.result := if Js.nonempty b then Some b else None |})
  /\ (forall response,
        reply = Ok response -> status response = 401 ->
        fst run = Ok (authentication_failed machine))
  /\ (forall response,
        reply = Ok response -> status response = 403 ->
        fst run = Ok (access_denied machine))
  /\ authentication_failed machine <> access_denied machine
  /\ (forall response,
        reply = Ok response ->
        status response < 200 \/ 299 < status response ->
        status response <> 401 -> status response <> 403 ->
        fst run = Ok (http_status machine (status response)))
  /\ (forall e,
        reply = Throw e
        \/ (exists response,
              reply = Ok response /\ 200 <= status response <= 299
              /\ body response = Throw e) ->
        fst run =
          Ok (failed ("Failed to connect to " ++ name machine ++ " ("
                      ++ host machine ++ ":" ++ Js.show (port machine) ++ "): "
                      ++ error_message e "Unknown error occurred"))).
Proof.
  intros reply run. subst reply run. rewrite triggerMacro_run. simpl fst.
  repeat split.
  - eexists; reflexivity.
  - intros response b Hr Hok Hb. rewrite Hr. simpl.
    rewrite (proj2 (ok_range response) Hok), Hb. reflexivity.
  - intros response Hr Hs. rewrite Hr. simpl. unfold ok. rewrite Hs.
    reflexivity.
  - intros response Hr Hs. rewrite Hr. simpl. unfold ok. rewrite Hs.
    reflexivity.
  - apply authentication_failed_not_access_denied.
  - intros response Hr Hout H401 H403. rewrite Hr. simpl.
    destruct (ok response) eqn:Hok; [apply ok_range in Hok; lia |].
    apply Z.eqb_neq in H401, H403. now rewrite H401, H403.
  - intros e [Hr | (response & Hr & Hok & Hb)]; rewrite Hr; [reflexivity |].
    simpl. rewrite (proj2 (ok_range response) Hok), Hb. reflexivity.
Qed.

(** A 200 with the body 42 gives the success with the result 42; a 401
    and a 403 give the two distinct failures. *)
Lemma triggerMacro_outcomes_witness :
  fst (triggerMacro (replying 200 "42") studio "Lock Screen" None initial_state)
    = Ok {| Outcome.success := true;
            Outcome.message :=
              "Macro " ++ Js.dq ++ "Lock Screen" ++ Js.dq
              ++ " triggered successfully on " ++ name studio;
            Outcome.result := Some "42" |}
  /\ fst (triggerMacro (replying 401 "") studio "Lock Screen" None initial_state)
     = Ok (authentication_failed studio)
  /\ fst (triggerMacro (replying 403 "") studio "Lock Screen" None initial_state)
     = Ok (access_denied studio).
Proof.
  split; [| split].
  - apply (proj1 (proj2 (triggerMacro_outcomes (replying 200 "42") studio
                           "Lock Screen" None initial_state))
             {| status := 200; body := Ok "42" |} "42" eq_refl);
      [cbn [status]; lia | reflexivity].
  - apply (proj1 (proj2 (proj2 (triggerMacro_outcomes (replying 401 "") studio
                                  "Lock Screen" None initial_state)))
             {| status := 401; body := Ok "" |} eq_refl eq_refl).
  - apply (proj1 (proj2 (proj2 (proj2
             (triggerMacro_outcomes (replying 403 "") studio "Lock Screen"
                None initial_state))))
             {| status := 403; body := Ok "" |} eq_refl eq_refl).
Defined.

(** ** The endpoint of the catalog read and of the trigger call *)

Lemma listMacros_run (w : World) (machine : MachineConfig) (st : State) :
  listMacros w machine st =
    (Ok (listing_of_reply machine
           (network w (List.length (requests st)) (catalog_request machine))),
     sent (catalog_request machine) st).
Proof.
  unfold listMacros, try_catch, bind, fetch, response_text, lift, ret.
  unfold catalog_request, encrypted_endpoint, sent.
  rewrite !append_assoc.
  destruct (network w _ _) as [response | e]; simpl; [| reflexivity].
  destruct (ok response); simpl.
  - destruct (body response) as [html | e]; simpl; [| reflexivity].
    destruct (parse_macros html); reflexivity.
  - destruct (status response =? 401); reflexivity.
Qed.

(** C6.  Whatever the [secure] flag of a machine is set to, [listMacros]
    and [triggerMacro] each send exactly one request, and its address has
    the scheme https and the port [port + 1]: the flag changes neither. *)
Theorem encrypted_endpoint_regardless_of_secure (w : World)
    (machine : MachineConfig) (flag : option bool) (macro : string)
    (value : option string) (st : State) :
  requests (snd (listMacros w (with_secure flag machine) st))
    = (requests st ++ [catalog_request machine])%list
  /\ requests (snd (triggerMacro w (with_secure flag machine) macro value st))
    = (requests st ++ [trigger_request machine macro value])%list
  /\ url (catalog_request machine)
    = "https://" ++ host machine ++ ":" ++ Js.show (port machine + 1)
      ++ "/authenticated.html"
  /\ url (trigger_request machine macro value)
    = "https://" ++ host machine ++ ":" ++ Js.show (port machine + 1)
      ++ "/authenticatedaction.html?" ++ search_params macro value.
Proof.
  rewrite listMacros_run, triggerMacro_run.
  repeat split; simpl; unfold encrypted_endpoint; now rewrite ?append_assoc.
Qed.

(** ** The fan-out *)

Lemma set_now_same (st : State) : set_now (now st) st = st.
Proof. now destruct st. Qed.

Lemma now_fold_sent (f : MachineConfig -> Request)
    (machines : list MachineConfig) (st : State) :
  now (fold_left (fun s m => sent (f m) s) machines st) = now st.
Proof.
  revert st. induction machines as [|m machines IH]; intros st;
    [reflexivity |].
  simpl. now rewrite IH.
Qed.

Lemma requests_fold_sent (f : MachineConfig -> Request)
    (machines : list MachineConfig) (st : State) :
  requests (fold_left (fun s m => sent (f m) s) machines st)
    = (requests st ++ map f machines)%list.
Proof.
  revert st. induction machines as [|m machines IH]; intros st.
  - simpl. now rewrite app_nil_r.
  - simpl. rewrite IH. simpl. now rewrite <- app_assoc.
Qed.

Lemma triggerOnAll_run (w : World) (macro : string) (value : option string)
    (machines : list MachineConfig) (st : State) :
  triggerOnAll w machines macro value st =
    (Ok (outcomes_from w macro value (List.length (requests st)) machines),
     fold_left (fun s m => sent (trigger_request m macro value) s) machines st).
Proof.
  unfold triggerOnAll. revert st.
  induction machines as [|m machines IH]; intros st; [reflexivity |].
  cbn [map Promise_all outcomes_from fold_left].
  rewrite triggerMacro_run.
  change (now (sent (trigger_request m macro value) st)) with (now st).
  change (set_now (now st) (sent (trigger_request m macro value) st))
    with (sent (trigger_request m macro value) st).
  rewrite IH.
  replace (List.length (requests (sent (trigger_request m macro value) st)))
    with (S (List.length (requests st)))
    by (simpl; rewrite length_app; simpl; lia).
  f_equal.
  rewrite now_fold_sent. change (now (sent _ st)) with (now st).
  rewrite Z.max_id.
  rewrite <- (now_fold_sent (fun m => trigger_request m macro value) machines
                (sent (trigger_request m macro value) st)) at 1.
  apply set_now_same.
Qed.

Lemma outcomes_from_length (w : World) (macro : string) (value : option string)
    (machines : list MachineConfig) (n : nat) :
  List.length (outcomes_from w macro value n machines) = List.length machines.
Proof.
  revert n. induction machines as [|m machines IH]; intros n; simpl;
    [reflexivity | now rewrite IH].
Qed.

Lemma outcomes_from_nth (w : World) (macro : string) (value : option string)
    (machines : list MachineConfig) (n i : nat) (m : MachineConfig) :
  nth_error machines i = Some m ->
  nth_error (outcomes_from w macro value n machines) i
    = Some (outcome_of_reply m macro
              (network w (n + i) (trigger_request m macro value))).
Proof.
  revert n i. induction machines as [|m' machines IH]; intros n i H.
  - destruct i; discriminate H.
  - destruct i as [|i]; simpl in *.
    + injection H as ->. now rewrite Nat.add_0_r.
    + rewrite (IH (S n) i H). now rewrite Nat.add_succ_r.
Qed.

Lemma summary_lines_aligned (pre machines : list MachineConfig)
    (results : list Outcome.t) :
  List.length machines = List.length results ->
  summary_lines (pre ++ machines) (List.length pre) results
    = Ok (map (fun mr => report_line (fst mr) (snd mr))
            (combine machines results)).
Proof.
  revert pre results.
  induction machines as [|m machines IH]; intros pre [|r results] H;
    try discriminate H; [reflexivity |].
  cbn [summary_lines combine map].
  rewrite nth_error_app2 by lia. rewrite Nat.sub_diag. cbn [nth_error].
  specialize (IH (pre ++ [m])%list results).
  rewrite <- app_assoc, length_app in IH. cbn [List.length app] in IH.
  rewrite Nat.add_1_r in IH.
  rewrite IH by (simpl in H; lia).
  reflexivity.
Qed.

(** C4.  On a registry that is not empty the fan-out sends one trigger
    request per machine, in registry order, and completes normally with
    one outcome per machine, in registry order.  The outcome of machine
    [i] is the one that the reply to its own request decides, whatever
    the replies to the other requests are, a thrown transport error
    included.  The handler reports one line per machine and sets
    [isError] to the negation of the conjunction of the successes. *)
Theorem triggerOnAll_isolated (w : World) (machines : list MachineConfig)
    (macro : string) (value : option string) (st : State) :
  machines <> [] ->
  exists results,
    fst (triggerOnAll w machines macro value st) = Ok results
    /\ List.length results = List.length machines
    /\ (forall i m,
          nth_error machines i = Some m ->
          nth_error results i
            = Some (outcome_of_reply m macro
                      (network w (List.length (requests st) + i)
                         (trigger_request m macro value))))
    /\ requests (snd (triggerOnAll w machines macro value st))
       = (requests st
          ++ map (fun m => trigger_request m macro value) machines)%list
    /\ fst (trigger_macro_on_all w machines macro value st)
       = Ok {| Tool.text :=
                 String.concat LF
                   (map (fun mr => report_line (fst mr) (snd mr))
                      (combine machines results));
               Tool.isError := negb (forallb Outcome.success results) |}.
Proof.
  intros Hne.
  exists (outcomes_from w macro value (List.length (requests st)) machines).
  rewrite triggerOnAll_run. simpl fst. simpl snd.
  split; [reflexivity |].
  split; [apply outcomes_from_length |].
  split; [intros i m H; now apply outcomes_from_nth |].
  split; [apply requests_fold_sent |].
  unfold trigger_macro_on_all.
  destruct machines as [|m machines]; [contradiction |].
  cbn [List.length Nat.eqb].
  unfold bind. rewrite triggerOnAll_run. unfold lift.
  rewrite (summary_lines_aligned [] (m :: machines))
    by (now rewrite outcomes_from_length).
  reflexivity.
Qed.

(** Three machines, the call to the second one failing at the transport
    level: three outcomes in registry order, the first and the third
    successful, the aggregate an error. *)
Lemma triggerOnAll_isolated_witness :
  exists results,
    fst (triggerOnAll second_call_fails three_machines "Lock" None
           initial_state) = Ok results
    /\ List.length results = List.length three_machines
    /\ (forall i m,
          nth_error three_machines i = Some m ->
          nth_error results i
            = Some (outcome_of_reply m "Lock"
                      (network second_call_fails
                         (List.length (requests initial_state) + i)
                         (trigger_request m "Lock" None))))
    /\ requests (snd (triggerOnAll second_call_fails three_machines "Lock"
                        None initial_state))
       = (requests initial_state
          ++ map (fun m => trigger_request m "Lock" None) three_machines)%list
    /\ fst (trigger_macro_on_all second_call_fails three_machines "Lock" None
              initial_state)
       = Ok {| Tool.text :=
                 String.concat LF
                   (map (fun mr => report_line (fst mr) (snd mr))
                      (combine three_machines results));
               Tool.isError := negb (forallb Outcome.success results) |}.
Proof.
  apply (triggerOnAll_isolated second_call_fails three_machines "Lock" None
           initial_state).
  discriminate.
Defined.

Example fan_out_three_machines :
  option_map (map Outcome.success)
    (match fst (triggerOnAll second_call_fails three_machines "Lock" None
                  initial_state) with
     | Ok results => Some results
     | Throw _ => None
     end) = Some [true; false; true]
  /\ option_map Tool.isError
       (match fst (trigger_macro_on_all second_call_fails three_machines
                     "Lock" None initial_state) with
        | Ok r => Some r
        | Throw _ => None
        end) = Some true.
Proof. split; vm_compute; reflexivity. Qed.

(** ** Sequential decoding of entities *)

(** C10.  [decodeHtmlEntities] is the chain of its seven replacements in
    the order of the source, each working on the output of the one
    before, so a later replacement decodes what an earlier one produced:
    [&amp;lt;] and [&#38;lt;] both decode to the character [<], not to
    [&lt;].  The order shows in the other direction too: the numeric
    replacements have run when [&amp;] is replaced, so [&amp;#60;] decodes
    to [&#60;]. *)
Theorem decodeHtmlEntities_sequential :
  (forall text,
     decodeHtmlEntities text =
       rbind (Js.replace re_decimal_entity (entity_replacer 10) text) (fun t1 =>
       rbind (Js.replace re_hex_entity (entity_replacer 16) t1) (fun t2 =>
       rbind (Js.replace_lit "&amp;" "&" t2) (fun t3 =>
       rbind (Js.replace_lit "&lt;" "<" t3) (fun t4 =>
       rbind (Js.replace_lit "&gt;" ">" t4) (fun t5 =>
       rbind (Js.replace_lit "&quot;" Js.dq t5) (fun t6 =>
       Js.replace_lit "&apos;" "'" t6)))))))
  /\ decodeHtmlEntities "&amp;lt;" = Ok "<"
  /\ decodeHtmlEntities "&amp;lt;" <> Ok "&lt;"
  /\ Js.replace_lit "&amp;" "&" "&amp;lt;" = Ok "&lt;"
  /\ Js.replace_lit "&lt;" "<" "&lt;" = Ok "<"
  /\ decodeHtmlEntities "&#38;lt;" = Ok "<"
  /\ Js.replace re_decimal_entity (entity_replacer 10) "&#38;lt;" = Ok "&lt;"
  /\ decodeHtmlEntities "&amp;#60;" = Ok "&#60;".
Proof.
  split; [intros text; reflexivity |].
  repeat split; try (vm_compute; reflexivity).
  vm_compute. discriminate.
Qed.

(** ** Polling *)

Lemma polls_nonpos (x : Z) : x <= 0 -> polls x = 0%nat.
Proof.
  intros H. unfold polls.
  assert ((x + 99) / 100 < 1) by (apply Z.div_lt_upper_bound; lia).
  lia.
Qed.

Lemma polls_pos (x : Z) : 0 < x -> polls x = S (polls (x - 100)).
Proof.
  intros H. unfold polls.
  replace (x - 100 + 99) with (x + 99 + (-1) * 100) by lia.
  rewrite Z.div_add by lia.
  assert (1 <= (x + 99) / 100) by (apply Z.div_le_lower_bound; lia).
  lia.
Qed.

Lemma polls_below_fuel (timeoutMs : Z) :
  (polls timeoutMs < waitForFile_fuel timeoutMs)%nat.
Proof.
  unfold waitForFile_fuel, polls.
  destruct (Z.leb_spec timeoutMs 0) as [H | H].
  - assert ((timeoutMs + 99) / 100 < 1) by (apply Z.div_lt_upper_bound; lia).
    lia.
  - assert ((timeoutMs + 99) / 100 <= timeoutMs)
      by (apply Z.div_le_upper_bound; lia).
    lia.
Qed.

Lemma set_now_set_now (a b : Z) (st : State) :
  set_now a (set_now b st) = set_now a st.
Proof. reflexivity. Qed.

(** The loop ends before its fuel is spent, and it is the polls. *)
Lemma waitForFile_loop_ends (w : World) (path : string) (timeoutMs start : Z)
    (fuel : nat) (st : State) :
  (polls (timeoutMs - (now st - start)) < fuel)%nat ->
  waitForFile_loop w fuel path timeoutMs start st =
    (Ok (Some (fst (poll_result w path (now st)
                      (polls (timeoutMs - (now st - start)))))),
     set_now (snd (poll_result w path (now st)
                     (polls (timeoutMs - (now st - start))))) st).
Proof.
  revert st. induction fuel as [|fuel IH]; intros st Hfuel; [lia |].
  cbn [waitForFile_loop]. unfold bind at 1. unfold Date_now at 1.
  destruct (Z.ltb_spec (now st - start) timeoutMs) as [Hlt | Hge].
  - rewrite polls_pos in * by lia.
    cbn [poll_result].
    unfold bind, try_catch, access, sleep, ret.
    destruct (readable w path (now st)).
    + simpl. now rewrite set_now_same.
    + rewrite IH; cbn [now set_now].
      * unfold pollInterval.
        replace (timeoutMs - (now st + 100 - start))
          with (timeoutMs - (now st - start) - 100) by lia.
        reflexivity.
      * unfold pollInterval.
        replace (timeoutMs - (now st + 100 - start))
          with (timeoutMs - (now st - start) - 100) by lia.
        lia.
  - rewrite polls_nonpos by lia. simpl. unfold ret.
    now rewrite set_now_same.
Qed.

(** [waitForFile] completes normally, changes nothing but the clock, and
    is the polls before the deadline. *)
Lemma waitForFile_run (w : World) (path : string) (timeoutMs : Z) (st : State) :
  waitForFile w path timeoutMs st =
    (Ok (fst (poll_result w path (now st) (polls timeoutMs))),
     set_now (snd (poll_result w path (now st) (polls timeoutMs))) st).
Proof.
  unfold waitForFile, bind at 1, Date_now at 1.
  unfold bind. rewrite waitForFile_loop_ends.
  - replace (timeoutMs - (now st - now st)) with timeoutMs by lia.
    reflexivity.
  - replace (timeoutMs - (now st - now st)) with timeoutMs by lia.
    apply polls_below_fuel.
Qed.

Lemma poll_result_true (w : World) (path : string) (n : nat) (t : Z) :
  fst (poll_result w path t n) = true <->
  exists k, (k < n)%nat /\ readable w path (t + 100 * Z.of_nat k) = true.
Proof.
  revert t. induction n as [|n IH]; intros t; cbn [poll_result].
  - split; [discriminate | intros (k & Hk & _); lia].
  - destruct (readable w path t) eqn:Hr.
    + split; [intros _ | reflexivity].
      exists 0%nat. split; [lia |]. now rewrite Z.add_0_r.
    + rewrite IH. unfold pollInterval. split.
      * intros (k & Hk & H). exists (S k). split; [lia |].
        now replace (t + 100 * Z.of_nat (S k)) with (t + 100 + 100 * Z.of_nat k)
          by lia.
      * intros ([|k] & Hk & H).
        -- rewrite Z.add_0_r in H. congruence.
        -- exists k. split; [lia |].
           now replace (t + 100 + 100 * Z.of_nat k)
             with (t + 100 * Z.of_nat (S k)) by lia.
Qed.

Lemma poll_result_false_time (w : World) (path : string) (n : nat) (t : Z) :
  fst (poll_result w path t n) = false ->
  snd (poll_result w path t n) = t + 100 * Z.of_nat n.
Proof.
  revert t. induction n as [|n IH]; intros t; cbn [poll_result].
  - intros _. simpl. lia.
  - destruct (readable w path t); [discriminate |].
    intros H. rewrite (IH _ H). unfold pollInterval. lia.
Qed.

Lemma poll_result_time_bounds (w : World) (path : string) (n : nat) (t : Z) :
  t <= snd (poll_result w path t n) <= t + 100 * Z.of_nat n.
Proof.
  revert t. induction n as [|n IH]; intros t; cbn [poll_result].
  - simpl. lia.
  - destruct (readable w path t); [simpl; lia |].
    specialize (IH (t + pollInterval)). unfold pollInterval in *. lia.
Qed.

Lemma poll_result_first (w : World) (path : string) (n : nat) (t : Z) :
  fst (poll_result w path t n) = true ->
  exists k,
    (k < n)%nat
    /\ snd (poll_result w path t n) = t + 100 * Z.of_nat k
    /\ readable w path (t + 100 * Z.of_nat k) = true
    /\ forall j, (j < k)%nat ->
                 readable w path (t + 100 * Z.of_nat j) = false.
Proof.
  revert t. induction n as [|n IH]; intros t; cbn [poll_result].
  - discriminate.
  - destruct (readable w path t) eqn:Hr.
    + intros _. exists 0%nat. cbn [snd].
      replace (t + 100 * Z.of_nat 0) with t by lia.
      repeat split; [lia | exact Hr | intros j Hj; lia].
    + intros H. destruct (IH _ H) as (k & Hk & Ht & Hready & Hbefore).
      unfold pollInterval in *. exists (S k).
      replace (t + 100 * Z.of_nat (S k)) with (t + 100 + 100 * Z.of_nat k)
        by lia.
      repeat split; [lia | exact Ht | exact Hready |].
      intros [|j] Hj.
      * now replace (t + 100 * Z.of_nat 0) with t by lia.
      * replace (t + 100 * Z.of_nat (S j)) with (t + 100 + 100 * Z.of_nat j)
          by lia.
        apply Hbefore. lia.
Qed.

Lemma poll_result_ready (w : World) (path : string) (n : nat) (t : Z) :
  readable w path t = true ->
  poll_result w path t (S n) = (true, t).
Proof. intros H. cbn [poll_result]. now rewrite H. Qed.

(** ** The clipboard handoff *)

Lemma truthy_nonempty (x : option string) (s : string) :
  Js.truthy x = Some s <-> x = Some s /\ s <> "".
Proof.
  destruct x as [[|a t] |]; simpl; split.
  - discriminate.
  - intros [H Hne]. injection H as <-. now contradiction Hne.
  - intros H. injection H as <-. split; [reflexivity | discriminate].
  - intros [H _]. exact H.
  - discriminate.
  - intros [H _]. discriminate H.
Qed.

Lemma truthy_none (x : option string) :
  Js.truthy x = None <-> x = None \/ x = Some "".
Proof.
  destruct x as [[|a t] |]; simpl; split; auto; try discriminate.
  intros [H | H]; discriminate H.
Qed.

Lemma getClipboardResult_unconfigured (w : World) (machine : MachineConfig)
    (st : State) :
  Js.truthy (saveClipboardMacroUid machine) = None ->
  getClipboardResult w machine st
    = (Ok (clip_failure (not_configured_message machine)), st).
Proof.
  intros H. unfold getClipboardResult. now rewrite H.
Qed.

Lemma polls_3000 : polls 3000 = 30%nat.
Proof. reflexivity. Qed.

Lemma getClipboardResult_trigger_failed (w : World) (machine : MachineConfig)
    (u : string) (st : State) :
  Js.truthy (saveClipboardMacroUid machine) = Some u ->
  let req := trigger_request machine u (Some (requestId_of w st)) in
  let outcome :=
    outcome_of_reply machine u (network w (List.length (requests st)) req) in
  Outcome.success outcome = false ->
  getClipboardResult w machine st
    = (Ok (clip_failure ("Failed to trigger Save Clipboard macro: "
                         ++ Outcome.message outcome)),
       sent req (drew st)).
Proof.
  intros Hu req outcome Hs. unfold getClipboardResult. rewrite Hu.
  unfold bind at 1. unfold crypto_randomUUID at 1.
  unfold bind at 1. rewrite triggerMacro_run.
  change (requests {| now := now st; requests := requests st;
                      reads := reads st; uuids := S (uuids st) |})
    with (requests st).
  fold (requestId_of w st). fold req. fold outcome. rewrite Hs.
  reflexivity.
Qed.

Lemma getClipboardResult_polled (w : World) (machine : MachineConfig)
    (u : string) (st : State) :
  Js.truthy (saveClipboardMacroUid machine) = Some u ->
  let req := trigger_request machine u (Some (requestId_of w st)) in
  let outcome :=
    outcome_of_reply machine u (network w (List.length (requests st)) req) in
  Outcome.success outcome = true ->
  let textPath := textPath_of w machine st in
  let imagePath := imagePath_of w machine st in
  let pt := poll_result w textPath (now st) 30 in
  let pi := poll_result w imagePath (now st) 30 in
  let st2 := set_now (Z.max (snd pt) (snd pi)) (sent req (drew st)) in
  getClipboardResult w machine st =
    if fst pi then
      (Ok match file w imagePath (now st2) with
          | Ok bytes => image_result imagePath bytes
          | Throw e =>
              clip_failure ("Failed to read image file: "
                            ++ error_message e "Unknown error")
          end,
       read imagePath st2)
    else if fst pt then
      (Ok match file w textPath (now st2) with
          | Ok bytes => text_result textPath bytes
          | Throw e =>
              clip_failure ("Failed to read text file: "
                            ++ error_message e "Unknown error")
          end,
       read textPath st2)
    else
      (Ok (clip_failure
             ("Clipboard save file not found. Expected: " ++ textPath
              ++ " or " ++ imagePath ++ ". Make sure the "
              ++ quoted "Save Clipboard to File"
              ++ " macro is installed and the outputDir is configured correctly.")),
       st2).
Proof.
  intros Hu req outcome Hs textPath imagePath pt pi st2.
  unfold getClipboardResult. rewrite Hu.
  unfold bind at 1. unfold crypto_randomUUID at 1.
  unfold bind at 1. rewrite triggerMacro_run.
  change (requests {| now := now st; requests := requests st;
                      reads := reads st; uuids := S (uuids st) |})
    with (requests st).
  fold (requestId_of w st). fold req. fold outcome. rewrite Hs.
  cbn [negb].
  fold (drew st).
  change (join w (getOutputDir w machine)
            ("clipsav_" ++ requestId_of w st ++ ".txt")) with textPath.
  change (join w (getOutputDir w machine)
            ("clipsav_" ++ requestId_of w st ++ ".png")) with imagePath.
  unfold bind at 1. unfold Promise_all2.
  rewrite !waitForFile_run, polls_3000.
  cbn [now set_now sent drew fst snd].
  fold pt pi.
  destruct (fst pi).
  - unfold try_catch, bind, readFile, ret. cbn [now].
    destruct (file w imagePath _); reflexivity.
  - destruct (fst pt).
    + unfold try_catch, bind, readFile, ret. cbn [now].
      destruct (file w textPath _); reflexivity.
    + reflexivity.
Qed.

(** C1, as the code has it.  The capture fails at once with the
    configuration message, the state untouched (no request is sent),
    when the machine's own [saveClipboardMacroUid] is absent or empty: the
    constant [SAVE_CLIPBOARD_MACRO_UID] does not stand in for it.  When the
    machine names the macro, the trigger request for that macro is sent
    whether or not [outputDir] is set, and an absent or empty [outputDir]
    is replaced by the Downloads directory of the home directory. *)
Theorem getClipboardResult_configuration (w : World) (machine : MachineConfig)
    (st : State) :
  (saveClipboardMacroUid machine = None
   \/ saveClipboardMacroUid machine = Some "" ->
   getClipboardResult w machine st
     = (Ok (clip_failure (not_configured_message machine)), st))
  /\ (forall u,
        saveClipboardMacroUid machine = Some u -> u <> "" ->
        requests (snd (getClipboardResult w machine st))
          = (requests st
             ++ [trigger_request machine u (Some (requestId_of w st))])%list)
  /\ (outputDir machine = None \/ outputDir machine = Some "" ->
      getOutputDir w machine = join w (homedir w) "Downloads").
Proof.
  split.
  { intros H. apply getClipboardResult_unconfigured. now apply truthy_none. }
  split.
  - intros u Hsome Hne.
    assert (Js.truthy (saveClipboardMacroUid machine) = Some u) as Hu
      by (now apply truthy_nonempty).
    destruct (Outcome.success
                (outcome_of_reply machine u
                   (network w (List.length (requests st))
                      (trigger_request machine u (Some (requestId_of w st))))))
      eqn:Hs.
    + rewrite (getClipboardResult_polled w machine u st Hu Hs).
      destruct (fst (poll_result w (imagePath_of w machine st) (now st) 30));
        [reflexivity |].
      destruct (fst (poll_result w (textPath_of w machine st) (now st) 30));
        reflexivity.
    + now rewrite (getClipboardResult_trigger_failed w machine u st Hu Hs).
  - intros H. apply truthy_none in H. unfold getOutputDir. now rewrite H.
Qed.

(** The machine that names no macro but has an [outputDir] gets the
    configuration message and sends nothing. *)
Lemma getClipboardResult_configuration_witness :
  getClipboardResult both_files_world shared_only initial_state
    = (Ok (clip_failure (not_configured_message shared_only)), initial_state).
Proof.
  apply (proj1 (getClipboardResult_configuration both_files_world shared_only
                  initial_state)).
  left. reflexivity.
Defined.

(** The claim C1 as the specification states it fails on [studio], whose
    [outputDir] is absent: the trigger request is sent and the capture
    succeeds from the Downloads directory.  It fails on [shared_only] too,
    for which the default identifier would be available: that machine gets
    the configuration message. *)
Lemma getClipboardResult_without_outputDir :
  outputDir studio = None
  /\ requests (snd (getClipboardResult both_files_world studio initial_state))
     = [trigger_request studio "37EE527B-036A-42FC-B341-DFFF8D5AAA8A"
          (Some "0f3a9c1e")]
  /\ fst (getClipboardResult both_files_world studio initial_state)
     = Ok (image_result studio_image [x50; x4e; x47]%byte)
  /\ outputDir shared_only = Some "/shared"
  /\ SAVE_CLIPBOARD_MACRO_UID = "D03AC8C4-56B0-4903-9682-8B2EC10576FC"
  /\ fst (getClipboardResult both_files_world shared_only initial_state)
     = Ok (clip_failure (not_configured_message shared_only)).
Proof.
  split; [reflexivity |].
  split; [vm_compute; reflexivity |].
  split; [vm_compute; reflexivity |].
  split; [reflexivity |].
  split; [reflexivity |].
  vm_compute; reflexivity.
Qed.

(** C9.  After a trigger answered with a status from 200 to 299 and a
    body that was read, when the image path is readable at one of the
    thirty polls, whatever the text path does, the text file
    is not read: the only file read is the image file, and the result is
    the image result (type image, the base64 of the bytes read, the image
    path) or, when that read fails, the failure to read the image.  And a
    result of type text means that the image path was readable at none of
    the polls. *)
Theorem image_takes_priority (w : World) (machine : MachineConfig)
    (u : string) (st : State) (response : Response) (b : string) :
  saveClipboardMacroUid machine = Some u -> u <> "" ->
  network w (List.length (requests st))
    (trigger_request machine u (Some (requestId_of w st))) = Ok response ->
  200 <= status response <= 299 ->
  body response = Ok b ->
  let imagePath := imagePath_of w machine st in
  let run := getClipboardResult w machine st in
  ((exists k, (k < 30)%nat
              /\ readable w imagePath (now st + 100 * Z.of_nat k) = true) ->
   exists t,
     now st <= t <= now st + 3000
     /\ reads (snd run) = (reads st ++ [imagePath])%list
     /\ fst run
        = Ok match file w imagePath t with
             | Ok bytes =>
                 {| Clipboard.success := true;
                    Clipboard.message := "Clipboard image retrieved successfully";
                    Clipboard.type := Some image;
                    Clipboard.content := Some (Js.base64 bytes);
                    Clipboard.filePath := Some imagePath |}
             | Throw e =>
                 clip_failure ("Failed to read image file: "
                               ++ error_message e "Unknown error")
             end)
  /\ (forall r,
        fst run = Ok r -> Clipboard.type r = Some text ->
        forall k, (k < 30)%nat ->
                  readable w imagePath (now st + 100 * Z.of_nat k) = false).
Proof.
  intros Hsome Hne Hreply Hstatus Hbody imagePath run. subst run.
  assert (Js.truthy (saveClipboardMacroUid machine) = Some u) as Hu
    by (now apply truthy_nonempty).
  assert (Outcome.success
            (outcome_of_reply machine u
               (network w (List.length (requests st))
                  (trigger_request machine u (Some (requestId_of w st)))))
          = true) as Hs.
  { rewrite Hreply. cbn [outcome_of_reply].
    rewrite (proj2 (ok_range response) Hstatus), Hbody. reflexivity. }
  rewrite (getClipboardResult_polled w machine u st Hu Hs).
  fold imagePath.
  set (textPath := textPath_of w machine st).
  pose proof (poll_result_true w imagePath 30 (now st)) as Himg.
  pose proof (poll_result_time_bounds w imagePath 30 (now st)) as Bi.
  pose proof (poll_result_time_bounds w textPath 30 (now st)) as Bt.
  remember (poll_result w imagePath (now st) 30) as pi eqn:Epi.
  remember (poll_result w textPath (now st) 30) as pt eqn:Ept.
  clear Epi Ept.
  destruct (fst pi) eqn:Ei.
  - split.
    + intros _. eexists. split; [| split; reflexivity].
      cbn [now set_now]. lia.
    + intros r Hr Ht. cbn [fst] in Hr.
      destruct (file w imagePath _);
        assert (Clipboard.type r = Some image \/ Clipboard.type r = None)
          as [X | X] by (injection Hr as <-; auto); congruence.
  - split.
    + intros Hex. apply Himg in Hex. discriminate Hex.
    + intros r _ _ k Hk.
      destruct (readable w imagePath (now st + 100 * Z.of_nat k)) eqn:Hr;
        [| reflexivity].
      assert (false = true) as X by (apply Himg; eauto).
      discriminate X.
Qed.

(** Both files are there: the result is the image. *)
Lemma image_takes_priority_witness :
  exists t,
    now initial_state <= t <= now initial_state + 3000
    /\ reads (snd (getClipboardResult both_files_world studio initial_state))
       = (reads initial_state ++ [imagePath_of both_files_world studio
                                    initial_state])%list
    /\ fst (getClipboardResult both_files_world studio initial_state)
       = Ok match file both_files_world
                    (imagePath_of both_files_world studio initial_state) t with
            | Ok bytes =>
                {| Clipboard.success := true;
                   Clipboard.message := "Clipboard image retrieved successfully";
                   Clipboard.type := Some image;
                   Clipboard.content := Some (Js.base64 bytes);
                   Clipboard.filePath :=
                     Some (imagePath_of both_files_world studio initial_state) |}
            | Throw e =>
                clip_failure ("Failed to read image file: "
                              ++ error_message e "Unknown error")
            end.
Proof.
  apply (proj1 (image_takes_priority both_files_world studio
                  "37EE527B-036A-42FC-B341-DFFF8D5AAA8A" initial_state
                  {| status := 200; body := Ok "" |} ""
                  eq_refl ltac:(discriminate) eq_refl
                  ltac:(cbn [status]; lia) eq_refl)).
  exists 0%nat. split; [lia | reflexivity].
Defined.

(** C2, at an input on which the code and the claim part.  The text file
    is readable from the start and the image file never comes.  The poll
    of the text path ends at once, the poll of the image path ends at the
    deadline, and the capture, which awaits both with [Promise.all], ends
    at 3000 ms with the text: the polling phase did not complete as soon
    as one candidate was readable. *)
Theorem polling_phase_awaits_both_polls :
  readable text_ready_world studio_text 0 = true
  /\ waitForFile text_ready_world studio_text 3000 initial_state
     = (Ok true, initial_state)
  /\ waitForFile text_ready_world studio_image 3000 initial_state
     = (Ok false, set_now 3000 initial_state)
  /\ fst (getClipboardResult text_ready_world studio initial_state)
     = Ok (text_result studio_text [x50; x4e; x47]%byte)
  /\ now (snd (getClipboardResult text_ready_world studio initial_state))
     = 3000.
Proof.
  split; [reflexivity |].
  split; [vm_compute; reflexivity |].
  split; [vm_compute; reflexivity |].
  split; vm_compute; reflexivity.
Qed.

(** [waitForFile] never throws and changes nothing but the clock.  It
    polls the path at the start and then every 100 ms while less than
    [timeoutMs] has passed.  It returns [true] exactly when one of these
    polls finds the path readable, and then at the instant of the first
    such poll: the path was readable at none of the polls before.  It
    returns [false], once the polls are spent, at the instant of the last
    poll plus 100 ms.  For 3000 ms that is thirty polls and a [false] at
    exactly 3000 ms. *)
Theorem waitForFile_polls (w : World) (path : string) (timeoutMs : Z)
    (st : State) :
  exists found t,
    waitForFile w path timeoutMs st = (Ok found, set_now t st)
    /\ (found = true <->
        exists k, (k < polls timeoutMs)%nat
                  /\ readable w path (now st + 100 * Z.of_nat k) = true)
    /\ (found = true ->
        exists k,
          (k < polls timeoutMs)%nat
          /\ t = now st + 100 * Z.of_nat k
          /\ readable w path (now st + 100 * Z.of_nat k) = true
          /\ forall j, (j < k)%nat ->
                       readable w path (now st + 100 * Z.of_nat j) = false)
    /\ (found = false -> t = now st + 100 * Z.of_nat (polls timeoutMs))
    /\ now st <= t <= now st + 100 * Z.of_nat (polls timeoutMs)
    /\ polls 3000 = 30%nat.
Proof.
  rewrite waitForFile_run. do 2 eexists. split; [reflexivity |].
  split; [apply poll_result_true |].
  split; [apply poll_result_first |].
  split; [apply poll_result_false_time |].
  split; [apply poll_result_time_bounds | reflexivity].
Qed.

(** The join of the two polls of a capture settles when both polls have:
    at the later of their two ends.  When the image path is readable at
    none of its polls the join settles at the deadline, whenever the text
    path became readable. *)
Theorem polling_phase_join (w : World) (textPath imagePath : string)
    (st : State) :
  exists textExists imageExists t_text t_image,
    waitForFile w textPath 3000 st = (Ok textExists, set_now t_text st)
    /\ waitForFile w imagePath 3000 st = (Ok imageExists, set_now t_image st)
    /\ Promise_all2 (waitForFile w textPath 3000) (waitForFile w imagePath 3000)
         st
       = (Ok (textExists, imageExists), set_now (Z.max t_text t_image) st)
    /\ ((forall k, (k < 30)%nat ->
                   readable w imagePath (now st + 100 * Z.of_nat k) = false) ->
        Z.max t_text t_image = now st + 3000).
Proof.
  unfold Promise_all2. rewrite !waitForFile_run, polls_3000.
  cbn [now set_now].
  do 4 eexists. split; [reflexivity |]. split; [reflexivity |].
  split; [reflexivity |].
  intros Hnever.
  pose proof (poll_result_time_bounds w textPath 30 (now st)) as Bt.
  pose proof (poll_result_true w imagePath 30 (now st)) as Hi.
  pose proof (poll_result_false_time w imagePath 30 (now st)) as Hf.
  destruct (fst (poll_result w imagePath (now st) 30)) eqn:E.
  - destruct (proj1 Hi eq_refl) as (k & Hk & Hr).
    rewrite (Hnever k Hk) in Hr. discriminate Hr.
  - rewrite (Hf eq_refl). lia.
Qed.

(** ** The machine registry *)

(** C7, as the code has it.  When [KM_MACHINES] is set to a string that
    is not empty and that [JSON.parse] rejects, or parses to a value that
    is not an array, [getMachines] returns the empty list and writes one
    diagnostic.  (The function is total: what [JSON.parse] or the
    callback of [map] throw is caught inside it.) *)
Theorem getMachines_malformed (JSON_parse : string -> completion jsval)
    (env : ProcessEnv) (s : string) :
  KM_MACHINES env = Some s -> s <> "" -> malformed JSON_parse s ->
  fst (getMachines JSON_parse env) = []
  /\ List.length (snd (getMachines JSON_parse env)) = 1%nat.
Proof.
  intros Hs Hne Hbad. unfold getMachines.
  rewrite (proj2 (truthy_nonempty (KM_MACHINES env) s) (conj Hs Hne)).
  destruct Hbad as [(e & He) | (v & Hv & Hnot)].
  - rewrite He. split; reflexivity.
  - rewrite Hv. destruct v; try (split; reflexivity).
    now contradiction (Hnot elements).
Qed.

(** The text of an empty object is not a list. *)
Lemma getMachines_malformed_witness :
  fst (getMachines sample_parse (list_env "{}")) = []
  /\ List.length (snd (getMachines sample_parse (list_env "{}"))) = 1%nat.
Proof.
  apply (getMachines_malformed sample_parse (list_env "{}") "{}").
  - reflexivity.
  - discriminate.
  - right. exists (Obj []). split; [reflexivity | discriminate].
Defined.

(** The claim C7 as the specification states it fails on the empty
    string, which is not valid JSON: [getMachines] takes an empty
    [KM_MACHINES] for an absent one and returns the machine of the flat
    variables, whatever [JSON.parse] would say of the string. *)
Lemma getMachines_empty_string :
  KM_MACHINES (list_env "") = Some ""
  /\ forall JSON_parse,
       malformed JSON_parse "" ->
       fst (getMachines JSON_parse (list_env ""))
         = [{| Raw.name := Str "default";
               Raw.host := Str "10.0.0.9";
               Raw.port := Number (Js.Num 4490);
               Raw.username := Str "km";
               Raw.password := Str "secret";
               Raw.secure := Bool false;
               Raw.outputDir := Undefined;
               Raw.saveClipboardMacroUid := Undefined |}].
Proof.
  split; [reflexivity | intros JSON_parse _; reflexivity].
Qed.

Lemma machine_of_object (props : list (string * jsval)) :
  exists r, machine_of (Obj props) = Ok r /\ built_from props r.
Proof.
  eexists. split; [reflexivity |].
  unfold built_from. cbn.
  repeat split.
  - intros H. now rewrite H.
  - intros p H Hp. rewrite H. unfold or_else. simpl.
    apply Z.eqb_neq in Hp. now rewrite Hp.
  - intros H. now rewrite H.
  - intros b H. now rewrite H.
  - intros n H Hn. rewrite H. unfold or_else. simpl.
    destruct n; [contradiction | reflexivity].
Qed.

Lemma map_throwing_objects (parsed : list jsval) :
  Forall (fun m => well_formed m = true) parsed ->
  exists machines,
    map_throwing machine_of parsed = Ok machines
    /\ Forall2 (fun m r => exists props, m = Obj props /\ built_from props r)
         parsed machines.
Proof.
  induction 1 as [|m parsed Hm _ (machines & Hmap & Hall)].
  - exists []. split; [reflexivity | constructor].
  - destruct m as [| | | | | |props]; try discriminate Hm.
    destruct (machine_of_object props) as (r & Hr & Hb).
    exists (r :: machines). split.
    + cbn [map_throwing]. rewrite Hr. cbn [rbind]. rewrite Hmap. reflexivity.
    + constructor; [exists props; auto | exact Hall].
Qed.

Lemma Forall2_nth_error {A B} (P : A -> B -> Prop) (l : list A) (l' : list B) :
  Forall2 P l l' ->
  forall i a, nth_error l i = Some a ->
              exists b, nth_error l' i = Some b /\ P a b.
Proof.
  induction 1 as [|x y l l' Hxy _ IH]; intros i a Hi.
  - destruct i; discriminate Hi.
  - destruct i as [|i]; simpl in *.
    + injection Hi as <-. eauto.
    + eauto.
Qed.

(** C8.  When [KM_MACHINES] holds the (non-empty) text of an array of
    well-formed machine objects, [getMachines] returns, without a diagnostic, one
    record per object, the record at each index built from the object at
    that index: the fields [host], [username], [password], [outputDir] and
    [saveClipboardMacroUid] as given, an omitted [port] filled with 4490,
    an omitted [secure] filled with [false], and a given (non-zero) port,
    a given flag and a given (non-empty) name kept. *)
Theorem getMachines_order_and_defaults
    (JSON_parse : string -> completion jsval) (env : ProcessEnv) (s : string)
    (parsed : list jsval) :
  KM_MACHINES env = Some s -> s <> "" ->
  JSON_parse s = Ok (Arr parsed) ->
  Forall (fun m => well_formed m = true) parsed ->
  exists machines,
    getMachines JSON_parse env = (machines, [])
    /\ List.length machines = List.length parsed
    /\ forall i m,
         nth_error parsed i = Some m ->
         exists props r,
           m = Obj props /\ nth_error machines i = Some r
           /\ built_from props r.
Proof.
  intros Hsome Hne Hparse Hwf.
  assert (Js.truthy (KM_MACHINES env) = Some s) as Hs
    by (now apply truthy_nonempty).
  destruct (map_throwing_objects parsed Hwf) as (machines & Hmap & Hall).
  exists machines. unfold getMachines. rewrite Hs, Hparse, Hmap.
  split; [reflexivity |].
  split; [symmetry; eapply Forall2_length; eauto |].
  intros i m Hi.
  destruct (Forall2_nth_error _ _ _ Hall i m Hi) as (r & Hr & props & -> & Hb).
  eauto.
Qed.

(** Two machines: the first one gets the port 4490 and the flag [false],
    the second one keeps its port 4492 and its flag [true]. *)
Lemma getMachines_order_and_defaults_witness :
  exists machines,
    getMachines sample_parse (list_env two_machines_json) = (machines, [])
    /\ List.length machines = List.length two_machines
    /\ forall i m,
         nth_error two_machines i = Some m ->
         exists props r,
           m = Obj props /\ nth_error machines i = Some r
           /\ built_from props r.
Proof.
  apply (getMachines_order_and_defaults sample_parse
           (list_env two_machines_json) two_machines_json two_machines).
  - reflexivity.
  - discriminate.
  - reflexivity.
  - repeat constructor.
Defined.

Example getMachines_two_machines :
  map (fun r => (Raw.name r, Raw.port r, Raw.secure r))
    (fst (getMachines sample_parse (list_env two_machines_json)))
  = [(Str "Studio", Number (Js.Num 4490), Bool false);
     (Str "Laptop", Number (Js.Num 4492), Bool true)].
Proof. vm_compute. reflexivity. Qed.

Lemma map_throwing_null (before after : list jsval) :
  Forall (fun m => well_formed m = true) before ->
  exists e, map_throwing machine_of (before ++ Null :: after) = Throw e.
Proof.
  induction 1 as [|m before Hm _ (e & IH)].
  - eexists. reflexivity.
  - destruct m as [| | | | | |props]; try discriminate Hm.
    destruct (machine_of_object props) as (r & Hr & _).
    exists e. cbn [app map_throwing]. rewrite Hr. cbn [rbind].
    now rewrite IH.
Qed.

(** An array that holds [null] after well-formed machine objects: reading
    a property of [null] throws inside the callback of [map], the [catch]
    of [getMachines] takes it, and the registry is empty, with one
    diagnostic. *)
Theorem getMachines_null_element (JSON_parse : string -> completion jsval)
    (env : ProcessEnv) (s : string) (before after : list jsval) :
  KM_MACHINES env = Some s -> s <> "" ->
  JSON_parse s = Ok (Arr (before ++ Null :: after)) ->
  Forall (fun m => well_formed m = true) before ->
  exists e,
    getMachines JSON_parse env = ([], [("Failed to parse KM_MACHINES:", Some e)]).
Proof.
  intros Hsome Hne Hparse Hwf.
  destruct (map_throwing_null before after Hwf) as (e & He).
  exists e. unfold getMachines.
  rewrite (proj2 (truthy_nonempty (KM_MACHINES env) s) (conj Hsome Hne)).
  now rewrite Hparse, He.
Qed.

Lemma getMachines_null_element_witness :
  exists e,
    getMachines sample_parse (list_env "[null]")
      = ([], [("Failed to parse KM_MACHINES:", Some e)]).
Proof.
  apply (getMachines_null_element sample_parse (list_env "[null]") "[null]"
           [] []).
  - reflexivity.
  - discriminate.
  - reflexivity.
  - constructor.
Defined.

(** ** The catalog reader *)

Lemma option_body_decoded (groupName : string) (macros : list Macro.t)
    (m : list string) :
  option_body groupName macros m
    = rbind (decode_option m)
        (fun o => Ok (if kept o then (macros ++ [entry groupName o])%list
                      else macros)).
Proof.
  unfold option_body, decode_option.
  destruct (decodeHtmlEntities (Js.trim (nth 0 m ""))) as [n | e];
    cbn [rbind]; [| reflexivity].
  unfold kept. cbn [fst snd].
  destruct (Js.nonempty n && Js.nonempty (nth 1 m "")); reflexivity.
Qed.

Lemma option_loop (groupName : string) (ms : list (list string))
    (macros : list Macro.t) :
  for_each_match (option_body groupName) ms macros
    = rbind (map_throwing decode_option ms)
        (fun options =>
           Ok (macros ++ group_entries (groupName, options))%list).
Proof.
  revert macros. induction ms as [|m ms IH]; intros macros.
  - simpl. unfold group_entries. simpl. now rewrite app_nil_r.
  - cbn [for_each_match map_throwing]. rewrite option_body_decoded.
    destruct (decode_option m) as [o | e]; cbn [rbind]; [| reflexivity].
    rewrite IH.
    destruct (map_throwing decode_option ms) as [opts | e]; cbn [rbind];
      [| reflexivity].
    unfold group_entries. cbn [fst snd filter].
    destruct (kept o); cbn [map]; [now rewrite <- app_assoc | reflexivity].
Qed.

Lemma optgroup_body_decoded (macros : list Macro.t) (gm : list string) :
  optgroup_body macros gm
    = rbind (decode_group gm)
        (fun g => Ok (macros ++ group_entries g)%list).
Proof.
  unfold optgroup_body, decode_group.
  destruct (decodeHtmlEntities (Js.trim (nth 0 gm ""))) as [g | e];
    cbn [rbind]; [| reflexivity].
  rewrite option_loop.
  destruct (map_throwing decode_option _); reflexivity.
Qed.

Lemma optgroup_loop (gms : list (list string)) (macros : list Macro.t) :
  for_each_match optgroup_body gms macros
    = rbind (map_throwing decode_group gms)
        (fun groups => Ok (macros ++ catalog_entries groups)%list).
Proof.
  revert macros. induction gms as [|gm gms IH]; intros macros.
  - simpl. now rewrite app_nil_r.
  - cbn [for_each_match map_throwing]. rewrite optgroup_body_decoded.
    destruct (decode_group gm) as [g | e]; cbn [rbind]; [| reflexivity].
    rewrite IH.
    destruct (map_throwing decode_group gms) as [groups | e]; cbn [rbind];
      [| reflexivity].
    unfold catalog_entries. cbn [flat_map]. now rewrite <- app_assoc.
Qed.

(** The two loops of the parser compute the catalog of the
    specification: the kept options of every group of the scanned region,
    in document order, with the decoded label of their group. *)
Lemma parse_macros_catalog (html : string) :
  parse_macros html
    = rbind (decoded_groups html) (fun groups => Ok (catalog_entries groups)).
Proof.
  unfold parse_macros, decoded_groups, scanned_region.
  now rewrite optgroup_loop.
Qed.

Lemma catalog_entries_fields (groups : list (string * list (string * string)))
    (e : Macro.t) :
  In e (catalog_entries groups) ->
  Macro.name e <> ""
  /\ exists uid groupName,
       Macro.uid e = Some uid /\ uid <> "" /\ Macro.group e = Some groupName
       /\ exists options, In (groupName, options) groups
                          /\ In (Macro.name e, uid) options.
Proof.
  unfold catalog_entries. rewrite in_flat_map.
  intros ((g & options) & Hg & He).
  unfold group_entries in He. cbn [fst snd] in He.
  apply in_map_iff in He as ((n & v) & <- & Hin).
  apply filter_In in Hin as (Hin & Hk).
  unfold kept in Hk. cbn [fst snd] in Hk.
  apply andb_true_iff in Hk as (Hn & Hv).
  cbn [entry Macro.name Macro.uid Macro.group fst snd].
  split; [destruct n; [discriminate Hn | discriminate] |].
  exists v, g. repeat split.
  - destruct v; [discriminate Hv | discriminate].
  - exists options. auto.
Qed.

(** On a 2xx response whose body was read, [listMacros] returns the
    catalog of the specification when every label of the scanned region
    decodes, and the connectivity failure with the message of the thrown
    error when one does not.  An entry of a returned catalog has a
    non-empty name, a non-empty uid, and the decoded label of the group
    its option stands in. *)
Theorem listMacros_catalog (w : World) (machine : MachineConfig) (st : State)
    (response : Response) (html : string) :
  network w (List.length (requests st)) (catalog_request machine) = Ok response ->
  ok response = true ->
  body response = Ok html ->
  fst (listMacros w machine st)
    = Ok match decoded_groups html with
         | Ok groups =>
             {| Listing.success := true;
                Listing.macros := Some (catalog_entries groups);
                Listing.message := None |}
         | Throw e =>
             {| Listing.success := false; Listing.macros := None;
                Listing.message :=
                  Some ("Failed to connect to " ++ name machine ++ " ("
                        ++ host machine ++ ":" ++ Js.show (port machine)
                        ++ "): " ++ error_message e "Unknown error occurred") |}
         end
  /\ forall groups e,
       decoded_groups html = Ok groups -> In e (catalog_entries groups) ->
       Macro.name e <> ""
       /\ exists uid groupName,
            Macro.uid e = Some uid /\ uid <> ""
            /\ Macro.group e = Some groupName
            /\ exists options, In (groupName, options) groups
                               /\ In (Macro.name e, uid) options.
Proof.
  intros Hr Hok Hb. split.
  - rewrite listMacros_run, Hr. cbn [fst listing_of_reply].
    rewrite Hok, Hb, parse_macros_catalog.
    destruct (decoded_groups html); reflexivity.
  - intros groups e _. apply catalog_entries_fields.
Qed.

(** The document of two groups of two options: four entries with their
    names, ids and groups, the entities decoded; the option without a
    value is not among them. *)
Lemma listMacros_catalog_witness :
  fst (listMacros (serving two_by_two_catalog) studio initial_state)
  = Ok {| Listing.success := true;
          Listing.macros :=
            Some [{| Macro.name := "Fish & Chips"; Macro.uid := Some "U1";
                     Macro.group := Some "Tools & Toys" |};
                  {| Macro.name := "Lock Screen"; Macro.uid := Some "U2";
                     Macro.group := Some "Tools & Toys" |};
                  {| Macro.name :=
                       "Caf" ++ String (Js.chr 195) (String (Js.chr 169) " <1>");
                     Macro.uid := Some "U3"; Macro.group := Some "Global" |};
                  {| Macro.name := "OCR"; Macro.uid := Some "U4";
                     Macro.group := Some "Global" |}];
          Listing.message := None |}.
Proof.
  exact (proj1 (listMacros_catalog (serving two_by_two_catalog) studio
                  initial_state {| status := 200; body := Ok two_by_two_catalog |}
                  two_by_two_catalog eq_refl eq_refl eq_refl)).
Defined.

(** C5, at an input on which the code and the claim part.  The catalog
    holds the option [Lock Screen] with the id [U1], which has a label and
    a value, and an option whose label is the decimal reference to
    1114112.  [String.fromCodePoint] throws on that number, the [catch]
    of [listMacros] takes the error for a failure of the connection, and
    no entry is returned. *)
Theorem listMacros_invalid_code_point :
  Js.exec_all optionRegex (option_tag "Lock Screen" "U1")
    = [["Lock Screen"; "U1"]]
  /\ decodeHtmlEntities "&#1114112;"
     = Throw (ErrorObj "RangeError" "Invalid code point 1114112")
  /\ fst (listMacros (serving out_of_range_catalog) studio initial_state)
     = Ok {| Listing.success := false; Listing.macros := None;
             Listing.message :=
               Some "Failed to connect to Studio (10.0.0.1:4490): Invalid code point 1114112" |}.
Proof.
  split; [vm_compute; reflexivity |].
  split; vm_compute; reflexivity.
Qed.

(** ** Further properties of the clipboard handoff *)

(** When the trigger call of a capture does not succeed, its failure is
    passed on behind a prefix; nothing is polled and nothing is read: the
    clock and the list of files read are as before. *)
Theorem getClipboardResult_trigger_failure (w : World)
    (machine : MachineConfig) (u : string) (st : State) :
  Js.truthy (saveClipboardMacroUid machine) = Some u ->
  let outcome :=
    outcome_of_reply machine u
      (network w (List.length (requests st))
         (trigger_request machine u (Some (requestId_of w st)))) in
  Outcome.success outcome = false ->
  fst (getClipboardResult w machine st)
    = Ok (clip_failure ("Failed to trigger Save Clipboard macro: "
                        ++ Outcome.message outcome))
  /\ now (snd (getClipboardResult w machine st)) = now st
  /\ reads (snd (getClipboardResult w machine st)) = reads st.
Proof.
  intros Hu outcome Hs.
  rewrite (getClipboardResult_trigger_failed w machine u st Hu Hs).
  repeat split.
Qed.

Lemma getClipboardResult_trigger_failure_witness :
  fst (getClipboardResult unauthorized_world studio initial_state)
    = Ok (clip_failure
            ("Failed to trigger Save Clipboard macro: "
             ++ Outcome.message
                  (outcome_of_reply studio
                     "37EE527B-036A-42FC-B341-DFFF8D5AAA8A"
                     (network unauthorized_world
                        (List.length (requests initial_state))
                        (trigger_request studio
                           "37EE527B-036A-42FC-B341-DFFF8D5AAA8A"
                           (Some (requestId_of unauthorized_world
                                    initial_state)))))))
  /\ now (snd (getClipboardResult unauthorized_world studio initial_state))
     = now initial_state
  /\ reads (snd (getClipboardResult unauthorized_world studio initial_state))
     = reads initial_state.
Proof.
  apply (getClipboardResult_trigger_failure unauthorized_world studio
           "37EE527B-036A-42FC-B341-DFFF8D5AAA8A" initial_state eq_refl
           eq_refl).
Defined.

(** After a successful trigger, when the image path is readable at none
    of the thirty polls: if the text path is readable at one of them the
    result is built from the text file, the only file read; if it is
    readable at none, the capture fails at the deadline with a message
    that names both candidate paths, and no file is read. *)
Theorem getClipboardResult_text_or_timeout (w : World)
    (machine : MachineConfig) (u : string) (st : State) :
  Js.truthy (saveClipboardMacroUid machine) = Some u ->
  Outcome.success
    (outcome_of_reply machine u
       (network w (List.length (requests st))
          (trigger_request machine u (Some (requestId_of w st))))) = true ->
  let textPath := textPath_of w machine st in
  let imagePath := imagePath_of w machine st in
  let run := getClipboardResult w machine st in
  (forall k, (k < 30)%nat ->
             readable w imagePath (now st + 100 * Z.of_nat k) = false) ->
  ((exists k, (k < 30)%nat
              /\ readable w textPath (now st + 100 * Z.of_nat k) = true) ->
   reads (snd run) = (reads st ++ [textPath])%list
   /\ now (snd run) = now st + 3000
   /\ fst run
      = Ok match file w textPath (now st + 3000) with
           | Ok bytes =>
               {| Clipboard.success := true;
                  Clipboard.message := "Clipboard text retrieved successfully";
                  Clipboard.type := Some text;
                  Clipboard.content := Some (Js.Buffer_toString bytes);
                  Clipboard.filePath := Some textPath |}
           | Throw e =>
               clip_failure ("Failed to read text file: "
                             ++ error_message e "Unknown error")
           end)
  /\ ((forall k, (k < 30)%nat ->
                 readable w textPath (now st + 100 * Z.of_nat k) = false) ->
      reads (snd run) = reads st
      /\ now (snd run) = now st + 3000
      /\ fst run
         = Ok (clip_failure
                 ("Clipboard save file not found. Expected: " ++ textPath
                  ++ " or " ++ imagePath ++ ". Make sure the "
                  ++ quoted "Save Clipboard to File"
                  ++ " macro is installed and the outputDir is configured correctly."))).
Proof.
  intros Hu Hs textPath imagePath run Hnever. subst run.
  rewrite (getClipboardResult_polled w machine u st Hu Hs).
  fold textPath imagePath.
  pose proof (poll_result_true w imagePath 30 (now st)) as Hi.
  pose proof (poll_result_false_time w imagePath 30 (now st)) as Hfi.
  pose proof (poll_result_true w textPath 30 (now st)) as Ht.
  pose proof (poll_result_false_time w textPath 30 (now st)) as Hft.
  pose proof (poll_result_time_bounds w textPath 30 (now st)) as Bt.
  remember (poll_result w imagePath (now st) 30) as pi eqn:Epi.
  remember (poll_result w textPath (now st) 30) as pt eqn:Ept.
  clear Epi Ept.
  destruct (fst pi) eqn:Ei.
  { destruct (proj1 Hi eq_refl) as (k & Hk & Hr).
    rewrite (Hnever k Hk) in Hr. discriminate Hr. }
  specialize (Hfi eq_refl).
  assert (Z.max (snd pt) (snd pi) = now st + 3000) as Hmax by lia.
  destruct (fst pt) eqn:Et.
  - split.
    + intros _. cbn [fst snd read reads now set_now]. rewrite Hmax.
      repeat split.
    + intros Hno. destruct (proj1 Ht eq_refl) as (k & Hk & Hr).
      rewrite (Hno k Hk) in Hr. discriminate Hr.
  - split.
    + intros Hex. apply Ht in Hex. discriminate Hex.
    + intros _. cbn [fst snd reads now set_now sent drew]. rewrite Hmax.
      repeat split.
Qed.

(** No file comes: the capture fails at 3000 ms, naming both paths. *)
Lemma getClipboardResult_text_or_timeout_witness :
  reads (snd (getClipboardResult no_file_world studio initial_state)) = []
  /\ now (snd (getClipboardResult no_file_world studio initial_state)) = 3000
  /\ fst (getClipboardResult no_file_world studio initial_state)
     = Ok (clip_failure
             ("Clipboard save file not found. Expected: "
              ++ textPath_of no_file_world studio initial_state
              ++ " or " ++ imagePath_of no_file_world studio initial_state
              ++ ". Make sure the " ++ quoted "Save Clipboard to File"
              ++ " macro is installed and the outputDir is configured correctly.")).
Proof.
  apply (proj2 (getClipboardResult_text_or_timeout no_file_world studio
                  "37EE527B-036A-42FC-B341-DFFF8D5AAA8A" initial_state
                  eq_refl eq_refl (fun _ _ => eq_refl))).
  intros k Hk. reflexivity.
Defined.

(** ** Looking a machine up *)

Section FindMachine.
Variable toLowerCase : string -> string.

Lemma find_first_split {A} (p : A -> bool) (l : list A) :
  match find p l with
  | Some x =>
      exists before after,
        l = (before ++ x :: after)%list /\ p x = true
        /\ forall y, In y before -> p y = false
  | None => forall y, In y l -> p y = false
  end.
Proof.
  induction l as [|a l IH]; cbn [find].
  - intros y [].
  - destruct (p a) eqn:Ha.
    + exists [], l. repeat split; [exact Ha | intros y []].
    + destruct (find p l) as [x |].
      * destruct IH as (before & after & -> & Hx & Hb).
        exists (a :: before), after. repeat split; [exact Hx |].
        intros y [<- | Hy]; auto.
      * intros y [<- | Hy]; auto.
Qed.

(** A name that is given and not empty selects the first machine, in
    registry order, whose name is the same when both are put in lower
    case: the machines before it all differ.  When every machine differs
    there is no result.  A name that is absent or empty selects the first
    machine of the registry, if there is one. *)
Theorem findMachine_first_match (machines : list MachineConfig) :
  (forall n,
     n <> "" ->
     match findMachine toLowerCase machines (Some n) with
     | Some m =>
         exists before after,
           machines = (before ++ m :: after)%list
           /\ toLowerCase (name m) = toLowerCase n
           /\ forall m', In m' before ->
                         toLowerCase (name m') <> toLowerCase n
     | None =>
         forall m, In m machines -> toLowerCase (name m) <> toLowerCase n
     end)
  /\ findMachine toLowerCase machines None = hd_error machines
  /\ findMachine toLowerCase machines (Some "") = hd_error machines.
Proof.
  split; [| split; destruct machines; reflexivity].
  intros n Hn. unfold findMachine.
  rewrite (proj2 (truthy_nonempty (Some n) n) (conj eq_refl Hn)).
  pose proof (find_first_split
                (fun m => String.eqb (toLowerCase (name m)) (toLowerCase n))
                machines) as H.
  destruct (find _ machines) as [m |].
  - destruct H as (before & after & -> & Hm & Hb).
    exists before, after. split; [reflexivity |].
    split; [now apply String.eqb_eq |].
    intros m' Hin. apply String.eqb_neq. now apply Hb.
  - intros m Hin. apply String.eqb_neq. now apply H.
Qed.

(** In a registry whose names are distinct when put in lower case, every
    machine is the one found under any spelling of its name that has the
    same lower case. *)
Theorem findMachine_own_name (machines : list MachineConfig)
    (m : MachineConfig) (n : string) :
  NoDup (map (fun m => toLowerCase (name m)) machines) ->
  In m machines ->
  n <> "" ->
  toLowerCase n = toLowerCase (name m) ->
  findMachine toLowerCase machines (Some n) = Some m.
Proof.
  intros Hnd Hin Hn Hlow. unfold findMachine.
  rewrite (proj2 (truthy_nonempty (Some n) n) (conj eq_refl Hn)).
  rewrite Hlow. clear n Hn Hlow.
  induction machines as [|a machines IH]; [contradiction |].
  cbn [find map] in *. inversion Hnd as [|x l Hnotin Hnd']; subst.
  destruct Hin as [-> | Hin].
  - now rewrite String.eqb_refl.
  - destruct (String.eqb_spec (toLowerCase (name a)) (toLowerCase (name m)))
      as [Heq | Hne].
    + exfalso. apply Hnotin. rewrite Heq.
      apply (in_map (fun m => toLowerCase (name m)) machines m Hin).
    + now apply IH.
Qed.

End FindMachine.

Lemma findMachine_first_match_witness :
  match findMachine ascii_lower mixed_case_registry (Some "laptop") with
  | Some m =>
      exists before after,
        mixed_case_registry = (before ++ m :: after)%list
        /\ ascii_lower (name m) = ascii_lower "laptop"
        /\ forall m', In m' before ->
                      ascii_lower (name m') <> ascii_lower "laptop"
  | None =>
      forall m, In m mixed_case_registry ->
                ascii_lower (name m) <> ascii_lower "laptop"
  end.
Proof.
  apply (proj1 (findMachine_first_match ascii_lower mixed_case_registry)
           "laptop").
  discriminate.
Defined.

Lemma findMachine_own_name_witness :
  findMachine ascii_lower three_machines (Some "MINI")
    = Some (machine_named "Mini" "10.0.0.3").
Proof.
  apply (findMachine_own_name ascii_lower three_machines
           (machine_named "Mini" "10.0.0.3") "MINI").
  - repeat constructor; simpl; intuition discriminate.
  - simpl. auto.
  - discriminate.
  - reflexivity.
Defined.

(** ** The failures of the catalog read, and [fetchUrl] *)

(** Whatever the network answers, [listMacros] completes normally.  A 401
    gives the authentication failure naming the machine; any other status
    outside 200-299 gives the failure naming the machine and the status; a
    failure of the transport, or of the reading of the body of a 2xx
    response, gives the connectivity failure naming the machine, its host
    and its port.  No failure carries a list of macros. *)
Theorem listMacros_outcomes (w : World) (machine : MachineConfig) (st : State) :
  let reply :=
    network w (List.length (requests st)) (catalog_request machine) in
  let run := listMacros w machine st in
  (exists listing, fst run = Ok listing)
  /\ (forall response,
        reply = Ok response -> status response = 401 ->
        fst run
          = Ok {| Listing.success := false; Listing.macros := None;
                  Listing.message :=
                    Some ("Authentication failed for " ++ name machine
                          ++ ". Check username/password.") |})
  /\ (forall response,
        reply = Ok response ->
        status response < 200 \/ 299 < status response ->
        status response <> 401 ->
        fst run
          = Ok {| Listing.success := false; Listing.macros := None;
                  Listing.message :=
                    Some ("Failed to fetch macros from " ++ name machine
                          ++ ": HTTP " ++ Js.show (status response)) |})
  /\ (forall e,
        reply = Throw e
        \/ (exists response,
              reply = Ok response /\ 200 <= status response <= 299
              /\ body response = Throw e) ->
        fst run
          = Ok {| Listing.success := false; Listing.macros := None;
                  Listing.message :=
                    Some ("Failed to connect to " ++ name machine ++ " ("
                          ++ host machine ++ ":" ++ Js.show (port machine)
                          ++ "): "
                          ++ error_message e "Unknown error occurred") |})
  /\ (forall listing,
        fst run = Ok listing -> Listing.success listing = false ->
        Listing.macros listing = None /\ Listing.message listing <> None).
Proof.
  intros reply run. subst reply run. rewrite listMacros_run. cbn [fst].
  split; [eexists; reflexivity |].
  split.
  { intros response Hr Hs. rewrite Hr. cbn [listing_of_reply].
    unfold ok. rewrite Hs. reflexivity. }
  split.
  { intros response Hr Hout H401. rewrite Hr. cbn [listing_of_reply].
    destruct (ok response) eqn:Hok; [apply ok_range in Hok; lia |].
    apply Z.eqb_neq in H401. now rewrite H401. }
  split.
  { intros e [Hr | (response & Hr & Hok & Hb)]; rewrite Hr;
      cbn [listing_of_reply]; [reflexivity |].
    rewrite (proj2 (ok_range response) Hok), Hb. reflexivity. }
  intros listing Hl Hs. injection Hl as <-.
  destruct (network w _ _) as [response | e]; cbn [listing_of_reply] in *.
  - destruct (ok response).
    + destruct (body response) as [html | e].
      * destruct (parse_macros html); [discriminate Hs |].
        split; [reflexivity | discriminate].
      * split; [reflexivity | discriminate].
    + destruct (status response =? 401); split;
        try reflexivity; discriminate.
  - split; [reflexivity | discriminate].
Qed.

Lemma listMacros_outcomes_witness :
  fst (listMacros (replying 401 "") studio initial_state)
    = Ok {| Listing.success := false; Listing.macros := None;
            Listing.message :=
              Some ("Authentication failed for " ++ name studio
                    ++ ". Check username/password.") |}.
Proof.
  apply (proj1 (proj2 (listMacros_outcomes (replying 401 "") studio
                         initial_state))
           {| status := 401; body := Ok "" |} eq_refl eq_refl).
Defined.

Section FetchUrl.
Variable w : World.
Variable headers_of : Response -> list (string * string).

(** [fetchUrl] sends one request, with the credentials of the machine, to
    the path itself when the path starts with http (whatever host it
    names), and else to the path appended to the base address, which
    follows the [secure] flag.  It returns any response as data, a 401 or
    a 500 as well as a 200, and it raises what the transport or the
    reading of the body throws: nothing is caught. *)
Theorem fetchUrl_passes_through (machine : MachineConfig) (path : string)
    (st : State) :
  let reply :=
    network w (List.length (requests st)) (fetch_request machine path) in
  let run := fetchUrl w headers_of machine path st in
  snd run = sent (fetch_request machine path) st
  /\ (forall response b,
        reply = Ok response -> body response = Ok b ->
        fst run = Ok {| Fetched.status := status response;
                        Fetched.headers := headers_of response;
                        Fetched.body := b |})
  /\ (forall e,
        reply = Throw e
        \/ (exists response, reply = Ok response /\ body response = Throw e) ->
        fst run = Throw e)
  /\ (String.prefix "http" path = true ->
      url (fetch_request machine path) = path)
  /\ (String.prefix "http" path = false ->
      url (fetch_request (with_secure (Some true) machine) path)
        = "https://" ++ host machine ++ ":" ++ Js.show (port machine + 1)
          ++ path
      /\ url (fetch_request (with_secure None machine) path)
        = "http://" ++ host machine ++ ":" ++ Js.show (port machine) ++ path).
Proof.
  intros reply run. subst reply run.
  unfold fetchUrl, bind, fetch, response_text, lift, ret.
  fold (fetch_request machine path).
  change {| now := now st;
            requests := (requests st ++ [fetch_request machine path])%list;
            reads := reads st; uuids := uuids st |}
    with (sent (fetch_request machine path) st).
  split.
  { destruct (network w _ _) as [response | e]; [| reflexivity].
    destruct (body response); reflexivity. }
  split.
  { intros response b Hr Hb. rewrite Hr. cbn. now rewrite Hb. }
  split.
  { intros e [Hr | (response & Hr & Hb)]; rewrite Hr; cbn; [reflexivity |].
    now rewrite Hb. }
  split.
  { intros Hp. unfold fetch_request. cbn [url]. now rewrite Hp. }
  intros Hp. unfold fetch_request. cbn [url]. rewrite Hp.
  unfold getBaseUrl. cbn. now rewrite !append_assoc.
Qed.

End FetchUrl.

(** An absolute address is fetched as it is, with the machine's
    credentials. *)
Lemma fetchUrl_passes_through_witness :
  url (fetch_request studio "http://example.org/x") = "http://example.org/x"
  /\ authorization (fetch_request studio "http://example.org/x")
     = "Basic a206c2VjcmV0".
Proof.
  split; [| reflexivity].
  apply (proj1 (proj2 (proj2 (proj2
           (fetchUrl_passes_through (replying 200 "") (fun _ => []) studio
              "http://example.org/x" initial_state))))).
  reflexivity.
Defined.

(** ** The tool handlers *)

Section Handlers.
Variable w : World.
Variable toLowerCase : string -> string.

Lemma findMachine_none (machines : list MachineConfig) (n : string) :
  n <> "" ->
  (forall m, In m machines -> toLowerCase (name m) <> toLowerCase n) ->
  findMachine toLowerCase machines (Some n) = None.
Proof.
  intros Hn Hall. unfold findMachine.
  rewrite (proj2 (truthy_nonempty (Some n) n) (conj eq_refl Hn)).
  pose proof (find_first_split
                (fun m => String.eqb (toLowerCase (name m)) (toLowerCase n))
                machines) as H.
  destruct (find _ machines) as [m |]; [| reflexivity].
  destruct H as (before & after & -> & Hm & _).
  apply String.eqb_eq in Hm. exfalso.
  apply (Hall m); [apply in_elt | exact Hm].
Qed.

(** A request for a machine whose name, in lower case, is the name of no
    machine of the registry has no effect at all: [trigger_macro],
    [get_clipboard_result] and [trigger_and_capture] send nothing, read
    nothing and wait for nothing, and answer with an error that repeats
    the name and lists the names of the registry. *)
Theorem unknown_machine_has_no_effect (machines : list MachineConfig)
    (n macro : string) (value : option string) (delay : option Z)
    (st : State) :
  n <> "" ->
  (forall m, In m machines -> toLowerCase (name m) <> toLowerCase n) ->
  let available := String.concat ", " (map name machines) in
  let text :=
    "Machine " ++ quoted n ++ " not found. Available machines: "
    ++ (if Js.nonempty available then available else "none configured") in
  trigger_macro w toLowerCase machines macro value (Some n) st
    = (Ok {| Tool.text := text; Tool.isError := true |}, st)
  /\ get_clipboard_result w toLowerCase machines (Some n) st
     = (Ok (tool_error text), st)
  /\ trigger_and_capture w toLowerCase machines macro value (Some n) delay st
     = (Ok (tool_error text), st).
Proof.
  intros Hn Hall available text.
  unfold trigger_macro, get_clipboard_result, trigger_and_capture.
  rewrite (findMachine_none machines n Hn Hall).
  unfold not_found_text.
  rewrite (proj2 (truthy_nonempty (Some n) n) (conj eq_refl Hn)).
  repeat split.
Qed.

Lemma capture_requests (machine : MachineConfig) (u : string) (st : State) :
  Js.truthy (saveClipboardMacroUid machine) = Some u ->
  requests (snd (getClipboardResult w machine st))
    = (requests st
       ++ [trigger_request machine u (Some (requestId_of w st))])%list
  /\ now st <= now (snd (getClipboardResult w machine st)).
Proof.
  intros Hu.
  destruct (Outcome.success
              (outcome_of_reply machine u
                 (network w (List.length (requests st))
                    (trigger_request machine u (Some (requestId_of w st))))))
    eqn:Hs.
  - rewrite (getClipboardResult_polled w machine u st Hu Hs).
    pose proof (poll_result_time_bounds w (imagePath_of w machine st) 30
                  (now st)) as Bi.
    pose proof (poll_result_time_bounds w (textPath_of w machine st) 30
                  (now st)) as Bt.
    remember (poll_result w (imagePath_of w machine st) (now st) 30) as pi.
    remember (poll_result w (textPath_of w machine st) (now st) 30) as pt.
    destruct (fst pi); [split; [reflexivity | cbn [snd read now set_now]; lia] |].
    destruct (fst pt); split; try reflexivity; cbn [snd read now set_now]; lia.
  - rewrite (getClipboardResult_trigger_failed w machine u st Hu Hs).
    split; [reflexivity | cbn [snd now sent drew]; lia].
Qed.

(** When the trigger of [trigger_and_capture] does not succeed, the
    handler stops there: it reports the failure of the trigger, and it has
    sent that one request only, drawn no token, read no file and waited
    for nothing. *)
Theorem trigger_and_capture_stops_on_failure (machines : list MachineConfig)
    (machine : MachineConfig) (macro : string)
    (value machineName : option string) (delay : option Z) (st : State) :
  findMachine toLowerCase machines machineName = Some machine ->
  let outcome :=
    outcome_of_reply machine macro
      (network w (List.length (requests st))
         (trigger_request machine macro value)) in
  Outcome.success outcome = false ->
  trigger_and_capture w toLowerCase machines macro value machineName delay st
    = (Ok (tool_error ("Failed to trigger macro: " ++ Outcome.message outcome)),
       {| now := now st;
          requests := (requests st ++ [trigger_request machine macro value])%list;
          reads := reads st;
          uuids := uuids st |}).
Proof.
  intros Hfind outcome Hs. unfold trigger_and_capture. rewrite Hfind.
  unfold bind at 1. rewrite triggerMacro_run. fold outcome. rewrite Hs.
  reflexivity.
Qed.

(** When the trigger of [trigger_and_capture] succeeds, the handler waits
    for the delay of its timer (the delay given, 500 ms when none is given,
    1 ms when the delay given is below 1 or above 2147483647) and then
    captures.  A machine that names no Save Clipboard macro is
    found out only then: the macro has run and the delay has passed when
    the configuration message comes back.  A machine that names one gets a
    second request, for that macro, after the first, and the capture does
    not end before the delay has passed. *)
Theorem trigger_and_capture_settles_then_captures
    (machines : list MachineConfig) (machine : MachineConfig) (macro : string)
    (value machineName : option string) (delay : option Z) (st : State) :
  findMachine toLowerCase machines machineName = Some machine ->
  Outcome.success
    (outcome_of_reply machine macro
       (network w (List.length (requests st))
          (trigger_request machine macro value))) = true ->
  let run :=
    trigger_and_capture w toLowerCase machines macro value machineName delay
      st in
  (saveClipboardMacroUid machine = None
   \/ saveClipboardMacroUid machine = Some "" ->
   run = (Ok (tool_error
                ("Macro triggered successfully, but clipboard capture failed: "
                 ++ not_configured_message machine)),
          {| now := now st + settle_delay delay;
             requests :=
               (requests st ++ [trigger_request machine macro value])%list;
             reads := reads st;
             uuids := uuids st |}))
  /\ (forall u,
        saveClipboardMacroUid machine = Some u -> u <> "" ->
        requests (snd run)
          = (requests st
             ++ [trigger_request machine macro value;
                 trigger_request machine u (Some (requestId_of w st))])%list
        /\ now st + settle_delay delay <= now (snd run)).
Proof.
  intros Hfind Hs run. subst run. unfold trigger_and_capture. rewrite Hfind.
  unfold bind, setTimeout, sleep. rewrite triggerMacro_run. cbv beta iota.
  rewrite Hs. cbn [negb]. fold (settle_delay delay).
  set (st1 := set_now _ _).
  split.
  - intros Hnone. apply truthy_none in Hnone.
    rewrite (getClipboardResult_unconfigured w machine st1 Hnone).
    reflexivity.
  - intros u Hsome Hne.
    assert (Js.truthy (saveClipboardMacroUid machine) = Some u) as Hu
      by (now apply truthy_nonempty).
    destruct (capture_requests machine u st1 Hu) as (Hreq & Hnow).
    destruct (getClipboardResult w machine st1) as [[result | e] st2] eqn:Hrun;
      cbn [snd] in Hreq, Hnow.
    + assert (requests st2
              = (requests st
                 ++ [trigger_request machine macro value;
                     trigger_request machine u (Some (requestId_of w st))])%list
              /\ now st + settle_delay delay <= now st2) as Hgoal.
      { split; [| exact Hnow].
        rewrite Hreq. subst st1. cbn [requests set_now sent].
        rewrite <- app_assoc. reflexivity. }
      destruct (negb (Clipboard.success result)); [exact Hgoal |].
      destruct (is_image (Clipboard.type result)); exact Hgoal.
    + cbn [snd]. split; [| exact Hnow].
      rewrite Hreq. subst st1. cbn [requests set_now sent].
      rewrite <- app_assoc. reflexivity.
Qed.

End Handlers.

Lemma unknown_machine_has_no_effect_witness :
  trigger_macro second_call_fails ascii_lower mixed_case_registry "Shot" None
    (Some "Mini") initial_state
  = (Ok {| Tool.text :=
             "Machine " ++ quoted "Mini"
             ++ " not found. Available machines: Studio, Laptop, LAPTOP";
           Tool.isError := true |},
     initial_state).
Proof.
  refine (proj1 (unknown_machine_has_no_effect second_call_fails ascii_lower
                   mixed_case_registry "Mini" "Shot" None None initial_state
                   _ _)).
  - discriminate.
  - intros m [<- | [<- | [<- | []]]]; discriminate.
Defined.

Lemma trigger_and_capture_stops_on_failure_witness :
  trigger_and_capture unauthorized_world ascii_lower [studio] "Shot" None None
    (Some 200) initial_state
  = (Ok (tool_error
           "Failed to trigger macro: Authentication failed for Studio. Check username/password."),
     {| now := 0;
        requests := [trigger_request studio "Shot" None];
        reads := [];
        uuids := 0 |}).
Proof.
  exact (trigger_and_capture_stops_on_failure unauthorized_world ascii_lower
           [studio] studio "Shot" None None (Some 200) initial_state
           eq_refl eq_refl).
Defined.

Lemma trigger_and_capture_settles_then_captures_witness :
  let run :=
    trigger_and_capture both_files_world ascii_lower [studio] "Shot" None None
      (Some 200) initial_state in
  requests (snd run)
  = [trigger_request studio "Shot" None;
     trigger_request studio "37EE527B-036A-42FC-B341-DFFF8D5AAA8A"
       (Some "0f3a9c1e")]
  /\ 200 <= now (snd run).
Proof.
  refine (proj2 (trigger_and_capture_settles_then_captures both_files_world
                   ascii_lower [studio] studio "Shot" None None (Some 200)
                   initial_state eq_refl eq_refl) _ eq_refl _).
  discriminate.
Defined.

(** ** The registry, beyond well-formed lists *)

Lemma or_else_truthy (v d : jsval) :
  truthy_val d = true -> truthy_val (or_else v d) = true.
Proof.
  intros Hd. unfold or_else. destruct (truthy_val v) eqn:Hv; assumption.
Qed.

Lemma nullish_defined (v d : jsval) :
  d <> Undefined -> d <> Null ->
  nullish v d <> Undefined /\ nullish v d <> Null.
Proof.
  intros H1 H2. destruct v; cbn [nullish]; split; auto; discriminate.
Qed.

Lemma machine_of_defined (m : jsval) :
  m <> Null -> m <> Undefined ->
  exists r, machine_of m = Ok r /\ defaults_applied r
            /\ ((forall props, m <> Obj props) -> r = blank_machine).
Proof.
  intros Hnull Hundef.
  destruct m as [| | b | n | s | l | props]; try contradiction;
    try (exists blank_machine; split; [reflexivity |];
         split; [repeat split; discriminate | reflexivity]).
  eexists. split; [reflexivity |]. split.
  - unfold defaults_applied. cbn [Raw.name Raw.port Raw.secure].
    split; [apply or_else_truthy; reflexivity |].
    split; [apply or_else_truthy; reflexivity |].
    apply nullish_defined; discriminate.
  - intros H. now contradiction (H props).
Qed.

Lemma map_throwing_defined (parsed : list jsval) :
  Forall (fun m => m <> Null /\ m <> Undefined) parsed ->
  exists machines,
    map_throwing machine_of parsed = Ok machines
    /\ Forall2 (fun m r => defaults_applied r
                           /\ ((forall props, m <> Obj props) ->
                               r = blank_machine))
         parsed machines.
Proof.
  induction 1 as [|m parsed (Hnull & Hundef) _ (machines & Hmap & Hall)].
  - exists []. split; [reflexivity | constructor].
  - destruct (machine_of_defined m Hnull Hundef) as (r & Hr & Hd).
    exists (r :: machines). split.
    + cbn [map_throwing]. rewrite Hr. cbn [rbind]. rewrite Hmap. reflexivity.
    + constructor; assumption.
Qed.

(** The list form checks nothing but that the text is an array none of
    whose elements is [null]: every such array gives one record for each
    element, in order, and no diagnostic.  Each record has a name and a
    port that are truthy and a [secure] that is defined, and nothing is
    known of its other fields; an element that is not an object (a number,
    a string, a boolean, an array) gives the machine [unnamed] on port
    4490, whose host, user name and password are [undefined]. *)
Theorem getMachines_unvalidated (JSON_parse : string -> completion jsval)
    (env : ProcessEnv) (s : string) (parsed : list jsval) :
  KM_MACHINES env = Some s -> s <> "" ->
  JSON_parse s = Ok (Arr parsed) ->
  Forall (fun m => m <> Null /\ m <> Undefined) parsed ->
  exists machines,
    getMachines JSON_parse env = (machines, [])
    /\ List.length machines = List.length parsed
    /\ Forall defaults_applied machines
    /\ forall i m,
         nth_error parsed i = Some m -> (forall props, m <> Obj props) ->
         nth_error machines i = Some blank_machine.
Proof.
  intros Hsome Hne Hparse Hdef.
  destruct (map_throwing_defined parsed Hdef) as (machines & Hmap & Hall).
  exists machines. unfold getMachines.
  rewrite (proj2 (truthy_nonempty (KM_MACHINES env) s) (conj Hsome Hne)).
  rewrite Hparse, Hmap.
  split; [reflexivity |].
  split; [symmetry; eapply Forall2_length; eauto |].
  split.
  - clear Hmap Hdef Hparse.
    induction Hall as [|m r l l' Hd _ IH]; [constructor |].
    constructor; [exact (proj1 Hd) | exact IH].
  - intros i m Hi Hnot.
    destruct (Forall2_nth_error _ _ _ Hall i m Hi) as (r & Hr & _ & Hblank).
    rewrite Hr. f_equal. now apply Hblank.
Qed.

Lemma getMachines_unvalidated_witness :
  exists machines,
    getMachines scalars_parse (list_env "[7,{}]") = (machines, [])
    /\ List.length machines = 2%nat
    /\ Forall defaults_applied machines
    /\ forall i m,
         nth_error [Number (Js.Num 7); Obj []] i = Some m ->
         (forall props, m <> Obj props) ->
         nth_error machines i = Some blank_machine.
Proof.
  apply (getMachines_unvalidated scalars_parse (list_env "[7,{}]") "[7,{}]"
           [Number (Js.Num 7); Obj []]).
  - reflexivity.
  - discriminate.
  - reflexivity.
  - repeat constructor; discriminate.
Defined.

Lemma typed_uid (r : Raw.t) (machine : MachineConfig) :
  typed r = Some machine ->
  Raw.name r = Str (name machine)
  /\ optional_string (Raw.saveClipboardMacroUid r)
     = Some (saveClipboardMacroUid machine).
Proof.
  unfold typed. intros H.
  destruct (Raw.name r); try discriminate H.
  destruct (Raw.host r); try discriminate H.
  destruct (Raw.port r) as [| | | [p |] | | |]; try discriminate H.
  destruct (Raw.username r); try discriminate H.
  destruct (Raw.password r); try discriminate H.
  destruct (optional_boolean (Raw.secure r)); try discriminate H.
  destruct (optional_string (Raw.outputDir r)); try discriminate H.
  destruct (optional_string (Raw.saveClipboardMacroUid r)); try discriminate H.
  injection H as <-. split; reflexivity.
Qed.

(** The flat form, read when [KM_MACHINES] is unset or empty, writes no
    diagnostic and gives at most one machine: none as soon as one of
    [KM_HOST], [KM_USERNAME] and [KM_PASSWORD] is unset or empty, else the
    machine [default].  That machine names no Save Clipboard macro, so a
    clipboard capture on it ends with the configuration message, without a
    request. *)
Theorem getMachines_flat_form (JSON_parse : string -> completion jsval)
    (env : ProcessEnv) :
  KM_MACHINES env = None \/ KM_MACHINES env = Some "" ->
  let machines := fst (getMachines JSON_parse env) in
  snd (getMachines JSON_parse env) = []
  /\ (List.length machines <= 1)%nat
  /\ (machines = []
      <-> Js.truthy (KM_HOST env) = None
          \/ Js.truthy (KM_USERNAME env) = None
          \/ Js.truthy (KM_PASSWORD env) = None)
  /\ forall r machine,
       In r machines -> typed r = Some machine ->
       name machine = "default"
       /\ forall w st,
            getClipboardResult w machine st
            = (Ok (clip_failure (not_configured_message machine)), st).
Proof.
  intros Hflat machines. subst machines. apply truthy_none in Hflat.
  unfold getMachines. rewrite Hflat.
  destruct (Js.truthy (KM_HOST env)) as [host |];
    [destruct (Js.truthy (KM_USERNAME env)) as [username |];
     [destruct (Js.truthy (KM_PASSWORD env)) as [password |] | ] | ];
    cbn [fst snd List.length];
    (split; [reflexivity |]); (split; [lia |]);
    (split; [split; [try discriminate; auto | ] | ]).
  - intros [H | [H | H]]; discriminate H.
  - intros r machine [<- | []] Htyped.
    apply typed_uid in Htyped. cbn in Htyped.
    destruct Htyped as (Hname & Huid).
    injection Hname as Hname. injection Huid as Huid.
    split; [now symmetry |].
    intros w st. apply getClipboardResult_unconfigured.
    now rewrite <- Huid.
  - reflexivity.
  - intros r machine [].
  - reflexivity.
  - intros r machine [].
  - reflexivity.
  - intros r machine [].
Qed.

Lemma getMachines_flat_form_witness :
  getClipboardResult both_files_world
    {| name := "default"; host := "10.0.0.9"; port := 4490; username := "km";
       password := "secret"; secure := Some true; outputDir := None;
       saveClipboardMacroUid := None |} initial_state
  = (Ok (clip_failure
           (not_configured_message
              {| name := "default"; host := "10.0.0.9"; port := 4490;
                 username := "km"; password := "secret"; secure := Some true;
                 outputDir := None; saveClipboardMacroUid := None |})),
     initial_state).
Proof.
  refine (proj2 (proj2 (proj2 (proj2 (getMachines_flat_form sample_parse
                                        flat_env (or_introl eq_refl))))
                   _ _ (or_introl eq_refl) eq_refl)
            both_files_world initial_state).
Defined.

(** ** What the patterns can take from a text *)

Section Substrings.
(** A character that the text does not hold. *)
Variable bad : ascii.

Lemma occurs_app (s t : string) :
  occurs bad (s ++ t) = occurs bad s || occurs bad t.
Proof.
  induction s as [|a s IH]; simpl; [reflexivity |].
  now rewrite IH, orb_assoc.
Qed.

Lemma occurs_rev (s acc : string) :
  occurs bad (Js.rev_string s acc) = occurs bad s || occurs bad acc.
Proof.
  revert acc. induction s as [|a s IH]; intros acc; simpl; [reflexivity |].
  rewrite IH. simpl. 
  destruct (Ascii.eqb bad a), (occurs bad s), (occurs bad acc); reflexivity.
Qed.

Lemma occurs_tail (a : ascii) (s : string) :
  occurs bad (String a s) = false ->
  Ascii.eqb bad a = false /\ occurs bad s = false.
Proof. simpl. apply orb_false_iff. Qed.

Lemma occurs_slice0 (n : nat) (s : string) :
  occurs bad s = false -> occurs bad (Js.slice0 n s) = false.
Proof.
  revert n. induction s as [|a s IH]; intros [|n] H; try reflexivity.
  apply occurs_tail in H as (Ha & Hs). simpl. rewrite Ha. now apply IH.
Qed.

Lemma occurs_strip (ci : bool) (l s s' : string) :
  Js.strip ci l s = Some s' -> occurs bad s = false -> occurs bad s' = false.
Proof.
  revert s. induction l as [|a l IH]; intros [|b s] H Hs; simpl in H;
    try discriminate H; try (injection H as <-; exact Hs).
  destruct (Js.char_eq ci a b); [| discriminate H].
  apply occurs_tail in Hs as (_ & Hs). eauto.
Qed.

Lemma occurs_trimStart_from (s : string) (skip : nat) :
  occurs bad s = false -> occurs bad (Js.trimStart_from skip s) = false.
Proof.
  revert skip. induction s as [|a s IH]; intros skip H.
  - destruct skip; reflexivity.
  - pose proof (proj2 (occurs_tail a s H)) as Hs.
    destruct skip as [|n]; cbn [Js.trimStart_from]; [| now apply IH].
    destruct (Js.space_len (String a s)); [exact H | now apply IH].
Qed.

Lemma occurs_trimEnd_from (s : string) (skip : nat) :
  occurs bad s = false -> occurs bad (Js.trimEnd_from skip s) = false.
Proof.
  revert skip. induction s as [|a s IH]; intros skip H.
  - destruct skip; reflexivity.
  - pose proof (proj2 (occurs_tail a s H)) as Hs.
    destruct skip as [|n]; cbn [Js.trimEnd_from]; [| now apply IH].
    destruct (Js.space_len_rev (String a s)); [exact H | now apply IH].
Qed.

Lemma occurs_trim (s : string) :
  occurs bad s = false -> occurs bad (Js.trim s) = false.
Proof.
  intros H. unfold Js.trim, Js.trimStart.
  rewrite occurs_rev, orb_false_r.
  apply occurs_trimEnd_from.
  rewrite occurs_rev, orb_false_r.
  now apply occurs_trimStart_from.
Qed.

Lemma greedy_within {R : Type} (c : Js.cclass)
    (k : string -> string -> option R) (P : R -> Prop) :
  (forall t s' r,
     occurs bad t = false -> occurs bad s' = false -> k t s' = Some r -> P r) ->
  forall s acc r,
    occurs bad acc = false -> occurs bad s = false ->
    Js.greedy c k acc s = Some r -> P r.
Proof.
  intros Hk. induction s as [|a s IH]; intros acc r Hacc Hs H; simpl in H.
  - eauto.
  - destruct (Js.in_class c a); [| eauto].
    destruct (Js.greedy c k (acc ++ String a "") s) as [r' |] eqn:Hg; [| eauto].
    injection H as <-.
    apply occurs_tail in Hs as (Ha & Hs).
    apply (IH (acc ++ String a "") r'); auto.
    rewrite occurs_app, Hacc. simpl. now rewrite Ha.
Qed.

Lemma lazy_within {R : Type} (c : Js.cclass)
    (k : string -> string -> option R) (P : R -> Prop) :
  (forall t s' r,
     occurs bad t = false -> occurs bad s' = false -> k t s' = Some r -> P r) ->
  forall s acc r,
    occurs bad acc = false -> occurs bad s = false ->
    Js.lazy c k acc s = Some r -> P r.
Proof.
  intros Hk. induction s as [|a s IH]; intros acc r Hacc Hs H; simpl in H.
  - destruct (k acc "") as [r' |] eqn:Hr; [| discriminate H].
    injection H as <-. eauto.
  - destruct (k acc (String a s)) as [r' |] eqn:Hr.
    + injection H as <-. eauto.
    + destruct (Js.in_class c a); [| discriminate H].
      apply occurs_tail in Hs as (Ha & Hs).
      apply (IH (acc ++ String a "") r); auto.
      rewrite occurs_app, Hacc. simpl. now rewrite Ha.
Qed.

(** The captures of a match and the text left after it are made of
    characters of the text. *)
Lemma run_within (ci : bool) (p : list Js.item) :
  forall caps s r,
    Forall (fun t => occurs bad t = false) caps -> occurs bad s = false ->
    Js.run ci p caps s = Some r ->
    Forall (fun t => occurs bad t = false) (fst r)
    /\ occurs bad (snd r) = false.
Proof.
  induction p as [|[l | q c cap] p IH]; intros caps s r Hcaps Hs H;
    cbn [Js.run] in H.
  - injection H as <-. auto.
  - destruct (Js.strip ci l s) as [s' |] eqn:Hl; [| discriminate H].
    apply (IH caps s' r); auto. eapply occurs_strip; eauto.
  - assert (forall t s' r',
              occurs bad t = false -> occurs bad s' = false ->
              Js.run ci p (if cap then (caps ++ [t])%list else caps) s'
                = Some r' ->
              Forall (fun t => occurs bad t = false) (fst r')
              /\ occurs bad (snd r') = false) as Hk.
    { intros t s' r' Ht Hs' Hr. eapply IH; [| exact Hs' | exact Hr].
      destruct cap; [| exact Hcaps].
      apply Forall_app. split; [exact Hcaps | now constructor]. }
    set (P := fun r' : list string * string =>
                Forall (fun t => occurs bad t = false) (fst r')
                /\ occurs bad (snd r') = false) in *.
    destruct q.
    + exact (greedy_within c _ P Hk s "" r eq_refl Hs H).
    + destruct s as [|a s]; [discriminate H |].
      destruct (Js.in_class c a); [| discriminate H].
      apply occurs_tail in Hs as (Ha & Hs).
      refine (greedy_within c _ P Hk s (String a "") r _ Hs H).
      simpl. now rewrite Ha.
    + exact (lazy_within c _ P Hk s "" r eq_refl Hs H).
Qed.

Lemma match_here_within (re : Js.regex) (s : string) (caps : list string)
    (n : nat) :
  occurs bad s = false -> Js.match_here re s = Some (caps, n) ->
  Forall (fun t => occurs bad t = false) caps.
Proof.
  intros Hs H. unfold Js.match_here in H.
  destruct (Js.run (Js.ignoreCase re) (Js.items re) [] s) as [[caps' rest] |]
    eqn:Hr; [| discriminate H].
  injection H as <- _.
  exact (proj1 (run_within _ _ [] s (caps', rest) (Forall_nil _) Hs Hr)).
Qed.

Lemma exec_all_within (re : Js.regex) (s : string) :
  occurs bad s = false ->
  Forall (Forall (fun t => occurs bad t = false)) (Js.exec_all re s).
Proof.
  unfold Js.exec_all. generalize 0%nat as skip.
  induction s as [|a s IH]; intros skip Hs.
  - destruct skip; constructor.
  - pose proof (proj2 (occurs_tail a s Hs)) as Hs'.
    destruct skip as [|n]; cbn [Js.exec_all_from]; [| now apply IH].
    destruct (Js.match_here re (String a s)) as [[caps n] |] eqn:Hm;
      [| now apply IH].
    constructor; [exact (match_here_within re _ caps n Hs Hm) | now apply IH].
Qed.

Lemma first_match_within (re : Js.regex) (s m : string) :
  occurs bad s = false -> Js.first_match re s = Some m ->
  occurs bad m = false.
Proof.
  revert m. induction s as [|a s IH]; intros m Hs H; cbn [Js.first_match] in H.
  - destruct (Js.match_here re "") as [[caps n] |]; [| discriminate H].
    injection H as <-. now destruct n.
  - destruct (Js.match_here re (String a s)) as [[caps n] |].
    + injection H as <-. now apply occurs_slice0.
    + apply IH; [exact (proj2 (occurs_tail a s Hs)) | exact H].
Qed.

Lemma strip_literal (l s s' : string) :
  Js.strip false l s = Some s' -> occurs bad l = true -> occurs bad s = true.
Proof.
  revert s. induction l as [|a l IH]; intros [|b s] H Hl; simpl in *;
    try discriminate.
  destruct (Ascii.eqb a b) eqn:Hab; [| discriminate H].
  apply Ascii.eqb_eq in Hab as <-.
  destruct (Ascii.eqb bad a); [reflexivity |]. simpl in *. eauto.
Qed.

(** A pattern that starts with a literal holding the character matches
    nowhere in the text, and replacing its matches leaves the text as it
    is. *)
Lemma replace_without_match (re : Js.regex) (l : string) (p : list Js.item)
    (f : list string -> completion string) (s : string) :
  Js.items re = Js.Lit l :: p -> Js.ignoreCase re = false ->
  occurs bad l = true ->
  occurs bad s = false -> Js.replace re f s = Ok s.
Proof.
  intros Hitems Hci Hl.
  assert (forall t, occurs bad t = false -> Js.match_here re t = None) as Hnone.
  { intros t Ht. unfold Js.match_here. rewrite Hitems, Hci. cbn [Js.run].
    destruct (Js.strip false l t) as [t' |] eqn:Hs; [| reflexivity].
    rewrite (strip_literal l t t' Hs Hl) in Ht. discriminate Ht. }
  unfold Js.replace. induction s as [|a s IH]; intros Hs;
    cbn [Js.replace_from]; rewrite (Hnone _ Hs); [reflexivity |].
  rewrite (IH (proj2 (occurs_tail a s Hs))). reflexivity.
Qed.

End Substrings.

Lemma replace_lit_returns (lit by_ s : string) :
  exists t, Js.replace_lit lit by_ s = Ok t.
Proof.
  unfold Js.replace_lit, Js.replace. generalize 0%nat as skip.
  induction s as [|a s IH]; intros skip.
  - destruct skip; cbn [Js.replace_from]; [| eauto].
    destruct (Js.match_here _ "") as [[caps n] |]; eauto.
  - destruct skip as [|n]; cbn [Js.replace_from]; [| apply IH].
    destruct (Js.match_here _ (String a s)) as [[caps n] |]; cbn [rbind].
    + destruct (IH (Nat.pred n)) as (t & ->). cbn [rbind]. eauto.
    + destruct (IH 0%nat) as (t & ->). cbn [rbind]. eauto.
Qed.

Lemma decodeHtmlEntities_returns (text : string) :
  occurs "#" text = false -> exists t, decodeHtmlEntities text = Ok t.
Proof.
  intros H. unfold decodeHtmlEntities.
  rewrite (replace_without_match "#" re_decimal_entity "&#" _ _ text
             eq_refl eq_refl eq_refl H).
  cbn [rbind].
  rewrite (replace_without_match "#" re_hex_entity "&#x" _ _ text
             eq_refl eq_refl eq_refl H).
  cbn [rbind].
  destruct (replace_lit_returns "&amp;" "&" text) as (t3 & ->). cbn [rbind].
  destruct (replace_lit_returns "&lt;" "<" t3) as (t4 & ->). cbn [rbind].
  destruct (replace_lit_returns "&gt;" ">" t4) as (t5 & ->). cbn [rbind].
  destruct (replace_lit_returns "&quot;" Js.dq t5) as (t6 & ->). cbn [rbind].
  apply replace_lit_returns.
Qed.

Lemma replace_lit_without (bad : ascii) (lit by_ s : string) :
  occurs bad lit = true -> occurs bad s = false ->
  Js.replace_lit lit by_ s = Ok s.
Proof.
  intros Hl Hs. unfold Js.replace_lit.
  exact (replace_without_match bad
           {| Js.items := [Js.Lit lit]; Js.ignoreCase := false |} lit []
           _ s eq_refl eq_refl Hl Hs).
Qed.

(** ** Entities and the catalog *)

(** A text without [&] is its own decoding, and the decoding of a text
    without [#] does not throw: only a numeric reference can make
    [decodeHtmlEntities] fail. *)
Theorem decodeHtmlEntities_plain_text (text : string) :
  (occurs "&" text = false -> decodeHtmlEntities text = Ok text)
  /\ (occurs "#" text = false -> exists t, decodeHtmlEntities text = Ok t).
Proof.
  split; [| apply decodeHtmlEntities_returns].
  intros H. unfold decodeHtmlEntities.
  rewrite (replace_without_match "&" re_decimal_entity "&#" _ _ text
             eq_refl eq_refl eq_refl H).
  cbn [rbind].
  rewrite (replace_without_match "&" re_hex_entity "&#x" _ _ text
             eq_refl eq_refl eq_refl H).
  cbn [rbind].
  rewrite (replace_lit_without "&" "&amp;" _ text eq_refl H). cbn [rbind].
  rewrite (replace_lit_without "&" "&lt;" _ text eq_refl H). cbn [rbind].
  rewrite (replace_lit_without "&" "&gt;" _ text eq_refl H). cbn [rbind].
  rewrite (replace_lit_without "&" "&quot;" _ text eq_refl H). cbn [rbind].
  exact (replace_lit_without "&" "&apos;" _ text eq_refl H).
Qed.

Lemma map_throwing_returns {A B : Type} (f : A -> completion B) (l : list A) :
  Forall (fun a => exists b, f a = Ok b) l ->
  exists bs, map_throwing f l = Ok bs.
Proof.
  induction 1 as [|a l (b & Hb) _ (bs & Hbs)]; cbn [map_throwing].
  - eauto.
  - rewrite Hb. cbn [rbind]. rewrite Hbs. cbn [rbind]. eauto.
Qed.

Lemma nth_without (a : ascii) (i : nat) (caps : list string) :
  Forall (fun t => occurs a t = false) caps ->
  occurs a (nth i caps "") = false.
Proof.
  intros H. revert i. induction H as [|t caps Ht _ IH]; intros [|i]; auto.
  apply IH.
Qed.

Lemma decoded_groups_returns (html : string) :
  occurs "#" html = false -> exists groups, decoded_groups html = Ok groups.
Proof.
  intros H. unfold decoded_groups. apply map_throwing_returns.
  assert (occurs "#" (scanned_region html) = false) as Hregion.
  { unfold scanned_region.
    destruct (Js.first_match re_protected_form html) as [m |] eqn:Hm;
      [eapply first_match_within; eauto | exact H]. }
  eapply Forall_impl; [| apply (exec_all_within "#" optgroupRegex _ Hregion)].
  intros gm Hgm. unfold decode_group.
  destruct (decodeHtmlEntities_returns (Js.trim (nth 0 gm "")))
    as (groupName & ->);
    [apply occurs_trim, nth_without, Hgm |].
  cbn [rbind].
  destruct (map_throwing_returns decode_option
              (Js.exec_all optionRegex (nth 1 gm ""))) as (options & ->);
    [| cbn [rbind]; eauto].
  eapply Forall_impl;
    [| apply (exec_all_within "#" optionRegex _ (nth_without "#" 1 gm Hgm))].
  intros om Hom. unfold decode_option.
  destruct (decodeHtmlEntities_returns (Js.trim (nth 0 om ""))) as (n & ->);
    [apply occurs_trim, nth_without, Hom |].
  cbn [rbind]. eauto.
Qed.

(** A 2xx document that holds no [#] is always listed: every label of it
    decodes, and [listMacros] succeeds with the catalog of the document.
    A catalog read that fails after a 2xx response whose body was read
    fails on a numeric character reference. *)
Theorem listMacros_without_numeric_reference (w : World)
    (machine : MachineConfig) (st : State) (response : Response)
    (html : string) :
  network w (List.length (requests st)) (catalog_request machine) = Ok response ->
  ok response = true ->
  body response = Ok html ->
  occurs "#" html = false ->
  exists groups,
    decoded_groups html = Ok groups
    /\ fst (listMacros w machine st)
       = Ok {| Listing.success := true;
               Listing.macros := Some (catalog_entries groups);
               Listing.message := None |}.
Proof.
  intros Hreply Hok Hbody Hhash.
  destruct (decoded_groups_returns html Hhash) as (groups & Hgroups).
  exists groups. split; [exact Hgroups |].
  rewrite listMacros_run. cbn [fst]. unfold listing_of_reply.
  rewrite Hreply, Hok, Hbody, parse_macros_catalog, Hgroups.
  reflexivity.
Qed.

Lemma listMacros_without_numeric_reference_witness :
  exists groups,
    decoded_groups named_entities_catalog = Ok groups
    /\ fst (listMacros (serving named_entities_catalog) studio initial_state)
       = Ok {| Listing.success := true;
               Listing.macros := Some (catalog_entries groups);
               Listing.message := None |}.
Proof.
  apply (listMacros_without_numeric_reference (serving named_entities_catalog)
           studio initial_state
           {| status := 200; body := Ok named_entities_catalog |}
           named_entities_catalog eq_refl eq_refl eq_refl).
  vm_compute. reflexivity.
Defined.

(** ** The connection test of the configuration manager *)

Lemma find_in_filter {A : Type} (p q : A -> bool) (l : list A) :
  is_some (find p (filter q l)) = existsb (fun a => q a && p a) l
  /\ (0 <? List.length (filter q l))%nat = existsb q l
  /\ forall a, find p (filter q l) = Some a ->
               In a l /\ q a = true /\ p a = true.
Proof.
  induction l as [|x l (IH1 & IH2 & IH3)]; cbn [filter existsb].
  - split; [reflexivity |]. split; [reflexivity |]. intros a Ha. discriminate Ha.
  - assert (forall a, find p (filter q l) = Some a ->
                      In a (x :: l) /\ q a = true /\ p a = true) as IH3'.
    { intros a Ha. destruct (IH3 a Ha) as (Hin & Hqa & Hpa).
      split; [now right | split; assumption]. }
    destruct (q x) eqn:Hq; cbn [find List.length orb andb];
      [| split; [exact IH1 | split; [exact IH2 | exact IH3']]].
    destruct (p x) eqn:Hp; cbn [is_some orb].
    + split; [reflexivity |]. split; [reflexivity |].
      intros a Ha. injection Ha as <-.
      split; [now left | split; assumption].
    + split; [exact IH1 |]. split; [reflexivity | exact IH3'].
Qed.

Lemma checkMacroGroupExists_run (w : World) (machine : MachineConfig)
    (st : State) :
  let listing :=
    listing_of_reply machine
      (network w (List.length (requests st)) (catalog_request machine)) in
  exists check,
    checkMacroGroupExists w machine st
      = (Ok check, sent (catalog_request machine) st)
    /\ GroupCheck.exists_ check = has_group listing
    /\ GroupCheck.hasClipboardMacro check = has_clipboard_macro listing
    /\ forall uid,
         GroupCheck.clipboardMacroUid check = Some uid ->
         exists macros m,
           Listing.macros listing = Some macros /\ In m macros
           /\ is_clipboard_macro m = true /\ Macro.uid m = Some uid.
Proof.
  intros listing. unfold checkMacroGroupExists, try_catch, bind.
  rewrite listMacros_run. fold listing.
  unfold has_group, has_clipboard_macro.
  destruct (Listing.macros listing) as [macros |] eqn:Hmacros.
  - destruct (Listing.success listing); cbn [negb andb ret].
    + destruct (find_in_filter
                  (fun m => String.eqb (Macro.name m) "Save Clipboard to File")
                  (group_is "Keyboard Maestro MCP") macros)
        as (H1 & H2 & H3).
      eexists. split; [reflexivity |].
      cbn [GroupCheck.exists_ GroupCheck.hasClipboardMacro
           GroupCheck.clipboardMacroUid].
      split; [exact H2 |]. split; [exact H1 |].
      intros uid Huid.
      destruct (find _ (filter _ macros)) as [m |] eqn:Hfind;
        [| discriminate Huid].
      destruct (H3 m eq_refl) as (Hin & Hq & Hp).
      exists macros, m. repeat split; auto.
      unfold is_clipboard_macro. now rewrite Hq, Hp.
    + exists no_group. repeat split; discriminate.
  - exists no_group. split; [reflexivity |].
    rewrite !andb_false_r. repeat split; discriminate.
Qed.

(** [checkMacroGroupExists] reads the catalog once and does not throw,
    whatever the network answers.  It reports the capture macro exactly
    when the read succeeded and the catalog holds an entry named Save
    Clipboard to File in the group Keyboard Maestro MCP; it then reports
    the group too, and the uid it returns is the uid of such an entry of
    the catalog: the macro is recognised by its name and group, not by a
    fixed uid. *)
Theorem checkMacroGroupExists_by_name (w : World) (machine : MachineConfig)
    (st : State) :
  let listing :=
    listing_of_reply machine
      (network w (List.length (requests st)) (catalog_request machine)) in
  exists check,
    checkMacroGroupExists w machine st
      = (Ok check, sent (catalog_request machine) st)
    /\ GroupCheck.hasClipboardMacro check = has_clipboard_macro listing
    /\ (GroupCheck.hasClipboardMacro check = true ->
        GroupCheck.exists_ check = true)
    /\ (GroupCheck.hasClipboardMacro check = false ->
        GroupCheck.clipboardMacroUid check = None)
    /\ forall uid,
         GroupCheck.clipboardMacroUid check = Some uid ->
         exists macros m,
           Listing.macros listing = Some macros /\ In m macros
           /\ Macro.group m = Some "Keyboard Maestro MCP"
           /\ Macro.name m = "Save Clipboard to File"
           /\ Macro.uid m = Some uid.
Proof.
  intros listing.
  destruct (checkMacroGroupExists_run w machine st)
    as (check & Hrun & Hgroup & Hhas & Huid).
  fold listing in Hgroup, Hhas, Huid.
  exists check. split; [exact Hrun |]. split; [exact Hhas |].
  split; [| split].
  - rewrite Hhas, Hgroup. unfold has_clipboard_macro, has_group.
    destruct (Listing.success listing); [| discriminate].
    destruct (Listing.macros listing) as [macros |]; [| discriminate].
    cbn [andb]. intros H. apply existsb_exists in H as (m & Hin & Hm).
    apply existsb_exists. exists m. split; [exact Hin |].
    unfold is_clipboard_macro in Hm. now apply andb_true_iff in Hm.
  - intros Hnone.
    destruct (GroupCheck.clipboardMacroUid check) as [uid |] eqn:Hu;
      [| reflexivity].
    destruct (Huid uid eq_refl) as (macros & m & Hmacros & Hin & Hm & _).
    rewrite Hhas in Hnone. unfold has_clipboard_macro in Hnone.
    rewrite Hmacros in Hnone.
    assert (existsb is_clipboard_macro macros = true) as Hex
      by (apply existsb_exists; eauto).
    rewrite Hex, andb_true_r in Hnone.
    (* a failed listing carries no macros *)
    subst listing. unfold listing_of_reply, listing_connectivity,
      listing_failed in Hnone, Hmacros.
    destruct (network w _ _) as [response | e]; [| discriminate Hmacros].
    destruct (ok response).
    + destruct (body response) as [html | e]; [| discriminate Hmacros].
      destruct (parse_macros html); [discriminate Hnone | discriminate Hmacros].
    + destruct (status response =? 401); discriminate Hmacros.
  - intros uid Hu.
    destruct (Huid uid Hu) as (macros & m & Hmacros & Hin & Hm & Hmu).
    exists macros, m. unfold is_clipboard_macro, group_is in Hm.
    apply andb_true_iff in Hm as (Hg & Hn).
    destruct (Macro.group m) as [g |]; [| discriminate Hg].
    apply String.eqb_eq in Hg as ->. apply String.eqb_eq in Hn.
    repeat split; auto.
Qed.

(** [testMachineConnection] does not throw.  When the catalog read fails
    it reports the message of the failure, after one request.  When it
    succeeds the catalog is read a second time: the count of macros comes
    from the first reading and the presence of the capture macro from the
    second, so a machine that answers the first request only is reported
    as connected and without the capture macro, whatever its catalog
    holds. *)
Theorem testMachineConnection_reads_twice (w : World) (config : Connection.t)
    (st : State) :
  let machine := test_machine config in
  let req := catalog_request machine in
  let first :=
    listing_of_reply machine (network w (List.length (requests st)) req) in
  let second :=
    listing_of_reply machine
      (network w (S (List.length (requests st))) req) in
  testMachineConnection w config st
  = if Listing.success first then
      (Ok {| TestResult.success := true;
             TestResult.message :=
               "Connected successfully! Found "
               ++ Js.show (Z.of_nat (macro_count (Listing.macros first)))
               ++ " macros.";
             TestResult.macroCount :=
               Some (macro_count (Listing.macros first));
             TestResult.hasMacroGroup := Some (has_clipboard_macro second) |},
       sent req (sent req st))
    else
      (Ok {| TestResult.success := false;
             TestResult.message :=
               match Js.truthy (Listing.message first) with
               | Some m => m
               | None => "Connection failed"
               end;
             TestResult.macroCount := None;
             TestResult.hasMacroGroup := None |},
       sent req st).
Proof.
  intros machine req first second.
  unfold testMachineConnection. fold (test_machine config). fold machine.
  unfold try_catch, bind at 1. rewrite listMacros_run.
  fold req. fold first.
  destruct (Listing.success first); [| reflexivity].
  unfold bind.
  destruct (checkMacroGroupExists_run w machine (sent req st))
    as (check & Hrun & Hgroup & Hhas & _).
  fold req in Hrun. rewrite Hrun. cbn [ret].
  assert (List.length (requests (sent req st)) = S (List.length (requests st)))
    as Hlen.
  { cbn [sent requests]. rewrite length_app. cbn [List.length]. lia. }
  rewrite Hlen in Hgroup, Hhas. fold req in Hgroup, Hhas. fold second in Hgroup, Hhas.
  rewrite Hgroup, Hhas.
  assert (has_group second && has_clipboard_macro second
          = has_clipboard_macro second) as ->; [| reflexivity].
  unfold has_group, has_clipboard_macro.
  destruct (Listing.success second); [| reflexivity].
  destruct (Listing.macros second) as [macros |]; [| reflexivity].
  cbn [andb].
  destruct (existsb is_clipboard_macro macros) eqn:Hex;
    [| now rewrite andb_false_r].
  rewrite andb_true_r.
  apply existsb_exists in Hex as (m & Hin & Hm).
  apply existsb_exists. exists m. split; [exact Hin |].
  unfold is_clipboard_macro in Hm. now apply andb_true_iff in Hm.
Qed.

(** The catalog holds the capture macro; the machine answers once. *)
Example testMachineConnection_reachable_once :
  fst (testMachineConnection reachable_once local_connection initial_state)
  = Ok {| TestResult.success := true;
          TestResult.message := "Connected successfully! Found 1 macros.";
          TestResult.macroCount := Some 1%nat;
          TestResult.hasMacroGroup := Some false |}.
Proof. vm_compute. reflexivity. Qed.

(** ** The query of a trigger request *)

Lemma urldecode_byte (a : ascii) (rest : string) :
  urldecode (Js.urlencode_byte a ++ rest) = String a (urldecode rest).
Proof.
  destruct a as [[] [] [] [] [] [] [] []]; reflexivity.
Qed.

Lemma urldecode_percent_encode (s : string) :
  urldecode (Js.percent_encode s) = s.
Proof.
  induction s as [|a s IH]; [reflexivity |].
  cbn [Js.percent_encode]. rewrite urldecode_byte. now rewrite IH.
Qed.

(** Decoding a serialised text gives the text back, with U+FFFD in the
    place of every surrogate without its partner. *)
Lemma urldecode_urlencode (s : string) :
  urldecode (Js.urlencode s) = Js.to_usv s.
Proof. unfold Js.urlencode. apply urldecode_percent_encode. Qed.

Lemma occurs_In (a : ascii) (s : string) :
  occurs a s = true -> In a (list_ascii_of_string s).
Proof.
  induction s as [|b s IH]; simpl; [discriminate |].
  intros H. apply orb_true_iff in H as [H | H]; [| auto].
  apply Ascii.eqb_eq in H. now left.
Qed.

Lemma urlencode_byte_chars (b a : ascii) :
  occurs a (Js.urlencode_byte b) = true ->
  query_char a = true /\ Ascii.eqb a "&" = false.
Proof.
  intros H. apply occurs_In in H.
  assert (forallb (fun c => query_char c && negb (Ascii.eqb c "&"))
            (list_ascii_of_string (Js.urlencode_byte b)) = true) as Hall
    by (destruct b as [[] [] [] [] [] [] [] []]; vm_compute; reflexivity).
  rewrite forallb_forall in Hall. specialize (Hall a H).
  apply andb_true_iff in Hall as (Hq & Hn).
  split; [exact Hq | now apply negb_true_iff].
Qed.

Lemma urlencode_chars (s : string) (a : ascii) :
  occurs a (Js.urlencode s) = true ->
  query_char a = true /\ Ascii.eqb a "&" = false.
Proof.
  unfold Js.urlencode. generalize (Js.to_usv s) as t. clear s.
  induction t as [|b t IH]; [discriminate |].
  cbn [Js.percent_encode]. rewrite occurs_app.
  intros H. apply orb_true_iff in H as [H | H]; [| auto].
  exact (urlencode_byte_chars b a H).
Qed.

Lemma urlencode_no_ampersand (s : string) : occurs "&" (Js.urlencode s) = false.
Proof.
  destruct (occurs "&" (Js.urlencode s)) eqn:H; [| reflexivity].
  destruct (urlencode_chars s "&" H) as (_ & Habs). discriminate Habs.
Qed.

Lemma append_cancel (a x y : string) : a ++ x = a ++ y -> x = y.
Proof.
  induction a as [|c a IH]; simpl; intros H; [exact H |].
  injection H as H. auto.
Qed.

Lemma split_at_ampersand (a b x y : string) :
  occurs "&" a = false -> occurs "&" b = false ->
  (x = "" \/ exists x', x = String "&" x') ->
  (y = "" \/ exists y', y = String "&" y') ->
  a ++ x = b ++ y -> a = b /\ x = y.
Proof.
  revert b. induction a as [|c a IH]; intros [|d b] Ha Hb Hx Hy H;
    cbn [append] in H.
  - auto.
  - destruct Hx as [-> | (x' & ->)]; [discriminate H |].
    injection H as <- _. discriminate Hb.
  - destruct Hy as [-> | (y' & ->)]; [discriminate H |].
    injection H as -> _. discriminate Ha.
  - injection H as <- H.
    apply occurs_tail in Ha as (_ & Ha). apply occurs_tail in Hb as (_ & Hb).
    destruct (IH b Ha Hb Hx Hy H) as (-> & ->). auto.
Qed.

(** The query of a trigger request keeps the macro and the value apart,
    and it loses nothing of them but the surrogates without a partner,
    which the serialiser writes as U+FFFD: two requests to a machine are
    the same exactly when the macros are the same and the values are the
    same once that is done, an absent and an empty value counting as one.
    So texts that hold no such surrogate give the same request only when
    they are the same, and two different surrogates without a partner
    give the same request.  The query is made of letters, digits and the
    characters of [*-._+%&=], so no macro name and no value can add a
    parameter, a fragment or a line break to the request. *)
Theorem trigger_request_encoding (machine : MachineConfig)
    (macro macro' : string) (value value' : option string) :
  (trigger_request machine macro value = trigger_request machine macro' value'
   <-> Js.to_usv macro = Js.to_usv macro'
       /\ option_map Js.to_usv (Js.truthy value)
          = option_map Js.to_usv (Js.truthy value'))
  /\ (Js.to_usv macro = macro -> Js.to_usv macro' = macro' ->
      trigger_request machine macro value = trigger_request machine macro' value ->
      macro = macro')
  /\ (trigger_request machine (Js.utf8 55296) value
      = trigger_request machine (Js.utf8 55297) value
      /\ Js.utf8 55296 <> Js.utf8 55297)
  /\ forall a, occurs a (search_params macro value) = true ->
               query_char a = true.
Proof.
  assert (forall m m' v v',
            trigger_request machine m v = trigger_request machine m' v'
            <-> Js.to_usv m = Js.to_usv m'
                /\ option_map Js.to_usv (Js.truthy v)
                   = option_map Js.to_usv (Js.truthy v')) as Hiff.
  { clear. intros macro macro' value value'. split.
    - intros H.
      assert (search_params macro value = search_params macro' value') as Hq.
      { unfold trigger_request in H. injection H as H.
        apply append_cancel in H.
        exact (append_cancel "/authenticatedaction.html?" _ _ H). }
      unfold search_params in Hq. apply (append_cancel "macro=") in Hq.
      apply split_at_ampersand in Hq as (Hm & Hv);
        try apply urlencode_no_ampersand.
      + split.
        * apply (f_equal urldecode) in Hm.
          now rewrite !urldecode_urlencode in Hm.
        * destruct (Js.truthy value) as [v |], (Js.truthy value') as [v' |];
            try discriminate Hv; [| reflexivity].
          apply (append_cancel "&value=") in Hv.
          apply (f_equal urldecode) in Hv.
          rewrite !urldecode_urlencode in Hv. cbn [option_map]. now rewrite Hv.
      + destruct (Js.truthy value); [right; eexists; reflexivity | now left].
      + destruct (Js.truthy value'); [right; eexists; reflexivity | now left].
    - intros (Hm & Hv). unfold trigger_request, search_params, Js.urlencode.
      rewrite Hm.
      destruct (Js.truthy value) as [v |], (Js.truthy value') as [v' |];
        cbn [option_map] in Hv; try discriminate Hv; [| reflexivity].
      injection Hv as Hv. now rewrite Hv. }
  split; [apply Hiff |].
  split.
  { intros Hm Hm' H. apply Hiff in H as (H & _). congruence. }
  split.
  { split.
    - apply Hiff. split; reflexivity.
    - vm_compute. discriminate. }
  intros a. unfold search_params. rewrite !occurs_app.
  intros H. apply orb_true_iff in H as [H | H].
  - apply occurs_In in H. cbn in H.
    decompose [or] H; try contradiction; subst a; reflexivity.
  - apply orb_true_iff in H as [H | H];
      [exact (proj1 (urlencode_chars macro a H)) |].
    destruct (Js.truthy value) as [v |]; [| discriminate H].
    rewrite occurs_app in H. apply orb_true_iff in H as [H | H];
      [| exact (proj1 (urlencode_chars v a H))].
    apply occurs_In in H. cbn in H.
    decompose [or] H; try contradiction; subst a; reflexivity.
Qed.

(** ** The macro file of the setup wizard *)

Lemma template_shape :
  MACROS_TEMPLATE = template_before ++ placeholder ++ template_after
  /\ occurs "{" template_before = false
  /\ occurs "{" template_after = false.
Proof. split; [| split]; vm_compute; reflexivity. Qed.

Lemma GetSubstitution_plain (matched before after template : string) :
  occurs "$" template = false ->
  GetSubstitution matched before after template = template.
Proof.
  induction template as [|a t IH]; [reflexivity |].
  intros H. apply occurs_tail in H as (Ha & Ht).
  cbn [GetSubstitution]. rewrite Ascii.eqb_sym, Ha. now rewrite IH.
Qed.

Lemma GetSubstitution_app (matched before after x y : string) :
  occurs "$" x = false ->
  GetSubstitution matched before after (x ++ y)
    = x ++ GetSubstitution matched before after y.
Proof.
  induction x as [|a x IH]; [reflexivity |].
  intros H. apply occurs_tail in H as (Ha & Hx).
  cbn [append GetSubstitution]. rewrite Ascii.eqb_sym, Ha. now rewrite IH.
Qed.

Lemma strip_app (l r : string) : Js.strip false l (l ++ r) = Some r.
Proof.
  induction l as [|a l IH]; [reflexivity |].
  cbn [append Js.strip Js.char_eq]. now rewrite Ascii.eqb_refl.
Qed.

Lemma length_append (l r : string) :
  String.length (l ++ r) = (String.length l + String.length r)%nat.
Proof. induction l as [|a l IH]; simpl; [reflexivity | now rewrite IH]. Qed.

Lemma slice0_app (l r : string) : Js.slice0 (String.length l) (l ++ r) = l.
Proof.
  induction l as [|a l IH]; [now destruct r | simpl; now rewrite IH].
Qed.

Lemma slice_from_app (l r : string) : slice_from (String.length l) (l ++ r) = r.
Proof. induction l as [|a l IH]; [now destruct r | exact IH]. Qed.

Lemma match_here_literal (lit r : string) :
  Js.match_here (re_literal lit) (lit ++ r) = Some ([], String.length lit).
Proof.
  unfold Js.match_here, re_literal. cbn [Js.items Js.ignoreCase Js.run].
  rewrite strip_app. rewrite length_append. do 2 f_equal. lia.
Qed.

Lemma match_here_other (c a : ascii) (l s : string) :
  Ascii.eqb c a = false ->
  Js.match_here (re_literal (String c l)) (String a s) = None.
Proof.
  intros H. unfold Js.match_here, re_literal.
  cbn [Js.items Js.ignoreCase Js.run Js.strip Js.char_eq]. now rewrite H.
Qed.

Section Literal.
Variable c : ascii.
Variable l template : string.

Lemma replace_template_no_match (s before : string) :
  occurs c s = false ->
  replace_template_from (re_literal (String c l)) template before 0 s = s.
Proof.
  revert before. induction s as [|a s IH]; intros before H; [reflexivity |].
  apply occurs_tail in H as (Ha & Hs).
  cbn [replace_template_from]. rewrite (match_here_other c a l s Ha).
  now rewrite IH.
Qed.

Lemma replace_template_skip (skipped s before : string) :
  replace_template_from (re_literal (String c l)) template before
    (String.length skipped) (skipped ++ s)
  = replace_template_from (re_literal (String c l)) template
      (before ++ skipped) 0 s.
Proof.
  revert before. induction skipped as [|a skipped IH]; intros before.
  - cbn [String.length append]. f_equal.
    clear. induction before as [|b before IH]; simpl; [reflexivity |].
    now rewrite <- IH.
  - cbn [String.length append replace_template_from]. rewrite IH.
    now rewrite append_assoc.
Qed.

(** One occurrence of the literal, in a text that does not hold its first
    character elsewhere. *)
Lemma replace_template_once (before after pre : string) :
  occurs c before = false -> occurs c after = false ->
  replace_template_from (re_literal (String c l)) template pre 0
    (before ++ String c l ++ after)
  = before
    ++ GetSubstitution (String c l) (pre ++ before) after template ++ after.
Proof.
  revert pre. induction before as [|a before IH]; intros pre Hb Ha.
  - cbn [append]. change (String c (l ++ after)) with (String c l ++ after).
    cbn [append replace_template_from].
    change (String c (l ++ after)) with (String c l ++ after).
    rewrite match_here_literal, slice0_app, slice_from_app.
    cbn [String.length]. rewrite replace_template_skip.
    rewrite replace_template_no_match by exact Ha.
    do 2 f_equal.
    clear. induction pre as [|b pre IH]; simpl; [reflexivity |].
    now rewrite <- IH.
  - apply occurs_tail in Hb as (Hca & Hb).
    cbn [append replace_template_from].
    rewrite (match_here_other c a l _ Hca).
    rewrite IH by assumption. now rewrite append_assoc.
Qed.

Lemma replace_template_char (s before : string) :
  l = "" -> occurs "$" template = false ->
  replace_template_from (re_literal (String c l)) template before 0 s
  = subst_char c template s.
Proof.
  intros -> Ht. revert before.
  induction s as [|a s IH]; intros before; [reflexivity |].
  cbn [replace_template_from subst_char].
  destruct (Ascii.eqb c a) eqn:Hca.
  - apply Ascii.eqb_eq in Hca as <-.
    change (String c s) with (String c "" ++ s).
    rewrite match_here_literal, slice0_app, slice_from_app.
    cbn [String.length]. rewrite GetSubstitution_plain by exact Ht.
    now rewrite IH.
  - rewrite (match_here_other c a "" s Hca). now rewrite IH.
Qed.

End Literal.

Lemma subst_char_app (c : ascii) (t x y : string) :
  subst_char c t (x ++ y) = subst_char c t x ++ subst_char c t y.
Proof.
  induction x as [|a x IH]; [reflexivity |].
  cbn [append subst_char]. now rewrite IH, append_assoc.
Qed.

(** The four replacements in the order of the source escape the text once:
    the ampersands that the first one writes are not escaped again,
    because the ampersand is replaced first. *)
Lemma escapes_in_sequence (s : string) :
  subst_char dquote "&quot;"
    (subst_char ">" "&gt;" (subst_char "<" "&lt;" (subst_char "&" "&amp;" s)))
  = xml_escape s.
Proof.
  induction s as [|a s IH]; [reflexivity |].
  cbn [subst_char xml_escape]. rewrite !subst_char_app, IH. f_equal.
  unfold xml_escape_char.
  rewrite (Ascii.eqb_sym a "&"), (Ascii.eqb_sym a "<"),
    (Ascii.eqb_sym a ">"), (Ascii.eqb_sym a dquote).
  destruct (Ascii.eqb "&" a) eqn:H1; [reflexivity |].
  cbn [subst_char].
  destruct (Ascii.eqb "<" a) eqn:H2; [reflexivity |].
  cbn [subst_char append].
  destruct (Ascii.eqb ">" a) eqn:H3; [reflexivity |].
  cbn [subst_char append].
  destruct (Ascii.eqb dquote a) eqn:H4; reflexivity.
Qed.

Lemma xml_escape_app (x y : string) :
  xml_escape (x ++ y) = xml_escape x ++ xml_escape y.
Proof.
  induction x as [|a x IH]; [reflexivity |].
  cbn [append xml_escape]. now rewrite IH, append_assoc.
Qed.

Lemma xml_escape_dollar (s : string) :
  occurs "$" s = false -> occurs "$" (xml_escape s) = false.
Proof.
  induction s as [|a s IH]; [reflexivity |].
  intros H. apply occurs_tail in H as (Ha & Hs).
  cbn [xml_escape]. rewrite occurs_app, (IH Hs), orb_false_r.
  unfold xml_escape_char.
  destruct (Ascii.eqb a "&"); [reflexivity |].
  destruct (Ascii.eqb a "<"); [reflexivity |].
  destruct (Ascii.eqb a ">"); [reflexivity |].
  destruct (Ascii.eqb a dquote); [reflexivity |].
  cbn [occurs]. now rewrite Ha.
Qed.

Lemma generateMacrosFile_run (filePath : string) :
  generateMacrosFile filePath
  = template_before
    ++ GetSubstitution placeholder template_before template_after
         (xml_escape filePath)
    ++ template_after.
Proof.
  unfold generateMacrosFile, replace_template.
  rewrite (replace_template_char "&" "" "&amp;" filePath "" eq_refl eq_refl).
  rewrite (replace_template_char "<" "" "&lt;" _ "" eq_refl eq_refl).
  rewrite (replace_template_char ">" "" "&gt;" _ "" eq_refl eq_refl).
  change (re_literal Js.dq) with (re_literal (String dquote "")).
  rewrite (replace_template_char dquote "" "&quot;" _ "" eq_refl eq_refl).
  rewrite escapes_in_sequence.
  destruct template_shape as (Hshape & Hb & Ha).
  rewrite Hshape at 1.
  exact (replace_template_once "{" "{MCP_FILE_PATH}}" _ template_before
           template_after "" Hb Ha).
Qed.

(** [generateMacrosFile] writes the path, escaped once for XML, in the
    place of the one placeholder of the template, provided the path holds
    no dollar: the escaped path is used as a replacement text, in which a
    dollar is read together with the character after it.  A path that
    holds two dollars in a row gets one of them in the file, and a path
    that ends with a dollar and an apostrophe gets the rest of the template
    in their place. *)
Theorem generateMacrosFile_substitution (filePath : string) :
  (occurs "$" filePath = false ->
   generateMacrosFile filePath
   = template_before ++ xml_escape filePath ++ template_after)
  /\ (forall p q,
        filePath = p ++ "$$" ++ q ->
        occurs "$" p = false -> occurs "$" q = false ->
        generateMacrosFile filePath
        = template_before ++ xml_escape p ++ "$" ++ xml_escape q
          ++ template_after)
  /\ (forall p,
        filePath = p ++ "$'" -> occurs "$" p = false ->
        generateMacrosFile filePath
        = template_before ++ xml_escape p ++ template_after
          ++ template_after).
Proof.
  rewrite generateMacrosFile_run. split; [| split].
  - intros H. now rewrite GetSubstitution_plain by now apply xml_escape_dollar.
  - intros p q -> Hp Hq.
    rewrite !xml_escape_app.
    rewrite GetSubstitution_app by now apply xml_escape_dollar.
    change (xml_escape "$$") with "$$".
    cbn [append GetSubstitution Ascii.eqb Bool.eqb].
    rewrite GetSubstitution_plain by now apply xml_escape_dollar.
    now rewrite !append_assoc.
  - intros p -> Hp.
    rewrite xml_escape_app.
    rewrite GetSubstitution_app by now apply xml_escape_dollar.
    change (xml_escape "$'") with "$'".
    cbn [GetSubstitution Ascii.eqb Bool.eqb].
    rewrite !append_assoc. reflexivity.
Qed.

(** A path that [validatePath] accepts is of one of three kinds, and
    [expandPath] treats each in its way: a path that starts with a slash
    is left as it is; a path that starts with a tilde and a slash gets the
    home directory, which is [homeDir], else [HOME], else /Users/unknown,
    in the place of the tilde (the home directory holding no dollar, which
    would be read as in a replacement text); and a path that starts with a
    tilde and goes on otherwise, the tilde alone or the home of another
    user, is accepted and left unexpanded. *)
Theorem expandPath_of_valid_path (HOME homeDir : option string)
    (path : string) :
  Validation.valid (validatePath path) = true ->
  occurs "$" (home_of HOME homeDir) = false ->
  (exists rest,
     path = String "/" rest /\ expandPath HOME path homeDir = path)
  \/ (exists rest,
        path = "~/" ++ rest
        /\ expandPath HOME path homeDir
           = home_of HOME homeDir ++ "/" ++ rest)
  \/ (exists rest,
        path = String "~" rest /\ String.prefix "/" rest = false
        /\ expandPath HOME path homeDir = path).
Proof.
  unfold validatePath. intros Hvalid Hhome.
  destruct (negb (Js.nonempty path) || String.eqb (Js.trim path) "");
    [discriminate Hvalid |].
  destruct (negb (String.prefix "/" path) && negb (String.prefix "~" path))
    eqn:Hp; [discriminate Hvalid |].
  clear Hvalid. unfold expandPath. fold (home_of HOME homeDir).
  destruct path as [|c r]; [discriminate Hp |].
  cbn [String.prefix] in Hp.
  destruct (ascii_dec "/" c) as [<- | Hslash].
  - left. exists r. split; reflexivity.
  - destruct (ascii_dec "~" c) as [<- | Htilde]; [| discriminate Hp].
    right. destruct r as [|d r].
    + right. exists "". repeat split.
    + cbn [String.prefix]. destruct (ascii_dec "~" "~") as [_ | Hne];
        [| now contradiction Hne].
      destruct (ascii_dec "/" d) as [<- | Hd].
      * left. exists r. split; [reflexivity |]. cbn [String.prefix].
        unfold replace_first. cbn [replace_first_from Js.strip Js.char_eq].
        rewrite Ascii.eqb_refl.
        rewrite GetSubstitution_plain by exact Hhome.
        destruct r; reflexivity.
      * right. exists (String d r). repeat split.
        cbn [String.prefix]. destruct (ascii_dec "/" d); [contradiction | reflexivity].
Qed.

Lemma expandPath_of_valid_path_witness :
  (exists rest,
     "~/Documents/Keyboard Maestro MCP" = String "/" rest
     /\ expandPath (Some "/Users/me") "~/Documents/Keyboard Maestro MCP" None
        = "~/Documents/Keyboard Maestro MCP")
  \/ (exists rest,
        "~/Documents/Keyboard Maestro MCP" = "~/" ++ rest
        /\ expandPath (Some "/Users/me") "~/Documents/Keyboard Maestro MCP"
             None
           = home_of (Some "/Users/me") None ++ "/" ++ rest)
  \/ (exists rest,
        "~/Documents/Keyboard Maestro MCP" = String "~" rest
        /\ String.prefix "/" rest = false
        /\ expandPath (Some "/Users/me") "~/Documents/Keyboard Maestro MCP"
             None
           = "~/Documents/Keyboard Maestro MCP").
Proof.
  apply (expandPath_of_valid_path (Some "/Users/me") None
           "~/Documents/Keyboard Maestro MCP").
  - vm_compute. reflexivity.
  - vm_compute. reflexivity.
Defined.
